(** * RFP analyzer: the parser, the section segmenter, the retrieval stages
      and the analysis workflow, embedded from the Python sources.

    Conventions of the embedding.
    - A Python [str] is a [string]; its characters are the code points 0..255
      (Latin-1), on which [str.lower], [str.isspace], [\s], [\d] and [\w] are
      given exactly.  Text beyond Latin-1 is outside the model.
    - A Python [float] score is a rational ([Q]): the arithmetic of the
      sources is read exactly, without rounding.
    - A JSON number is read as the exact value of its decimal text.
    - Code that may raise returns [result]; a [try/except] is a match on it.
      Of the text of an exception raised inside a library ([json],
      pydantic, the interpreter) the model keeps the leading words; no
      statement below reads more of it than that it is some text.
    - Injected collaborators (vector store, chat model, pipeline, analyzer)
      are Section variables: the theorems hold for every behaviour of them. *)

From Stdlib Require Import ZArith QArith Lia Lqa Ascii String DecimalString.
From Stdlib Require Import DecimalZ DecimalPos Sorted.
From stdpp Require Import gmap strings list.

#[local] Set Warnings "-register-all".

Local Open Scope Z_scope.

(* ===================================================================== *)
(** * Python builtins used by the sources *)
(* ===================================================================== *)

Module Py.

(** ** Exceptions.  [JSONDecodeError] and pydantic's [ValidationError] are
    subclasses of [ValueError]; every class below derives from [Exception].
    The string is [str(e)]. *)
Inductive exn_class :=
| JSONDecodeError | ValidationError | ValueError | TypeError
| AttributeError | ZeroDivisionError | OtherError.

Record exn := Exn { exn_cls : exn_class; exn_msg : string }.

(** [isinstance(e, ValueError)] *)
Definition is_ValueError (e : exn) : bool :=
  match exn_cls e with
  | JSONDecodeError | ValidationError | ValueError => true
  | _ => false
  end.

Definition is_TypeError (e : exn) : bool :=
  match exn_cls e with TypeError => true | _ => false end.

Definition is_JSONDecodeError (e : exn) : bool :=
  match exn_cls e with JSONDecodeError => true | _ => false end.

Definition is_ValidationError (e : exn) : bool :=
  match exn_cls e with ValidationError => true | _ => false end.

Inductive result (A : Type) :=
| Ok (a : A)
| Raise (e : exn).
Arguments Ok {A} a.
Arguments Raise {A} e.

Definition bind {A B} (m : result A) (f : A -> result B) : result B :=
  match m with
  | Ok a => f a
  | Raise e => Raise e
  end.

#[global] Instance result_ret : MRet result := fun A a => Ok a.
#[global] Instance result_bind : MBind result := fun A B f m => bind m f.

(** ** Characters *)

Definition ord (c : ascii) : N := N_of_ascii c.
Definition chr (n : N) : ascii := ascii_of_N n.

Definition between (lo hi : N) (c : ascii) : bool :=
  ((lo <=? ord c) && (ord c <=? hi))%N.

(** [str.isspace] on one character, which is also the class [\s]. *)
Definition isspace (c : ascii) : bool :=
  between 9 13 c || between 28 32 c || (ord c =? 133)%N || (ord c =? 160)%N.

(** The class [\d] (Unicode category Nd: only 0-9 below 256). *)
Definition isdecimal (c : ascii) : bool := between 48 57 c.

(** The class [\w]: alphanumeric characters and the underscore. *)
Definition isword (c : ascii) : bool :=
  between 48 57 c || between 65 90 c || between 97 122 c || (ord c =? 95)%N
  || (ord c =? 170)%N || (ord c =? 178)%N || (ord c =? 179)%N
  || (ord c =? 181)%N || (ord c =? 185)%N || (ord c =? 186)%N
  || between 188 190 c || between 192 214 c || between 216 246 c
  || between 248 255 c.

Definition lower_char (c : ascii) : ascii :=
  if between 65 90 c || between 192 214 c || between 216 222 c
  then chr (ord c + 32) else c.

(** ** Strings *)

Fixpoint lower (s : string) : string :=
  match s with
  | EmptyString => EmptyString
  | String c s' => String (lower_char c) (lower s')
  end.

Fixpoint lstrip (s : string) : string :=
  match s with
  | EmptyString => EmptyString
  | String c s' => if isspace c then lstrip s' else s
  end.

Fixpoint rstrip (s : string) : string :=
  match s with
  | EmptyString => EmptyString
  | String c s' =>
      match rstrip s' with
      | EmptyString => if isspace c then EmptyString else String c EmptyString
      | r => String c r
      end
  end.

Definition strip (s : string) : string := rstrip (lstrip s).

Definition len (s : string) : Z := Z.of_nat (String.length s).

Fixpoint startswith (s p : string) {struct p} : bool :=
  match p, s with
  | EmptyString, _ => true
  | String a p', String b s' => if Ascii.eqb a b then startswith s' p' else false
  | String _ _, EmptyString => false
  end.

(** [s.find(sub)]: the lowest index at which [sub] occurs, or -1. *)
Fixpoint find_from (s sub : string) (i : Z) : Z :=
  if startswith s sub then i
  else match s with
       | EmptyString => -1
       | String _ s' => find_from s' sub (i + 1)
       end.

Definition find (s sub : string) : Z := find_from s sub 0.

(** [s.rfind(sub)]: the highest such index, or -1. *)
Fixpoint rfind_from (s sub : string) (i : Z) : Z :=
  match s with
  | EmptyString => if startswith s sub then i else -1
  | String _ s' =>
      let r := rfind_from s' sub (i + 1) in
      if r =? -1 then (if startswith s sub then i else -1) else r
  end.

Definition rfind (s sub : string) : Z := rfind_from s sub 0.

(** [sub in s] *)
Definition contains (sub s : string) : bool := negb (find s sub =? -1).

Fixpoint drop (n : nat) (s : string) : string :=
  match n, s with
  | O, _ => s
  | S n', String _ s' => drop n' s'
  | S _, EmptyString => EmptyString
  end.

Fixpoint take (n : nat) (s : string) : string :=
  match n, s with
  | S n', String c s' => String c (take n' s')
  | _, _ => EmptyString
  end.

(** Index normalisation of a slice bound. *)
Definition slice_index (n i : Z) : Z :=
  if i <? 0 then Z.max 0 (i + n) else Z.min i n.

(** [s[lo:hi]] *)
Definition slice (s : string) (lo hi : Z) : string :=
  let a := slice_index (len s) lo in
  let b := slice_index (len s) hi in
  take (Z.to_nat (b - a)) (drop (Z.to_nat a) s).

(** [s[:hi]] *)
Definition slice_to (s : string) (hi : Z) : string := slice s 0 hi.

(** [l[:hi]] on a list *)
Definition list_slice_to {A} (l : list A) (hi : Z) : list A :=
  firstn (Z.to_nat (slice_index (Z.of_nat (length l)) hi)) l.

(** [s.split(sep)] for a non-empty separator: [skip] counts the characters
    of a separator still to be passed over, [cur] is the piece being read,
    in reverse. *)
Fixpoint split_go (sep : string) (s : string) (skip : nat) (cur : string)
  : list string :=
  match s with
  | EmptyString => [String.rev cur]
  | String c s' =>
      match skip with
      | S k => split_go sep s' k cur
      | O =>
          if startswith s sep
          then String.rev cur :: split_go sep s' (String.length sep - 1) EmptyString
          else split_go sep s' O (String c cur)
      end
  end.

Definition split (s sep : string) : list string := split_go sep s O EmptyString.

(** [sep.join(l)] *)
Fixpoint join (sep : string) (l : list string) : string :=
  match l with
  | [] => EmptyString
  | [x] => x
  | x :: l' => x +:+ sep +:+ join sep l'
  end.

End Py.

(* ===================================================================== *)
(** * The regular expressions of the sources ([re])
    A backtracking matcher with Python's priorities: the leftmost match, an
    alternation tries its left branch first, a greedy repetition tries one
    more round first and a lazy one tries the rest of the pattern first. *)
(* ===================================================================== *)

Module Re.
Import Py.

Inductive regex :=
| Eps
| Cls (p : ascii -> bool)
| Seq (r1 r2 : regex)
| Alt (r1 r2 : regex)
| Star (greedy : bool) (r : regex)
| Group (r : regex)
| Bol.

(** Matcher state: the text still to read, the index reached, and the span
    of group 1 when it took part in the match. *)
Record mstate := MState {
  m_rest : string;
  m_pos : nat;
  m_grp : option (nat * nat)
}.

(** The rounds of a repetition: [body] matches one round and hands the
    state to its continuation.  A round must read at least one character,
    so [n] rounds are enough for a text of [n] characters. *)
Fixpoint star_loop {A} (body : mstate -> (mstate -> option A) -> option A)
  (greedy : bool) (k : mstate -> option A) (n : nat) (st : mstate)
  : option A :=
  match n with
  | O => k st
  | S n' =>
      let again st' :=
        if (m_pos st <? m_pos st')%nat
        then star_loop body greedy k n' st' else None in
      if greedy
      then match body st again with
           | Some x => Some x
           | None => k st
           end
      else match k st with
           | Some x => Some x
           | None => body st again
           end
  end.

(** [exec r st k]: match [r] from the state [st] and hand the state after
    the match to [k]; when [k] refuses, try the next way to match. *)
Fixpoint exec {A} (r : regex) (st : mstate) (k : mstate -> option A)
  : option A :=
  match r with
  | Eps => k st
  | Cls p =>
      match m_rest st with
      | String c s' =>
          if p c then k (MState s' (S (m_pos st)) (m_grp st)) else None
      | EmptyString => None
      end
  | Seq r1 r2 => exec r1 st (fun st' => exec r2 st' k)
  | Alt r1 r2 =>
      match exec r1 st k with
      | Some x => Some x
      | None => exec r2 st k
      end
  | Star greedy r' =>
      star_loop (exec r') greedy k (String.length (m_rest st)) st
  | Group r' =>
      exec r' st (fun st' =>
        k (MState (m_rest st') (m_pos st') (Some (m_pos st, m_pos st'))))
  | Bol => if (m_pos st =? 0)%nat then k st else None
  end.

(** Pattern syntax. *)
Definition Plus (greedy : bool) (r : regex) : regex := Seq r (Star greedy r).
Definition Opt (r : regex) : regex := Alt r Eps.
Definition Chr (c : ascii) : regex := Cls (Ascii.eqb c).
Definition Any : regex := Cls (fun _ => true).

Fixpoint Lit (s : string) : regex :=
  match s with
  | EmptyString => Eps
  | String c s' => Seq (Chr c) (Lit s')
  end.

Fixpoint Seqs (rs : list regex) : regex :=
  match rs with
  | [] => Eps
  | [r] => r
  | r :: rs' => Seq r (Seqs rs')
  end.

Fixpoint Alts (rs : list regex) : regex :=
  match rs with
  | [] => Cls (fun _ => false)
  | [r] => r
  | r :: rs' => Alt r (Alts rs')
  end.

(** A match of the pattern that starts at index [pos], where [s] is the
    text from [pos] on. *)
Definition match_at (r : regex) (s : string) (pos : nat) : option mstate :=
  exec r (MState s pos None) Some.

(** [re.match(pattern, text)] *)
Definition rematch (r : regex) (text : string) : option mstate :=
  match_at r text 0.

(** [re.search] from index [pos]: the start of the leftmost match and the
    state at its end. *)
Fixpoint search (r : regex) (s : string) (pos : nat) : option (nat * mstate) :=
  match match_at r s pos with
  | Some m => Some (pos, m)
  | None =>
      match s with
      | EmptyString => None
      | String _ s' => search r s' (S pos)
      end
  end.

(** The successive non-overlapping matches, left to right.  After an empty
    match the scan moves one character on. *)
Fixpoint finditer_go (fuel : nat) (r : regex) (s : string) (pos : nat)
  : list (nat * mstate) :=
  match fuel with
  | O => []
  | S fuel' =>
      match search r s pos with
      | None => []
      | Some (a, m) =>
          (a, m) ::
          (if (a <? m_pos m)%nat
           then finditer_go fuel' r (m_rest m) (m_pos m)
           else match m_rest m with
                | EmptyString => []
                | String _ s' => finditer_go fuel' r s' (S (m_pos m))
                end)
      end
  end.

Definition finditer (r : regex) (text : string) : list (nat * mstate) :=
  finditer_go (S (String.length text)) r text 0.

Definition substr (text : string) (a b : nat) : string :=
  take (b - a) (drop a text).

(** [match.group(1)]; a group that took no part in the match gives the
    empty string, as in [re.findall] and in a replacement template. *)
Definition group1 (text : string) (m : mstate) : string :=
  match m_grp m with
  | Some (a, b) => substr text a b
  | None => EmptyString
  end.

Fixpoint has_group (r : regex) : bool :=
  match r with
  | Group _ => true
  | Seq r1 r2 | Alt r1 r2 => has_group r1 || has_group r2
  | Star _ r' => has_group r'
  | Eps | Cls _ | Bol => false
  end.

(** [re.findall(pattern, text)]: the texts of group 1 when the pattern has
    a group, else the whole matches. *)
Definition findall (r : regex) (text : string) : list string :=
  List.map (fun am =>
         if has_group r then group1 text (snd am)
         else substr text (fst am) (m_pos (snd am)))
      (finditer r text).

Fixpoint sub_go (text : string) (ms : list (nat * mstate)) (from : nat)
  (repl : string -> string) : string :=
  match ms with
  | [] => drop from text
  | (a, m) :: ms' =>
      substr text from a +:+ repl (group1 text m)
        +:+ sub_go text ms' (m_pos m) repl
  end.

(** [re.sub(pattern, repl, text)]; [repl] gets the text of group 1. *)
Definition sub (r : regex) (repl : string -> string) (text : string) : string :=
  sub_go text (finditer r text) 0 repl.

(** The character classes of the sources. *)
Definition ws : regex := Cls isspace.           (* \s *)
Definition digit : regex := Cls isdecimal.      (* \d *)
Definition word : regex := Cls isword.          (* \w *)

(** ** Names used in the statements about the matcher *)

(** The index a state would reach at the end of its text. *)
Definition text_end (st : mstate) : nat :=
  (m_pos st + String.length (m_rest st))%nat.

(** [st'] lies at or after [st] in the same text. *)
Definition ahead (st st' : mstate) : Prop :=
  text_end st' = text_end st /\ (m_pos st <= m_pos st')%nat.

(** A round matcher that calls its continuation only ahead of its state. *)
Definition forward {A} (body : mstate -> (mstate -> option A) -> option A)
  : Prop :=
  forall st k x, body st k = Some x -> exists st', ahead st st' /\ k st' = Some x.

(** A round matcher that looks at its continuation only ahead of its
    state. *)
Definition framed {A} (body : mstate -> (mstate -> option A) -> option A)
  : Prop :=
  forall st k k', (forall st', ahead st st' -> k st' = k' st') ->
                  body st k = body st k'.

End Re.

(* ===================================================================== *)
(** * chunking/strategies.py: the hierarchical strategy *)
(* ===================================================================== *)

Module Chunking.
Import Py Re.

Definition nl : string := String (chr 10) EmptyString.

(** [ChunkingStrategy._clean_text] *)
Definition _clean_text (text : string) : string :=
  let text := sub (Plus true ws) (fun _ => " ") text in
  let text := sub (Seqs [Lit "[Page "; Plus true digit; Lit "]"]) (fun _ => "") text in
  strip text.

(** [\d+(?:\.\d+)*] *)
Definition dotted_numeral : regex :=
  Seq (Plus true digit) (Star true (Seq (Chr ".") (Plus true digit))).

(** [HierarchicalChunkingStrategy.SECTION_PATTERNS] *)
Definition SECTION_PATTERNS : list regex :=
  [ Seqs [Bol; Alts [Lit "SECTION"; Lit "Section"; Lit "CHAPTER"; Lit "Chapter"];
          Star true ws; Group dotted_numeral];
    Seqs [Bol; Group dotted_numeral; Plus true ws; Cls (between 65 90)];
    Seqs [Bol; Alts [Lit "ARTICLE"; Lit "Article"]; Plus true ws;
          Group (Plus true digit)] ].

(** The dict returned by [_match_section]. *)
Record section_match := SectionMatch {
  sm_number : string;
  sm_title : string
}.

Fixpoint first_match (patterns : list regex) (line : string)
  : option section_match :=
  match patterns with
  | [] => None
  | p :: ps =>
      match rematch p line with
      | Some m => Some (SectionMatch (group1 line m) line)
      | None => first_match ps line
      end
  end.

Definition _match_section (line : string) : option section_match :=
  first_match SECTION_PATTERNS (strip line).

(** [_build_hierarchy] *)
Definition _build_hierarchy (section_number : string) : list string :=
  match section_number with
  | EmptyString => []
  | _ =>
      let parts := split section_number "." in
      map (fun i => join "." (firstn (S i) parts)) (seq 0 (length parts))
  end.

(** A section: while it is open its content is the list of its lines, once
    closed it is that list joined by spaces. *)
Record open_section := OpenSection {
  o_title : string;
  o_number : string;
  o_content : list string;
  o_hierarchy : list string
}.

Record section := Section_ {
  title : string;
  number : string;
  content : string;
  hierarchy : list string
}.

(** The statement
    [if current_section["content"]: ...; sections.append(current_section)]. *)
Definition close_section (cur : open_section) (sections : list section)
  : list section :=
  match o_content cur with
  | [] => sections
  | _ :: _ =>
      sections ++ [Section_ (o_title cur) (o_number cur)
                     (join " " (o_content cur)) (o_hierarchy cur)]
  end.

Fixpoint sections_loop (lines : list string) (cur : open_section)
  (sections : list section) : list section :=
  match lines with
  | [] => close_section cur sections
  | line :: lines' =>
      match _match_section line with
      | Some sm =>
          sections_loop lines'
            (OpenSection (sm_title sm) (sm_number sm) []
               (_build_hierarchy (sm_number sm)))
            (close_section cur sections)
      | None =>
          sections_loop lines'
            (OpenSection (o_title cur) (o_number cur)
               (o_content cur ++ [line]) (o_hierarchy cur))
            sections
      end
  end.

(** [_identify_sections] *)
Definition _identify_sections (text : string) : list section :=
  sections_loop (split text nl) (OpenSection "Introduction" "0" [] []) [].

(** A chunk as [split] returns it: its content, the metadata given by the
    caller, and the section entries that [_chunk_section] adds. *)
Record chunk := Chunk {
  chunk_content : string;
  chunk_metadata : gmap string string;
  chunk_section : option (string * string * list string)
}.

Section Split.

(** [self.chunk_size], and the contents of the documents that
    [self._fallback_splitter.create_documents] makes of one text. *)
Variable chunk_size : Z.
Variable create_documents : string -> list string.

(** [_chunk_section] *)
Definition _chunk_section (section : section)
  (base_metadata : option (gmap string string)) : list chunk :=
  let content := content section in
  if String.eqb content "" || (len content <? 50) then []
  else
    let base := default ∅ base_metadata in
    let entries := Some (title section, number section, hierarchy section) in
    if len content <=? chunk_size then [Chunk content base entries]
    else List.map (fun piece => Chunk piece base entries)
           (create_documents content).

(** [_fallback_split] *)
Definition _fallback_split (text : string)
  (metadata : option (gmap string string)) : list chunk :=
  List.map (fun piece => Chunk piece (default ∅ metadata) None)
    (create_documents text).

(** [HierarchicalChunkingStrategy.split] *)
Definition split_text (text : string) (metadata : option (gmap string string))
  : list chunk :=
  let cleaned_text := _clean_text text in
  match _identify_sections cleaned_text with
  | [] => _fallback_split cleaned_text metadata
  | sections =>
      concat (List.map (fun section => _chunk_section section metadata) sections)
  end.

End Split.

(** The text of the segmentation scenario. *)
Definition scenario_text : string :=
  join nl ["1. Intro"; "foo"; "2. Req"; "2.1 Security"; "bar"].

End Chunking.

(* ===================================================================== *)
(** * JSON values and [json.loads] *)
(* ===================================================================== *)

Module Json.
Import Py.

(** A Python float: not-a-number, an infinity, or a finite value. *)
Inductive pyfloat :=
| FNan
| FInf (negative : bool)
| FFin (q : Q).

(** The values [json.loads] builds.  A dict keeps its keys in insertion
    order, each key once. *)
Inductive json :=
| JNull
| JBool (b : bool)
| JInt (z : Z)
| JFloat (f : pyfloat)
| JStr (s : string)
| JList (l : list json)
| JDict (d : list (string * json)).

Definition dquote : ascii := chr 34.

(** [d.get(key)] on the pairs of a dict *)
Fixpoint dict_lookup (d : list (string * json)) (key : string) : option json :=
  match d with
  | [] => None
  | (k, v) :: d' => if String.eqb k key then Some v else dict_lookup d' key
  end.

(** [d[key] = v] *)
Fixpoint dict_set (d : list (string * json)) (key : string) (v : json)
  : list (string * json) :=
  match d with
  | [] => [(key, v)]
  | (k, v0) :: d' =>
      if String.eqb k key then (k, v) :: d' else (k, v0) :: dict_set d' key v
  end.

Definition decode_error {A} (msg : string) : result A :=
  Raise (Exn JSONDecodeError msg).

(** The decoder's whitespace: space, tab, line feed, carriage return. *)
Definition is_json_ws (c : ascii) : bool :=
  (ord c =? 32)%N || (ord c =? 9)%N || (ord c =? 10)%N || (ord c =? 13)%N.

Fixpoint skip_ws (s : string) : string :=
  match s with
  | String c s' => if is_json_ws c then skip_ws s' else s
  | EmptyString => EmptyString
  end.

Definition hex_value (c : ascii) : option N :=
  if between 48 57 c then Some (ord c - 48)%N
  else if between 97 102 c then Some (ord c - 87)%N
  else if between 65 70 c then Some (ord c - 55)%N
  else None.

(** The text after a leading character [c], when the text starts with it. *)
Definition eat (c : ascii) (s : string) : option string :=
  match s with
  | String d rest => if Ascii.eqb d c then Some rest else None
  | EmptyString => None
  end.

(** Four hexadecimal digits of a [\u] escape. *)
Definition hex4 (s : string) : option (N * string) :=
  match s with
  | String a (String b (String c (String d s'))) =>
      match hex_value a, hex_value b, hex_value c, hex_value d with
      | Some x, Some y, Some z, Some w =>
          Some (((x * 16 + y) * 16 + z) * 16 + w, s')%N
      | _, _, _, _ => None
      end
  | _ => None
  end.

(** The character for a code point; one beyond Latin-1 has no character in
    this model and is shown as a question mark. *)
Definition char_of_code (n : N) : ascii :=
  if (n <? 256)%N then chr n else "?"%char.

(** The low half of a surrogate pair, escaped, at the head of [s]. *)
Definition low_surrogate (s : string) : option string :=
  match eat "\" s with
  | Some s1 =>
      match eat "u" s1 with
      | Some s2 =>
          match hex4 s2 with
          | Some (lo, s3) =>
              if ((56320 <=? lo) && (lo <=? 57343))%N then Some s3 else None
          | None => None
          end
      | None => None
      end
  | None => None
  end.

(** The escape [\uXXXX] at the head of [s] (after the [u]); a high
    surrogate followed by an escaped low surrogate is one code point. *)
Definition unicode_escape (s : string) : option (ascii * string) :=
  match hex4 s with
  | None => None
  | Some (hi, s1) =>
      if ((55296 <=? hi) && (hi <=? 56319))%N
      then Some ("?"%char, default s1 (low_surrogate s1))
      else Some (char_of_code hi, s1)
  end.

Definition simple_escape (c : ascii) : option ascii :=
  if Ascii.eqb c dquote then Some dquote
  else if Ascii.eqb c "\" then Some "\"%char
  else if Ascii.eqb c "/" then Some "/"%char
  else if Ascii.eqb c "b" then Some (chr 8)
  else if Ascii.eqb c "f" then Some (chr 12)
  else if Ascii.eqb c "n" then Some (chr 10)
  else if Ascii.eqb c "r" then Some (chr 13)
  else if Ascii.eqb c "t" then Some (chr 9)
  else None.

(** [scanstring] in strict mode, from just after the opening quote: the
    decoded text and what follows the closing quote.  [acc] is the text
    read so far, in reverse. *)
Fixpoint scanstring (fuel : nat) (s : string) (acc : string)
  : result (string * string) :=
  match fuel with
  | O => decode_error "Unterminated string starting at"
  | S fuel' =>
      match s with
      | EmptyString => decode_error "Unterminated string starting at"
      | String c s' =>
          if Ascii.eqb c dquote then Ok (String.rev acc, s')
          else if Ascii.eqb c "\" then
            match s' with
            | EmptyString => decode_error "Unterminated string starting at"
            | String e s'' =>
                if Ascii.eqb e "u" then
                  match unicode_escape s'' with
                  | Some (x, rest) => scanstring fuel' rest (String x acc)
                  | None => decode_error "Invalid \uXXXX escape"
                  end
                else
                  match simple_escape e with
                  | Some x => scanstring fuel' s'' (String x acc)
                  | None => decode_error "Invalid \escape"
                  end
            end
          else if (ord c <? 32)%N then decode_error "Invalid control character at"
          else scanstring fuel' s' (String c acc)
      end
  end.

(** ** Numbers *)

Fixpoint span_digits (s : string) : string * string :=
  match s with
  | String c s' =>
      if isdecimal c
      then let '(ds, rest) := span_digits s' in (String c ds, rest)
      else (EmptyString, s)
  | EmptyString => (EmptyString, EmptyString)
  end.

Fixpoint digits_value (ds : string) (acc : Z) : Z :=
  match ds with
  | EmptyString => acc
  | String c ds' => digits_value ds' (10 * acc + Z.of_N (ord c - 48))
  end.

(** [m * 10 ^ e], exactly *)
Definition decimal (m e : Z) : Q := (inject_Z m * (10 # 1) ^ e)%Q.

(** A leading minus sign, and the text after it. *)
Definition take_minus (s : string) : bool * string :=
  match eat "-" s with
  | Some s' => (true, s')
  | None => (false, s)
  end.

(** A single zero, or a digit string that does not start with zero. *)
Definition scan_unsigned (s : string) : option (string * string) :=
  match eat "0" s with
  | Some s' => Some ("0", s')
  | None =>
      match span_digits s with
      | (EmptyString, _) => None
      | (ds, rest) => Some (ds, rest)
      end
  end.

(** The integer part: an optional minus sign, then the digits. *)
Definition scan_int_part (s : string) : option (bool * string * string) :=
  let '(neg, s1) := take_minus s in
  match scan_unsigned s1 with
  | Some (ds, rest) => Some (neg, ds, rest)
  | None => None
  end.

(** The fraction [(\.[0-9]+)?] *)
Definition scan_frac (s : string) : string * string :=
  match eat "." s with
  | Some s' =>
      match span_digits s' with
      | (EmptyString, _) => (EmptyString, s)
      | (ds, rest) => (ds, rest)
      end
  | None => (EmptyString, s)
  end.

(** The exponent [([eE][-+]?[0-9]+)?] *)
Definition scan_exp (s : string) : option Z * string :=
  match (match eat "e" s with Some t => Some t | None => eat "E" s end) with
  | Some s' =>
      let '(neg, s1) :=
        match eat "-" s' with
        | Some t => (true, t)
        | None => (false, default s' (eat "+" s'))
        end in
      match span_digits s1 with
      | (EmptyString, _) => (None, s)
      | (ds, rest) =>
          let v := digits_value ds 0 in
          (Some (if neg then - v else v), rest)
      end
  | None => (None, s)
  end.

Definition signed (neg : bool) (z : Z) : Z := if neg then - z else z.

(** A number literal: an int when it has neither fraction nor exponent,
    else a float. *)
Definition scan_number (s : string) : option (json * string) :=
  match scan_int_part s with
  | None => None
  | Some (neg, ip, s1) =>
      let '(fp, s2) := scan_frac s1 in
      let '(ex, s3) := scan_exp s2 in
      match fp, ex with
      | EmptyString, None => Some (JInt (signed neg (digits_value ip 0)), s3)
      | _, _ =>
          let m := signed neg (digits_value (ip +:+ fp) 0) in
          let e := default 0 ex - Z.of_nat (String.length fp) in
          Some (JFloat (FFin (decimal m e)), s3)
      end
  end.

(** The constants: [null], [true], [false], and after the numbers [NaN],
    [Infinity] and [-Infinity]. *)
Definition scan_keyword (s : string) : option (json * string) :=
  if startswith s "null" then Some (JNull, drop 4 s)
  else if startswith s "true" then Some (JBool true, drop 4 s)
  else if startswith s "false" then Some (JBool false, drop 5 s)
  else None.

Definition scan_constant (s : string) : option (json * string) :=
  if startswith s "NaN" then Some (JFloat FNan, drop 3 s)
  else if startswith s "Infinity" then Some (JFloat (FInf false), drop 8 s)
  else if startswith s "-Infinity" then Some (JFloat (FInf true), drop 9 s)
  else None.

(** A value that is neither a string, an object nor an array. *)
Definition scan_scalar (s : string) : result (json * string) :=
  match scan_keyword s with
  | Some r => Ok r
  | None =>
      match scan_number s with
      | Some r => Ok r
      | None =>
          match scan_constant s with
          | Some r => Ok r
          | None => decode_error "Expecting value"
          end
      end
  end.

(** ** Values, objects and arrays.  A call on a text [s] is made with a
    fuel above twice the length of [s], which is never used up
    ([JsonFacts.loads_fuel]). *)
Fixpoint scan_once (fuel : nat) (s : string) : result (json * string) :=
  match fuel with
  | O => decode_error "Expecting value"
  | S fuel' =>
      match s with
      | EmptyString => decode_error "Expecting value"
      | String c s' =>
          if Ascii.eqb c dquote then
            '(str, rest) ← scanstring fuel' s' EmptyString;
            Ok (JStr str, rest)
          else if Ascii.eqb c "{" then
            match eat "}" (skip_ws s') with
            | Some rest => Ok (JDict [], rest)
            | None => object_members fuel' (skip_ws s') []
            end
          else if Ascii.eqb c "[" then
            match eat "]" (skip_ws s') with
            | Some rest => Ok (JList [], rest)
            | None => array_items fuel' (skip_ws s') []
            end
          else scan_scalar s
      end
  end

(** The members of an object, [s] standing at the quote of the next key *)
with object_members (fuel : nat) (s : string) (acc : list (string * json))
  : result (json * string) :=
  match fuel with
  | O => decode_error "Expecting property name enclosed in double quotes"
  | S fuel' =>
      match eat dquote s with
      | None => decode_error "Expecting property name enclosed in double quotes"
      | Some s' =>
          '(key, s1) ← scanstring fuel' s' EmptyString;
          match eat ":" (skip_ws s1) with
          | None => decode_error "Expecting ':' delimiter"
          | Some s2 =>
              '(v, s3) ← scan_once fuel' (skip_ws s2);
              let acc' := dict_set acc key v in
              match eat "}" (skip_ws s3) with
              | Some rest => Ok (JDict acc', rest)
              | None =>
                  match eat "," (skip_ws s3) with
                  | Some s4 => object_members fuel' (skip_ws s4) acc'
                  | None => decode_error "Expecting ',' delimiter"
                  end
              end
          end
      end
  end

(** The items of an array, [s] standing at the next item *)
with array_items (fuel : nat) (s : string) (acc : list json)
  : result (json * string) :=
  match fuel with
  | O => decode_error "Expecting value"
  | S fuel' =>
      '(v, s1) ← scan_once fuel' s;
      match eat "]" (skip_ws s1) with
      | Some rest => Ok (JList (acc ++ [v]), rest)
      | None =>
          match eat "," (skip_ws s1) with
          | Some s2 => array_items fuel' (skip_ws s2) (acc ++ [v])
          | None => decode_error "Expecting ',' delimiter"
          end
      end
  end.

(** The fuel that [loads] gives the decoder for a text. *)
Definition fuel_for (text : string) : nat := S (2 * String.length text).

(** [json.loads(text)] *)
Definition loads (text : string) : result json :=
  '(v, rest) ← scan_once (fuel_for text) (skip_ws text);
  match skip_ws rest with
  | EmptyString => Ok v
  | _ => decode_error "Extra data"
  end.

End Json.

(* ===================================================================== *)
(** * Python conversions between JSON values, text and numbers *)
(* ===================================================================== *)

Module Conv.
Import Py Json.

(** Decimal text of an integer, [str(n)]. *)
Definition str_of_Z (z : Z) : string :=
  DecimalString.NilZero.string_of_int (Z.to_int z).

(** The format [{n:03d}]: at least three digits, padded with zeros. *)
Definition format_03d (z : Z) : string :=
  if z <? 0 then str_of_Z z
  else let s := str_of_Z z in
       match String.length s with
       | 1%nat => "00" +:+ s
       | 2%nat => "0" +:+ s
       | _ => s
       end.

(** A digit string in which single underscores may separate digits:
    the digits, and the text after them. *)
Fixpoint span_udigits (s : string) : string * string :=
  match s with
  | String c s' =>
      if isdecimal c then
        match s' with
        | String "_" t =>
            match t with
            | String d _ =>
                if isdecimal d
                then let '(ds, rest) := span_udigits t in (String c ds, rest)
                else (String c EmptyString, s')
            | EmptyString => (String c EmptyString, s')
            end
        | _ => let '(ds, rest) := span_udigits s' in (String c ds, rest)
        end
      else (EmptyString, s)
  | EmptyString => (EmptyString, EmptyString)
  end.

Definition take_sign (s : string) : bool * string :=
  match eat "-" s with
  | Some s' => (true, s')
  | None => (false, default s (eat "+" s))
  end.

(** The exponent of a float text: [None] when the text after the mantissa
    is not an exponent that ends the text. *)
Definition float_exponent (s : string) : option Z :=
  match s with
  | EmptyString => Some 0
  | String c s' =>
      if Ascii.eqb c "e" || Ascii.eqb c "E" then
        let '(neg, s1) := take_sign s' in
        match span_udigits s1 with
        | (EmptyString, _) => None
        | (ds, EmptyString) => Some (signed neg (digits_value ds 0))
        | (_, String _ _) => None
        end
      else None
  end.

(** [float(text)]: [None] stands for the [ValueError] of a text that is
    not a number.  Surrounding whitespace is allowed. *)
Definition float_of_string (text : string) : option pyfloat :=
  let '(neg, s) := take_sign (strip text) in
  let word := lower s in
  if String.eqb word "inf" || String.eqb word "infinity" then Some (FInf neg)
  else if String.eqb word "nan" then Some FNan
  else
    let '(ip, s1) := span_udigits s in
    let '(fp, s2) :=
      match s1 with
      | String "." t => span_udigits t
      | _ => (EmptyString, s1)
      end in
    match ip +:+ fp with
    | EmptyString => None
    | ds =>
        match float_exponent s2 with
        | None => None
        | Some ex =>
            Some (FFin (decimal (signed neg (digits_value ds 0))
                                (ex - Z.of_nat (String.length fp))))
        end
    end.

(** [int(text)] in the same style, for a text of digits with a sign. *)
Definition int_of_string (text : string) : option Z :=
  let '(neg, s) := take_sign (strip text) in
  match span_udigits s with
  | (EmptyString, _) => None
  | (ds, EmptyString) => Some (signed neg (digits_value ds 0))
  | (_, String _ _) => None
  end.

(** ** [repr] and [str] *)

Definition hex_digit (n : N) : ascii :=
  if (n <? 10)%N then chr (48 + n) else chr (87 + n).

Definition printable (c : ascii) : bool :=
  between 32 126 c || (between 161 255 c && negb (ord c =? 173)%N).

Fixpoint repr_chars (quote : ascii) (s : string) : string :=
  match s with
  | EmptyString => EmptyString
  | String c s' =>
      (if Ascii.eqb c quote || Ascii.eqb c "\" then String "\" (String c EmptyString)
       else if (ord c =? 10)%N then "\n"
       else if (ord c =? 13)%N then "\r"
       else if (ord c =? 9)%N then "\t"
       else if printable c then String c EmptyString
       else String "\" (String "x" (String (hex_digit (ord c / 16))
              (String (hex_digit (ord c mod 16)) EmptyString))))
      +:+ repr_chars quote s'
  end.

Definition has_char (c : ascii) (s : string) : bool :=
  contains (String c EmptyString) s.

(** [repr(s)] of a string: single quotes, unless the text has a single
    quote and no double quote. *)
Definition repr_str (s : string) : string :=
  let quote := if has_char "'" s && negb (has_char dquote s)
               then dquote else "'"%char in
  String quote (repr_chars quote s) +:+ String quote EmptyString.

(** [repr] of a float.  CPython prints the shortest digits that read back
    as the same double, with the point at position [decpt]: in exponent form
    when [decpt] is above 16 or below -3, and otherwise with a point and at
    least one digit after it.  The digits here are those of the exact value,
    at most 17 of them, which are CPython's for a decimal of up to 15
    significant digits; zero has no sign. *)
Fixpoint frac_digits (fuel : nat) (num den : Z) : string :=
  match fuel with
  | O => EmptyString
  | S fuel' =>
      if num =? 0 then EmptyString
      else String (chr (48 + Z.to_N (10 * num / den)))
             (frac_digits fuel' ((10 * num) mod den) den)
  end.

(** The number of zeros between the point and the first digit that is not
    zero, for a value [num / den] below 1. *)
Fixpoint leading_zeros (fuel : nat) (num den : Z) : Z :=
  match fuel with
  | O => 0
  | S fuel' =>
      if den <=? 10 * num then 0
      else 1 + leading_zeros fuel' (10 * num) den
  end.

Fixpoint zeros (n : nat) : string :=
  match n with
  | O => EmptyString
  | S n' => String "0" (zeros n')
  end.

(** The exponent of the exponent form: a sign and at least two digits. *)
Definition repr_exponent (e : Z) : string :=
  let ds := str_of_Z (Z.abs e) in
  "e" +:+ (if e <? 0 then "-" else "+")
  +:+ (if (String.length ds <? 2)%nat then "0" +:+ ds else ds).

(** The text of the digits [ds] with the point after [decpt] of them. *)
Definition place_point (ds : string) (decpt : Z) : string :=
  if (decpt <=? -4) || (16 <? decpt) then
    match ds with
    | String c EmptyString => String c EmptyString +:+ repr_exponent (decpt - 1)
    | String c rest => String c ("." +:+ rest) +:+ repr_exponent (decpt - 1)
    | EmptyString => EmptyString
    end
  else if decpt <=? 0 then "0." +:+ zeros (Z.to_nat (- decpt)) +:+ ds
  else
    let n := Z.to_nat decpt in
    let l := String.length ds in
    if (l <=? n)%nat then ds +:+ zeros (n - l) +:+ ".0"
    else String.substring 0 n ds +:+ "." +:+ String.substring n (l - n) ds.

Definition repr_float (f : pyfloat) : string :=
  match f with
  | FNan => "nan"
  | FInf true => "-inf"
  | FInf false => "inf"
  | FFin q =>
      let n := Z.abs (Qnum q) in
      let d := Z.pos (Qden q) in
      if n =? 0 then "0.0"
      else
        let decpt :=
          if d <=? n then Z.of_nat (String.length (str_of_Z (n / d)))
          else - leading_zeros (S (Z.to_nat (Z.log2 d))) n d in
        let ds :=
          if 0 <=? decpt then frac_digits 17 n (d * 10 ^ decpt)
          else frac_digits 17 (n * 10 ^ (- decpt)) d in
        (if Qnum q <? 0 then "-" else "") +:+ place_point ds decpt
  end.

(** [repr(v)], which is also [str(v)] unless [v] is a string. *)
Fixpoint repr (v : json) : string :=
  match v with
  | JNull => "None"
  | JBool true => "True"
  | JBool false => "False"
  | JInt z => str_of_Z z
  | JFloat f => repr_float f
  | JStr s => repr_str s
  | JList l => "[" +:+ join ", " (List.map repr l) +:+ "]"
  | JDict d =>
      "{" +:+ join ", "
        (List.map (fun kv => repr_str (fst kv) +:+ ": " +:+ repr (snd kv)) d)
      +:+ "}"
  end.

Definition str (v : json) : string :=
  match v with
  | JStr s => s
  | _ => repr v
  end.

(** The name Python gives the type of a value in its error messages. *)
Definition type_name (v : json) : string :=
  match v with
  | JNull => "NoneType"
  | JBool _ => "bool"
  | JInt _ => "int"
  | JFloat _ => "float"
  | JStr _ => "str"
  | JList _ => "list"
  | JDict _ => "dict"
  end.

(** Truth value of a JSON value, as [if v:] tests it. *)
Definition truthy (v : json) : bool :=
  match v with
  | JNull => false
  | JBool b => b
  | JInt z => negb (z =? 0)
  | JFloat FNan => true
  | JFloat (FInf _) => true
  | JFloat (FFin q) => negb (Qeq_bool q 0)
  | JStr s => negb (String.eqb s "")
  | JList l => match l with [] => false | _ => true end
  | JDict d => match d with [] => false | _ => true end
  end.

(** [v.get(key, default)]; only a dict has the method. *)
Definition get (v : json) (key : string) (dflt : json) : result json :=
  match v with
  | JDict d => Ok (default dflt (dict_lookup d key))
  | _ => Raise (Exn AttributeError
                  ("'" +:+ type_name v +:+ "' object has no attribute 'get'"))
  end.

End Conv.

(* ===================================================================== *)
(** * models/responses.py: the pydantic models and their validation *)
(* ===================================================================== *)

Module Models.
Import Py Json Conv.

(** A [ValidationError]; of its text the model keeps the headline. *)
Definition validation_error {A} (model : string) : result A :=
  Raise (Exn ValidationError ("validation error for " +:+ model)).

(** Field validation in pydantic's default (lax) mode. *)

(** A text whose first point is followed by zeros only, without that point
    and those zeros: the lax mode takes a text such as 3.0 for an [int]. *)
Fixpoint only_zeros (s : string) : bool :=
  match s with
  | EmptyString => true
  | String c s' => Ascii.eqb c "0" && only_zeros s'
  end.

Fixpoint strip_decimal_zeros (s : string) : string :=
  match s with
  | EmptyString => EmptyString
  | String c rest =>
      if Ascii.eqb c "."
      then (if only_zeros rest then EmptyString else s)
      else String c (strip_decimal_zeros rest)
  end.

Definition validate_str (v : json) : option string :=
  match v with
  | JStr s => Some s
  | _ => None
  end.

Definition validate_list_str (v : json) : option (list string) :=
  match v with
  | JList l => mapM validate_str l
  | _ => None
  end.

Definition validate_float (v : json) : option pyfloat :=
  match v with
  | JFloat f => Some f
  | JInt z => Some (FFin (inject_Z z))
  | JBool b => Some (FFin (if b then 1 else 0))
  | JStr s => float_of_string s
  | _ => None
  end.

Definition validate_int (v : json) : option Z :=
  match v with
  | JInt z => Some z
  | JBool b => Some (if b then 1 else 0)
  | JFloat (FFin q) =>
      if Qnum q mod Z.pos (Qden q) =? 0
      then Some (Qnum q / Z.pos (Qden q)) else None
  | JStr s => int_of_string (strip_decimal_zeros (strip s))
  | _ => None
  end.

Definition validate_optional {A} (f : json -> option A) (v : json)
  : option (option A) :=
  match v with
  | JNull => Some None
  | _ => Some <$> f v
  end.

(** The constraint [ge=lo, le=hi] on a float field; an infinity or a value
    that is not a number does not meet it. *)
Definition validate_bounded (lo hi : Q) (v : json) : option Q :=
  match validate_float v with
  | Some (FFin q) => if Qle_bool lo q && Qle_bool q hi then Some q else None
  | _ => None
  end.

Module ExtractedRequirement.
Record t := Build {
  requirement_id : string;
  title : string;
  description : string;
  section : string;
  page_number : option Z;
  priority : option string;
  category : option string;
  related_requirements : list string
}.

(** The constructor call; every argument is the value passed for the
    field of that name. *)
Definition create (requirement_id title description section : json)
  (page_number : json) (priority : option string) (category : json)
  (related_requirements : json) : result t :=
  match validate_str requirement_id, validate_str title,
        validate_str description, validate_str section,
        validate_optional validate_int page_number,
        validate_optional validate_str category,
        validate_list_str related_requirements with
  | Some i, Some t, Some d, Some s, Some p, Some c, Some r =>
      Ok (Build i t d s p priority c r)
  | _, _, _, _, _, _, _ => validation_error "ExtractedRequirement"
  end.
End ExtractedRequirement.

Module RetrievedChunk.
Record t := Build {
  chunk_id : string;
  content : string;
  relevance_score : Q;
  source_document : string;
  section : option string;
  page_numbers : list Z
}.
End RetrievedChunk.

Module AnalysisResponse.
(** The field [timestamp] (the clock at construction) is left out. *)
Record t := Build {
  extracted_requirements : list ExtractedRequirement.t;
  reasoning : string;
  gaps_or_conflicts : list string;
  confidence : Q;
  uncertainties : list string;
  query : string;
  retrieved_chunks : list RetrievedChunk.t;
  processing_time_ms : Q
}.

(** The constructor call.  An argument that the call leaves out is
    [None]: the field takes its default, and [query], which has none, is
    then a validation error. *)
Definition create (extracted_requirements : list ExtractedRequirement.t)
  (reasoning : json) (gaps_or_conflicts confidence uncertainties : option json)
  (query : option string) : result t :=
  match validate_str reasoning,
        validate_list_str (default (JList []) gaps_or_conflicts),
        validate_bounded 0 100 (default (JFloat (FFin 0)) confidence),
        validate_list_str (default (JList []) uncertainties),
        query with
  | Some r, Some g, Some c, Some u, Some q =>
      Ok (Build extracted_requirements r g c u q [] 0)
  | _, _, _, _, _ => validation_error "AnalysisResponse"
  end.
End AnalysisResponse.

End Models.

(* ===================================================================== *)
(** * llm/output_parser.py: [StructuredOutputParser] *)
(* ===================================================================== *)

Module Parser.
Import Py Re Json Conv Models.

Definition quoted (s : string) : string :=
  String dquote s +:+ String dquote EmptyString.

(** The three patterns of [_extract_json]: a fenced block tagged json, any
    fenced block, and the span from a first opening brace to a last
    closing one. *)
Definition json_patterns : list regex :=
  [ Seqs [Lit "```json"; Star true ws; Group (Star false Any);
          Star true ws; Lit "```"];
    Seqs [Lit "```"; Star true ws; Group (Star false Any);
          Star true ws; Lit "```"];
    Seqs [Chr "{"; Star true Any; Chr "}"] ].

(** The four repairs of [_fix_and_parse_json], each a pattern and what
    replaces a match (given the text of group 1). *)
Definition fixes : list (regex * (string -> string)) :=
  [ (Seqs [Chr ","; Star true ws; Chr "}"], fun _ => "}");
    (Seqs [Chr ","; Star true ws; Chr "]"], fun _ => "]");
    (Chr "'", fun _ => String dquote EmptyString);
    (Seqs [Group (Plus true word); Chr ":"], fun g => quoted g +:+ ":") ].

Definition apply_fixes (json_str : string) : string :=
  fold_left (fun acc fix_ => sub (fst fix_) (snd fix_) acc) fixes json_str.

(** The dict returned when the repaired text does not parse either. *)
Definition minimal_structure (text : string) : json :=
  JDict [("extracted_requirements", JList []);
         ("reasoning", JStr text);
         ("confidence", JInt 30)].

(** [_fix_and_parse_json] *)
Definition _fix_and_parse_json (text : string) : result json :=
  let start := find text "{" in
  let end_ := rfind text "}" in
  if (start =? -1) || (end_ =? -1)
  then Raise (Exn ValueError "No JSON object found in text")
  else
    let json_str := apply_fixes (slice text start (end_ + 1)) in
    match loads json_str with
    | Ok v => Ok v
    | Raise e =>
        if is_JSONDecodeError e then Ok (minimal_structure text) else Raise e
    end.

(** The inner loop of [_extract_json] over the matches of one pattern:
    [Some] is the [return] (or an exception that is not a decode error),
    [None] is the loop running to its end. *)
Fixpoint try_matches (matches : list string) : option (result json) :=
  match matches with
  | [] => None
  | m :: rest =>
      let cleaned := strip m in
      if negb (startswith cleaned "{") then try_matches rest
      else match loads cleaned with
           | Ok v => Some (Ok v)
           | Raise e =>
               if is_JSONDecodeError e then try_matches rest
               else Some (Raise e)
           end
  end.

Fixpoint try_patterns (patterns : list regex) (text : string)
  : option (result json) :=
  match patterns with
  | [] => None
  | p :: rest =>
      match try_matches (findall p text) with
      | Some r => Some r
      | None => try_patterns rest text
      end
  end.

(** [_extract_json] *)
Definition _extract_json (text : string) : result json :=
  match loads text with
  | Ok v => Ok v
  | Raise e =>
      if is_JSONDecodeError e then
        match try_patterns json_patterns text with
        | Some r => r
        | None => _fix_and_parse_json text
        end
      else Raise e
  end.

(** [priority_map] *)
Definition priority_map : gmap string string :=
  list_to_map
    [("high", "high"); ("critical", "high"); ("mandatory", "high");
     ("medium", "medium"); ("moderate", "medium"); ("normal", "medium");
     ("low", "low"); ("optional", "low"); ("nice-to-have", "low")].

(** [_normalize_priority], on its declared argument type [str | None] *)
Definition _normalize_priority (priority : option string) : option string :=
  match priority with
  | None => None
  | Some EmptyString => None
  | Some p =>
      let priority_lower := strip (lower p) in
      Some (default priority_lower (priority_map !! priority_lower))
  end.

(** The same call on whatever value the model's JSON holds under
    ["priority"]: a falsy value gives [None], and a truthy value that is
    not a string has no method [lower]. *)
Definition normalize_priority_value (v : json) : result (option string) :=
  match v with
  | JStr s => Ok (_normalize_priority (Some s))
  | JNull => Ok (_normalize_priority None)
  | _ =>
      if truthy v
      then Raise (Exn AttributeError
                    ("'" +:+ type_name v +:+ "' object has no attribute 'lower'"))
      else Ok None
  end.

(** [v[:100]] on a JSON value: a prefix of a string or of a list; a dict
    and a scalar raise (the exception of a dict depends on the version of
    the interpreter, and is never a [ValidationError]). *)
Definition subscript_100 (v : json) : result json :=
  match v with
  | JStr s => Ok (JStr (slice_to s 100))
  | JList l => Ok (JList (list_slice_to l 100))
  | JDict _ => Raise (Exn TypeError "unhashable type: 'slice'")
  | _ => Raise (Exn TypeError
                  ("'" +:+ type_name v +:+ "' object is not subscriptable"))
  end.

Definition auto_id (idx : Z) : string := "REQ-" +:+ format_03d (idx + 1).

(** The body of the loop of [_parse_requirements] for one item. *)
Definition requirement_of (idx : Z) (req_data : json)
  : result ExtractedRequirement.t :=
  match req_data with
  | JStr s =>
      ExtractedRequirement.create (JStr (auto_id idx))
        (JStr (if 100 <? len s then slice_to s 100 else s))
        (JStr s) (JStr "Extracted from document") JNull None JNull (JList [])
  | JDict d =>
      requirement_id ← get req_data "requirement_id" (JStr (auto_id idx));
      title_default ←
        (get req_data "description" (JStr "Untitled Requirement")
           ≫= subscript_100);
      title ← get req_data "title" title_default;
      description ← get req_data "description" (JStr (str req_data));
      section ← get req_data "section" (JStr "Unknown");
      page_number ← get req_data "page_number" JNull;
      priority ← (get req_data "priority" JNull ≫= normalize_priority_value);
      category ← get req_data "category" JNull;
      related ← get req_data "related_requirements" (JList []);
      ExtractedRequirement.create requirement_id title description section
        page_number priority category related
  | _ =>
      ExtractedRequirement.create (JStr (auto_id idx))
        (JStr (slice_to (str req_data) 100))
        (JStr (str req_data)) (JStr "Extracted from document")
        JNull None JNull (JList [])
  end.

Fixpoint chars (s : string) : list json :=
  match s with
  | EmptyString => []
  | String c s' => JStr (String c EmptyString) :: chars s'
  end.

(** What [enumerate] iterates over: the items of a list, the characters of
    a string, the keys of a dict. *)
Definition iterate (v : json) : result (list json) :=
  match v with
  | JList l => Ok l
  | JStr s => Ok (chars s)
  | JDict d => Ok (List.map (fun kv => JStr (fst kv)) d)
  | _ => Raise (Exn TypeError
                  ("'" +:+ type_name v +:+ "' object is not iterable"))
  end.

Fixpoint requirements_loop (idx : Z) (items : list json)
  (requirements : list ExtractedRequirement.t)
  : result (list ExtractedRequirement.t) :=
  match items with
  | [] => Ok requirements
  | req_data :: rest =>
      match requirement_of idx req_data with
      | Ok r => requirements_loop (idx + 1) rest (requirements ++ [r])
      | Raise e =>
          if is_ValidationError e
          then requirements_loop (idx + 1) rest requirements
          else Raise e
      end
  end.

(** [_parse_requirements] *)
Definition _parse_requirements (requirements_data : json)
  : result (list ExtractedRequirement.t) :=
  items ← iterate requirements_data;
  requirements_loop 0 items [].

(** The [try] block of [parse]. *)
Definition parse_body (llm_output query : string) : result AnalysisResponse.t :=
  json_data ← _extract_json llm_output;
  requirements_data ← get json_data "extracted_requirements" (JList []);
  requirements ← _parse_requirements requirements_data;
  reasoning ← get json_data "reasoning" (JStr "");
  gaps ← get json_data "gaps_or_conflicts" (JList []);
  confidence ← get json_data "confidence" (JInt 50);
  uncertainties ← get json_data "uncertainties" (JList []);
  AnalysisResponse.create requirements reasoning (Some gaps) (Some confidence)
    (Some uncertainties) (Some query).

(** The text built in the [except] block. *)
Definition failure_reasoning (e : exn) (llm_output : string) : string :=
  "Failed to parse response: " +:+ exn_msg e +:+ ". Raw output: "
    +:+ slice_to llm_output 500.

(** [parse]: [except Exception] takes every exception of the body. *)
Definition parse (llm_output query : string) : result AnalysisResponse.t :=
  match parse_body llm_output query with
  | Ok response => Ok response
  | Raise e =>
      AnalysisResponse.create [] (JStr (failure_reasoning e llm_output))
        None (Some (JInt 0)) None (Some query)
  end.

(** ** Names used in the statements about [parse] *)

(** [json.loads(text)] raises its decode error. *)
Definition decode_fails (text : string) : bool :=
  match loads text with
  | Raise e => is_JSONDecodeError e
  | Ok _ => false
  end.

(** The response of the [except] block of [parse]. *)
Definition fallback (e : exn) (llm_output query : string) : AnalysisResponse.t :=
  AnalysisResponse.Build [] (failure_reasoning e llm_output) [] 0 [] query [] 0.

(** A text that does not begin with whitespace. *)
Definition no_leading_space (s : string) : Prop :=
  match s with
  | EmptyString => True
  | String c _ => isspace c = false
  end.

(** A reply in prose, as in the test of malformed output. *)
Definition prose : string := "This is not valid JSON at all".

End Parser.

(* ===================================================================== *)
(** * vectorstore/chroma_store.py and retrieval/ *)
(* ===================================================================== *)

Module Retrieval.
Import Py Re Json Conv Models.

(** A LangChain [Document].  Chroma keeps metadata values as scalars, and
    the keys read below hold text ([_prepare_metadata] joins lists with
    commas). *)
Record Document := Build_Document {
  page_content : string;
  metadata : gmap string string
}.

Definition scored : Type := Document * Q.

Definition chunk_id_of (doc : Document) : option string :=
  metadata doc !! "chunk_id".

Definition prefilter : Type := option (gmap string string).

Section Store.

(** The index behind the store:
    [_vectorstore.similarity_search_with_score(query, k, filter)], which
    answers with documents and distances, or raises. *)
Variable similarity_search_with_score :
  string -> Z -> prefilter -> result (list scored).

(** The loop that turns each distance into a similarity. *)
Fixpoint normalize (results : list scored) : result (list scored) :=
  match results with
  | [] => Ok []
  | (doc, distance) :: rest =>
      if Qeq_bool (1 + distance)%Q 0%Q
      then Raise (Exn ZeroDivisionError "float division by zero")
      else
        normalized ← normalize rest;
        Ok ((doc, 1 / (1 + distance))%Q :: normalized)
  end.

Definition above (score_threshold : Q) (ds : scored) : bool :=
  Qle_bool score_threshold (snd ds).

(** [ChromaVectorStore.similarity_search] *)
Definition similarity_search (query : string) (k : Z) (filter_dict : prefilter)
  (score_threshold : option Q) : result (list scored) :=
  results ← similarity_search_with_score query k filter_dict;
  normalized_results ← normalize results;
  Ok (match score_threshold with
      | Some t => List.filter (above t) normalized_results
      | None => normalized_results
      end).

(** [ChromaVectorStore.search_by_project] *)
Definition search_by_project (query project_name : string) (k : Z)
  : result (list scored) :=
  similarity_search query k (Some {[ "project_name" := project_name ]}) None.

(** ** retrieval/pipeline.py: stages 1 and 2 *)

Variable _top_k : Z.
Variable _similarity_threshold : Q.

(** [RetrievalPipeline._initial_retrieval]; [if project_name:] holds for a
    name that is given and not empty. *)
Definition _initial_retrieval (query : string) (project_name : option string)
  (k : Z) : result (list scored) :=
  match project_name with
  | Some (String c n) => search_by_project query (String c n) k
  | _ => similarity_search query k None (Some _similarity_threshold)
  end.

Definition meta_get (doc : Document) (key dflt : string) : string :=
  default dflt (metadata doc !! key).

(** The test of the loop of [_apply_filters]. *)
Definition section_matches (section_lower : string) (ds : scored) : bool :=
  let section_title := lower (meta_get (fst ds) "section_title" "") in
  let section_hierarchy := lower (meta_get (fst ds) "section_hierarchy" "") in
  contains section_lower section_title
  || contains section_lower section_hierarchy.

(** [RetrievalPipeline._apply_filters] *)
Definition _apply_filters (documents : list scored)
  (section_filter : option string) : list scored :=
  match section_filter with
  | None | Some EmptyString => documents
  | Some f =>
      match List.filter (section_matches (lower f)) documents with
      | [] => documents
      | filtered => filtered
      end
  end.

(** ** retrieval/reranker.py: [ReRanker] *)

(** The chat model: [self._llm.invoke(prompt).content], or an exception. *)
Variable llm_invoke : string -> result string.

Definition nl : string := String (chr 10) EmptyString.

(** [RERANK_PROMPT.format(query=..., document=...)] *)
Definition RERANK_PROMPT (query document : string) : string :=
  join nl
    [ "You are a document relevance scorer. Given a query and a document, ";
      "score how relevant the document is to the query on a scale of 0-100.";
      "";
      "Query: " +:+ query;
      "";
      "Document:";
      document;
      "";
      "Respond with ONLY a number between 0 and 100, where:";
      "- 0-20: Not relevant";
      "- 21-40: Slightly relevant";
      "- 41-60: Moderately relevant";
      "- 61-80: Highly relevant";
      "- 81-100: Extremely relevant";
      "";
      "Score:" ].

Definition Qlt_bool (a b : Q) : bool := negb (Qle_bool b a).

(** [min(100, max(0, score))].  [max(0, s)] is [s] only when [s > 0] and
    [min(100, m)] is [m] only when [m < 100], so that not-a-number gives 0. *)
Definition clamp_score (score : pyfloat) : Q :=
  match score with
  | FNan => 0%Q
  | FInf true => 0%Q
  | FInf false => 100%Q
  | FFin s =>
      let m := if Qlt_bool 0 s then s else 0%Q in
      if Qlt_bool m 100 then m else 100%Q
  end.

(** [float(text)] as a call that may raise. *)
Definition float_ (text : string) : result pyfloat :=
  match float_of_string text with
  | Some f => Ok f
  | None =>
      Raise (Exn ValueError
               ("could not convert string to float: " +:+ repr_str text))
  end.

(** [ReRanker._score_document]: [except (ValueError, TypeError)] gives the
    middle score, any other exception goes on to the caller. *)
Definition _score_document (query : string) (document : Document) : result Q :=
  let body :=
    content ← llm_invoke
      (RERANK_PROMPT query (slice_to (page_content document) 2000));
    score ← float_ (strip content);
    Ok (clamp_score score) in
  match body with
  | Ok s => Ok s
  | Raise e => if is_ValueError e || is_TypeError e then Ok 50%Q else Raise e
  end.

(** The first loop of [rerank]. *)
Fixpoint combine_scores (query : string) (documents : list scored)
  : result (list scored) :=
  match documents with
  | [] => Ok []
  | (doc, initial_score) :: rest =>
      new_score ← _score_document query doc;
      reranked ← combine_scores query rest;
      Ok ((doc, initial_score * 0.3 + new_score / 100 * 0.7)%Q :: reranked)
  end.

(** [list.sort(key=lambda x: x[1], reverse=True)]: descending by score,
    equal scores staying in their order. *)
Fixpoint insert_desc (x : scored) (l : list scored) : list scored :=
  match l with
  | [] => [x]
  | y :: l' =>
      if Qlt_bool (snd x) (snd y) then y :: insert_desc x l' else x :: l
  end.

Definition sort_desc (l : list scored) : list scored :=
  foldr insert_desc [] l.

(** [if top_k: reranked = reranked[:top_k]] *)
Definition truncate (top_k : option Z) (reranked : list scored) : list scored :=
  match top_k with
  | None => reranked
  | Some k => if k =? 0 then reranked else list_slice_to reranked k
  end.

(** [ReRanker.rerank] *)
Definition rerank (query : string) (documents : list scored)
  (top_k : option Z) : result (list scored) :=
  match documents with
  | [] => Ok []
  | _ =>
      reranked ← combine_scores query documents;
      Ok (truncate top_k (sort_desc reranked))
  end.

(** ** retrieval/context_enricher.py: [ContextEnricher] *)

(** [[\d\w\.]+] *)
Definition ref_token : regex :=
  Plus true (Cls (fun c => isdecimal c || isword c || Ascii.eqb c ".")).

(** [CROSS_REF_PATTERNS] *)
Definition CROSS_REF_PATTERNS : list regex :=
  [ Seqs [Alts [Lit "see"; Lit "refer to"; Lit "as described in"; Lit "per"];
          Plus true ws; Alts [Lit "section"; Lit "appendix"; Lit "article"];
          Plus true ws; Group ref_token];
    Seqs [Alts [Lit "section"; Lit "appendix"; Lit "article"];
          Plus true ws; Group ref_token; Plus true ws;
          Alts [Lit "describes"; Lit "specifies"; Lit "defines"; Lit "contains"]];
    Seqs [Lit "in accordance with"; Plus true ws;
          Opt (Alts [Lit "section"; Lit "appendix"]); Star true ws;
          Group ref_token] ].

(** The order in which [list(set(...))] lists a set of strings: it depends
    on the hashes of the run. *)
Variable list_of_set : gset string -> list string.

(** [ContextEnricher._extract_references] *)
Definition _extract_references (documents : list scored) : list string :=
  let from_text :=
    concat (List.map (fun ds : scored =>
      let content := lower (page_content (fst ds)) in
      concat (List.map (fun pattern => findall pattern content)
                CROSS_REF_PATTERNS)) documents) in
  let from_metadata :=
    concat (List.map (fun ds : scored =>
      match meta_get (fst ds) "references_sections" "" with
      | EmptyString => []
      | refs => split refs ","
      end) documents) in
  let references := from_text ++ from_metadata in
  list_of_set
    (list_to_set
       (List.map strip
          (List.filter (fun ref => negb (String.eqb (strip ref) ""))
             references))).

Definition ids_of (docs : list scored) : gset (option string) :=
  list_to_set (List.map (fun ds : scored => chunk_id_of (fst ds)) docs).

Definition not_excluded (exclude_ids : gset (option string)) (ds : scored)
  : bool :=
  bool_decide (chunk_id_of (fst ds) ∉ exclude_ids).

(** [ContextEnricher._find_related_section]: [except Exception] gives the
    empty list. *)
Definition _find_related_section (section_ref : string)
  (exclude_ids : gset (option string)) : list scored :=
  match similarity_search ("section " +:+ section_ref) 2 None None with
  | Ok results => List.filter (not_excluded exclude_ids) results
  | Raise _ => []
  end.

(** The lookup loop of [enrich]: the chunks found for each reference in
    turn, [existing_ids] growing by the ids of what was found. *)
Fixpoint related_groups (refs : list string) (existing_ids : gset (option string))
  : list (list scored) :=
  match refs with
  | [] => []
  | section_ref :: rest =>
      let related := _find_related_section section_ref existing_ids in
      related :: related_groups rest (existing_ids ∪ ids_of related)
  end.

Definition adjust (ds : scored) : scored := (fst ds, (snd ds * 0.8)%Q).

(** [ContextEnricher.enrich] *)
Definition enrich (documents : list scored) (query : string)
  (max_additional : Z) : list scored :=
  match documents with
  | [] => []
  | _ =>
      let referenced_sections := _extract_references documents in
      let additional_docs :=
        concat (related_groups (list_slice_to referenced_sections max_additional)
                  (ids_of documents)) in
      documents ++ List.map adjust additional_docs
  end.

(** ** retrieval/pipeline.py: the whole pipeline.  The re-ranker is one of
    two strategies with the same [rerank] method. *)
Variable reranker : string -> list scored -> option Z -> result (list scored).

(** The page numbers of [_to_retrieved_chunks]: the comma-separated
    integers of the field, or none when one of them is not an integer. *)
Definition page_numbers_of (page_numbers_str : string) : list Z :=
  match page_numbers_str with
  | EmptyString => []
  | _ =>
      default []
        (mapM int_of_string
           (List.filter (fun p => negb (String.eqb p ""))
              (split page_numbers_str ",")))
  end.

(** [RetrievalPipeline._to_retrieved_chunks]; [relevance_score] must not
    be negative. *)
Fixpoint _to_retrieved_chunks (documents : list scored)
  : result (list RetrievedChunk.t) :=
  match documents with
  | [] => Ok []
  | (doc, score) :: rest =>
      if Qle_bool 0%Q score then
        chunks ← _to_retrieved_chunks rest;
        Ok (RetrievedChunk.Build (meta_get doc "chunk_id" "") (page_content doc)
              score (meta_get doc "source_file" "")
              (metadata doc !! "section_title")
              (page_numbers_of (meta_get doc "page_numbers" ""))
            :: chunks)
      else validation_error "RetrievedChunk"
  end.

(** Stage 1 as [retrieve] calls it; the section filter is not an argument
    of this stage. *)
Definition initial_results (query : string) (project_name : option string)
  : result (list scored) :=
  _initial_retrieval query project_name (_top_k * 2).

(** [RetrievalPipeline.retrieve] *)
Definition retrieve (query : string) (project_name section_filter : option string)
  (include_enrichment : bool) : result (list RetrievedChunk.t) :=
  initial ← initial_results query project_name;
  match initial with
  | [] => Ok []
  | _ =>
      let filtered_results := _apply_filters initial section_filter in
      reranked_results ← reranker query filtered_results (Some _top_k);
      let enriched_results :=
        if include_enrichment then enrich reranked_results query 3
        else reranked_results in
      _to_retrieved_chunks enriched_results
  end.

(** ** Names used in the statements about retrieval *)

(** The store answers a search for [k] results with at most [k]. *)
Definition respects_k : Prop :=
  forall query k f results,
    similarity_search_with_score query k f = Ok results ->
    Z.of_nat (length results) <= Z.max 0 k.

(** The chunks of a group come from the search for one reference and have
    none of the ids in [seen]. *)
Definition found_outside (seen : gset (option string)) (group : list scored)
  : Prop :=
  Forall (fun ds : scored =>
            (chunk_id_of (fst ds) ∉ seen)
            /\ exists ref raw,
                 similarity_search ("section " +:+ ref) 2 None None = Ok raw
                 /\ In ds raw) group.

(** Two groups share no chunk id. *)
Definition disjoint_ids (g1 g2 : list scored) : Prop :=
  forall a b, In a g1 -> In b g2 -> chunk_id_of (fst a) <> chunk_id_of (fst b).

(** The similarity of a candidate at a given distance. *)
Definition similarity (ds : scored) : scored := (fst ds, (1 / (1 + snd ds))%Q).

(** The metadata filter of stage 1 for a project name, and whether a name
    is given and not empty. *)
Definition project_prefilter (project_name : option string) : prefilter :=
  match project_name with
  | Some (String c n) => Some {[ "project_name" := String c n ]}
  | _ => None
  end.

Definition named (project_name : option string) : bool :=
  match project_name with
  | Some (String _ _) => true
  | _ => false
  end.

(** A case-insensitive substring. *)
Definition icontains (needle hay : string) : Prop :=
  exists pre post, lower hay = pre +:+ lower needle +:+ post.

(** A candidate matches a section filter when its section title or its
    hierarchy path contains the filter. *)
Definition matches_filter (section_filter : string) (ds : scored) : Prop :=
  icontains section_filter (meta_get (fst ds) "section_title" "")
  \/ icontains section_filter (meta_get (fst ds) "section_hierarchy" "").

(** The model score for a reply, as the code has it: a reply that is no
    number, or a [ValueError] or [TypeError] of the call, gives 50; a number
    is brought into the range 0 to 100. *)
Definition reply_score (reply : result string) (model_score : Q) : Prop :=
  match reply with
  | Raise e => is_ValueError e || is_TypeError e = true /\ model_score = 50%Q
  | Ok content =>
      match float_of_string (strip content) with
      | None => model_score = 50%Q
      | Some FNan => model_score = 0%Q
      | Some (FInf negative) => model_score = if negative then 0%Q else 100%Q
      | Some (FFin v) =>
          ((v <= 0)%Q -> model_score = 0%Q)
          /\ ((100 <= v)%Q -> model_score = 100%Q)
          /\ ((0 < v < 100)%Q -> model_score = v)
      end
  end.

(** The final score of a re-ranked candidate. *)
Definition rescored (query : string) (documents : list scored) (ds : scored)
  : Prop :=
  exists initial_score model_score,
    In (fst ds, initial_score) documents
    /\ _score_document query (fst ds) = Ok model_score
    /\ reply_score
         (llm_invoke (RERANK_PROMPT query (slice_to (page_content (fst ds)) 2000)))
         model_score
    /\ snd ds = (initial_score * 0.3 + model_score / 100 * 0.7)%Q.

End Store.

(** ** A store and a chat model for the examples *)

Definition chunk (id text : string) : Document :=
  Build_Document text {[ "chunk_id" := id ]}.

(** Two chunks for the query about section 2, a far chunk for the
    security query, and no answer otherwise. *)
Definition example_store (query : string) (k : Z) (f : prefilter)
  : result (list scored) :=
  if String.eqb query "section 2"
  then Ok (firstn (Z.to_nat k)
             [(chunk "b" "encryption at rest", 1%Q);
              (chunk "c" "key rotation", 3%Q)])
  else if String.eqb query "security requirements"
  then Ok (firstn (Z.to_nat k)
             [(chunk "a" "all data is protected, see section 2", 9%Q)])
  else Raise (Exn OtherError "index unavailable").

Definition example_documents : list scored :=
  [(chunk "a" "all data is protected, see section 2", 0.9%Q)].

(** A chat model that answers every prompt alike. *)
Definition constant_llm (reply : string) (prompt : string) : result string :=
  Ok reply.

End Retrieval.

(* ===================================================================== *)
(** * graph/state.py, graph/nodes.py, graph/workflow.py *)
(* ===================================================================== *)

Module Workflow.
Import Py Json Conv Models.

(** models/requests.py *)
Inductive QueryType :=
| REQUIREMENT_EXTRACTION | GAP_ANALYSIS | COMPLIANCE_CHECK
| CONFLICT_DETECTION | AMBIGUITY_ANALYSIS | GENERAL.

#[global] Instance QueryType_eq_dec : EqDecision QueryType.
Proof. solve_decision. Defined.

Module AnalysisRequest.
Record t := Build {
  query : string;
  project_name : option string;
  query_type : QueryType;
  target_section : option string;
  context : option (list (string * json));
  additional_context : list (string * json);
  include_reasoning : bool;
  max_results : Z
}.

(** [AnalysisRequest(query=..., query_type=..., project_name=...)]: the
    query must have between 5 and 2000 characters. *)
Definition create (query : string) (query_type : QueryType)
  (project_name : option string) : result t :=
  if (5 <=? len query) && (len query <=? 2000)
  then Ok (Build query project_name query_type None None [] true 10)
  else validation_error "AnalysisRequest".
End AnalysisRequest.

(** graph/state.py: [GraphState] *)
Record GraphState := Build_GraphState {
  request : option AnalysisRequest.t;
  query : string;
  query_type : QueryType;
  project_filter : option string;
  retrieved_chunks : list RetrievedChunk.t;
  context : string;
  analysis_response : option AnalysisResponse.t;
  error : option string;
  current_step : string
}.

(** Truth value of an optional string: given and not empty. *)
Definition nonempty (s : option string) : bool :=
  match s with
  | Some (String _ _) => true
  | _ => false
  end.

(** An optional value inside an f-string. *)
Definition format_option (s : option string) : string :=
  default "None" s.

Definition nl : string := String (chr 10) EmptyString.

Section Nodes.

(** The collaborators handed to [GraphNodes]: the analyzer's
    [detect_query_type] and [analyze], and the pipeline's [retrieve]. *)
Variable detect_query_type : string -> result QueryType.
Variable retrieve :
  string -> option string -> option string -> bool ->
  result (list RetrievedChunk.t).
Variable analyze :
  AnalysisRequest.t -> list RetrievedChunk.t -> result AnalysisResponse.t.

(** The update a node returns after an exception:
    [{"error": str(e), "current_step": "error"}]. *)
Definition failed (state : GraphState) (e : exn) : GraphState :=
  Build_GraphState (request state) (query state) (query_type state)
    (project_filter state) (retrieved_chunks state) (context state)
    (analysis_response state) (Some (exn_msg e)) "error".

(** A node body under [try: ... except Exception]. *)
Definition guarded (state : GraphState) (body : result GraphState)
  : GraphState :=
  match body with
  | Ok state' => state'
  | Raise e => failed state e
  end.

(** [GraphNodes.process_query] *)
Definition process_query (state : GraphState) : GraphState :=
  guarded state (
    detected_type ←
      match request state with
      | Some r =>
          if decide (AnalysisRequest.query_type r = GENERAL)
          then detect_query_type (query state)
          else Ok (AnalysisRequest.query_type r)
      | None => Ok GENERAL
      end;
    let project_filter' :=
      if nonempty (project_filter state) then project_filter state
      else match request state with
           | Some r => AnalysisRequest.project_name r
           | None => project_filter state
           end in
    Ok (Build_GraphState (request state) (query state) detected_type
          project_filter' (retrieved_chunks state) (context state)
          (analysis_response state) (error state) "query_processed")).

(** [GraphNodes._build_context] *)
Fixpoint context_parts (i : Z) (chunks : list RetrievedChunk.t) : list string :=
  match chunks with
  | [] => []
  | chunk :: rest =>
      let section :=
        match RetrievedChunk.section chunk with
        | Some (String c s) => "[" +:+ String c s +:+ "]"
        | _ => ""
        end in
      ("--- Chunk " +:+ str_of_Z i +:+ " " +:+ section +:+ " ---" +:+ nl
         +:+ RetrievedChunk.content chunk +:+ nl)
      :: context_parts (i + 1) rest
  end.

Definition _build_context (chunks : list RetrievedChunk.t) : string :=
  join nl (context_parts 1 chunks).

(** [GraphNodes.retrieve_documents] *)
Definition retrieve_documents (state : GraphState) : GraphState :=
  guarded state (
    let section_filter :=
      match request state with
      | Some r =>
          if nonempty (AnalysisRequest.target_section r)
          then AnalysisRequest.target_section r else None
      | None => None
      end in
    chunks ← retrieve (query state) (project_filter state) section_filter true;
    Ok (Build_GraphState (request state) (query state) (query_type state)
          (project_filter state) chunks (_build_context chunks)
          (analysis_response state) (error state) "documents_retrieved")).

(** [GraphNodes.analyze_content] *)
Definition analyze_content (state : GraphState) : GraphState :=
  guarded state (
    request' ←
      match request state with
      | None =>
          AnalysisRequest.create (query state) (query_type state)
            (project_filter state)
      | Some r => Ok r
      end;
    response ← analyze request' (retrieved_chunks state);
    Ok (Build_GraphState (request state) (query state) (query_type state)
          (project_filter state) (retrieved_chunks state) (context state)
          (Some response) (error state) "analysis_complete")).

Definition error_note : string :=
  "Analysis could not be completed due to an error".

Definition error_reasoning (state : GraphState) : string :=
  "An error occurred during analysis: " +:+ format_option (error state).

(** [GraphNodes.handle_error]: the node has no [try]; were the response
    not valid, the exception would leave the graph. *)
Definition handle_error (state : GraphState) : result GraphState :=
  error_response ←
    AnalysisResponse.create [] (JStr (error_reasoning state)) None
      (Some (JInt 0)) (Some (JList [JStr error_note]))
      (Some (match query state with
             | EmptyString => "Unknown query"
             | q => q
             end));
  Ok (Build_GraphState (request state) (query state) (query_type state)
        (project_filter state) (retrieved_chunks state) (context state)
        (Some error_response) (error state) "error_handled").

(** ** graph/workflow.py: the compiled graph *)

Inductive node :=
| n_process_query | n_retrieve_documents | n_analyze_content | n_handle_error.

#[global] Instance node_eq_dec : EqDecision node.
Proof. solve_decision. Defined.

(** [_route_after_query], [_route_after_retrieval], [_route_after_analysis]
    with the edge maps of [_build_graph]: the node that follows, [None]
    for [END].  [if state.error:] holds for a message that is not empty. *)
Definition _route_after_query (state : GraphState) : option node :=
  if nonempty (error state) then Some n_handle_error
  else Some n_retrieve_documents.

Definition _route_after_retrieval (state : GraphState) : option node :=
  if nonempty (error state) then Some n_handle_error
  else match retrieved_chunks state with
       | [] => Some n_analyze_content
       | _ => Some n_analyze_content
       end.

Definition _route_after_analysis (state : GraphState) : option node :=
  if nonempty (error state) then Some n_handle_error else None.

(** One node of the graph: the state after it and the node that follows. *)
Definition step (n : node) (state : GraphState)
  : result (GraphState * option node) :=
  match n with
  | n_process_query =>
      let s := process_query state in Ok (s, _route_after_query s)
  | n_retrieve_documents =>
      let s := retrieve_documents state in Ok (s, _route_after_retrieval s)
  | n_analyze_content =>
      let s := analyze_content state in Ok (s, _route_after_analysis s)
  | n_handle_error =>
      s ← handle_error state; Ok (s, None)
  end.

(** The graph run from node [n]: the nodes visited and the final state;
    [None] when the fuel does not reach [END]. *)
Fixpoint run_from (fuel : nat) (n : node) (state : GraphState)
  : option (result (list node * GraphState)) :=
  match fuel with
  | O => None
  | S fuel' =>
      match step n state with
      | Raise e => Some (Raise e)
      | Ok (s, None) => Some (Ok ([n], s))
      | Ok (s, Some n') =>
          match run_from fuel' n' s with
          | Some (Ok (trace, final)) => Some (Ok (n :: trace, final))
          | other => other
          end
      end
  end.

(** [self._graph.invoke(initial_state)], the entry point being
    [process_query]; no path of the graph has more than four nodes. *)
Definition invoke (state : GraphState) : option (result (list node * GraphState)) :=
  run_from 4 n_process_query state.

Definition initial_state (request : AnalysisRequest.t) : GraphState :=
  Build_GraphState (Some request) (AnalysisRequest.query request)
    (AnalysisRequest.query_type request) (AnalysisRequest.project_name request)
    [] "" None None "start".

(** The end of [run]: the response of the final state, or else the
    construction of a response without its required [query]. *)
Definition response_of (final : GraphState) : result AnalysisResponse.t :=
  match analysis_response final with
  | Some response => Ok response
  | None =>
      AnalysisResponse.create [] (JStr "No response generated") None
        (Some (JInt 0)) None None
  end.

(** [RFPAnalysisGraph.run] *)
Definition run (request : AnalysisRequest.t)
  : option (result AnalysisResponse.t) :=
  match invoke (initial_state request) with
  | None => None
  | Some (Raise e) => Some (Raise e)
  | Some (Ok (_, final)) => Some (response_of final)
  end.

(** ** Names used in the statements about the workflow *)

(** An exception raised by one of the three steps. *)
Definition raised_by_a_step (e : exn) : Prop :=
  (exists query, detect_query_type query = Raise e)
  \/ (exists query project_name section_filter,
        retrieve query project_name section_filter true = Raise e)
  \/ (exists request chunks, analyze request chunks = Raise e).

(** The response that the error state leaves for an exception. *)
Definition error_response_for (e : exn) (response : AnalysisResponse.t) : Prop :=
  AnalysisResponse.reasoning response
  = "An error occurred during analysis: " +:+ exn_msg e
  /\ AnalysisResponse.confidence response = 0%Q
  /\ AnalysisResponse.uncertainties response = [error_note].

(** What holds of every state of a run: the request is there, and an
    error message is the message of an exception raised by a step. *)
Definition run_state (state : GraphState) : Prop :=
  is_Some (request state)
  /\ (error state = None
      \/ exists e, raised_by_a_step e /\ error state = Some (exn_msg e)).

(** A run that passed through the error state ends with its response. *)
Definition ends_in_error_response (trace : list node) (final : GraphState)
  : Prop :=
  In n_handle_error trace ->
  exists e response,
    raised_by_a_step e
    /\ error final = Some (exn_msg e)
    /\ response_of final = Ok response
    /\ error_response_for e response.

End Nodes.

(** ** A request and collaborators for the examples: the index is down *)

Definition example_request : AnalysisRequest.t :=
  AnalysisRequest.Build "What are the security requirements?" None
    REQUIREMENT_EXTRACTION None None [] true 10.

Definition failing_retrieve (query : string)
  (project_name section_filter : option string) (include_enrichment : bool)
  : result (list RetrievedChunk.t) :=
  Raise (Exn OtherError "index unavailable").

Definition idle_detect (query : string) : result QueryType := Ok GENERAL.

Definition idle_analyze (request : AnalysisRequest.t)
  (chunks : list RetrievedChunk.t) : result AnalysisResponse.t :=
  Raise (Exn OtherError "not reached").

End Workflow.

(* ===================================================================== *)
(** * Predicates on text used in the statements *)
(* ===================================================================== *)

Module Text.
Import Py.

(** Every character of the text passes the test. *)
Fixpoint all_chars (p : ascii -> bool) (s : string) : bool :=
  match s with
  | EmptyString => true
  | String c s' => p c && all_chars p s'
  end.

(** A character that is no whitespace. *)
Definition not_space (c : ascii) : bool := negb (isspace c).

(** A character that is no whitespace, or is the plain space. *)
Definition plain_space (c : ascii) : bool :=
  negb (isspace c) || Ascii.eqb c " ".

(** [s.count(c)] for one character. *)
Fixpoint count_char (c : ascii) (s : string) : nat :=
  match s with
  | EmptyString => O
  | String d s' => (if Ascii.eqb c d then 1 else 0) + count_char c s'
  end.

End Text.

(* ===================================================================== *)
(** * retrieval/reranker.py: [batch_rerank] and [SimpleReRanker] *)
(* ===================================================================== *)

Module Rerankers.
Import Py Json Conv Retrieval.

(** [l[lo:hi]] on a list *)
Definition list_slice {A} (l : list A) (lo hi : Z) : list A :=
  let n := Z.of_nat (length l) in
  let a := slice_index n lo in
  let b := slice_index n hi in
  firstn (Z.to_nat (b - a)) (skipn (Z.to_nat a) l).

(** The numbers [i, i + step, ...] below [stop], for a positive step. *)
Fixpoint range_from (fuel : nat) (i stop step : Z) : list Z :=
  match fuel with
  | O => []
  | S fuel' =>
      if i <? stop then i :: range_from fuel' (i + step) stop step else []
  end.

(** [range(0, stop, step)] for a stop that is not negative, as a length
    is: a step of zero is an error, and a negative step gives no number. *)
Definition range (stop step : Z) : result (list Z) :=
  if step =? 0 then Raise (Exn ValueError "range() arg 3 must not be zero")
  else if step <? 0 then Ok []
  else Ok (range_from (Z.to_nat stop) 0 stop step).

Section ReRanker.

Variable llm_invoke : string -> result string.

(** The loop of [batch_rerank] over the starts of the batches. *)
Fixpoint batches_loop (query : string) (documents : list scored)
  (batch_size : Z) (starts : list Z) : result (list scored) :=
  match starts with
  | [] => Ok []
  | i :: rest =>
      reranked_batch ←
        rerank llm_invoke query (list_slice documents i (i + batch_size)) None;
      all_reranked ← batches_loop query documents batch_size rest;
      Ok (reranked_batch ++ all_reranked)
  end.

(** [ReRanker.batch_rerank] *)
Definition batch_rerank (query : string) (documents : list scored)
  (batch_size : Z) : result (list scored) :=
  if Z.of_nat (length documents) <=? batch_size
  then rerank llm_invoke query documents None
  else
    starts ← range (Z.of_nat (length documents)) batch_size;
    all_reranked ← batches_loop query documents batch_size starts;
    Ok (sort_desc all_reranked).

End ReRanker.

(** ** [SimpleReRanker] *)

(** [s.split()]: the pieces between runs of whitespace; [cur] is the piece
    being read, in reverse. *)
Fixpoint split_ws_go (s : string) (cur : string) : list string :=
  match s with
  | EmptyString =>
      match cur with
      | EmptyString => []
      | _ => [String.rev cur]
      end
  | String c s' =>
      if isspace c then
        match cur with
        | EmptyString => split_ws_go s' EmptyString
        | _ => String.rev cur :: split_ws_go s' EmptyString
        end
      else split_ws_go s' (String c cur)
  end.

Definition split_ws (s : string) : list string := split_ws_go s EmptyString.

(** [set(text.lower().split())] *)
Definition terms (text : string) : gset string :=
  list_to_set (split_ws (lower text)).

(** [len(query_terms & doc_terms) / len(query_terms) if query_terms else 0] *)
Definition overlap (query_terms doc_terms : gset string) : Q :=
  if decide (query_terms = ∅) then 0%Q
  else (inject_Z (Z.of_nat (size (query_terms ∩ doc_terms)))
        / inject_Z (Z.of_nat (size query_terms)))%Q.

(** The body of the loop of [SimpleReRanker.rerank]. *)
Definition keyword_score (query_terms : gset string) (ds : scored) : scored :=
  (fst ds,
   (snd ds * 0.5 + overlap query_terms (terms (page_content (fst ds))) * 0.5)%Q).

(** [SimpleReRanker.rerank] *)
Definition simple_rerank (query : string) (documents : list scored)
  (top_k : option Z) : list scored :=
  let query_terms := terms query in
  truncate top_k (sort_desc (List.map (keyword_score query_terms) documents)).

(** ** Names used in the statements about re-ranking *)

(** Scores in descending order. *)
Definition descending (l : list scored) : Prop :=
  StronglySorted (fun a b : scored => (snd b <= snd a)%Q) l.

(** Three candidates for the examples. *)
Definition example_candidates : list scored :=
  [(chunk "a" "all data is protected, see section 2", 0.2%Q);
   (chunk "b" "encryption at rest", 0.9%Q);
   (chunk "c" "key rotation", 0.5%Q)].

End Rerankers.

(* ===================================================================== *)
(** * vectorstore/chroma_store.py: [_prepare_metadata], and
      retrieval/context_enricher.py: [get_parent_context] *)
(* ===================================================================== *)

Module Metadata.
Import Py Json Conv Retrieval.

(** The value that [_prepare_metadata] stores for a value of the dumped
    model: a scalar as it is, a list as the texts of its items joined by
    commas, [None] as the empty text.  The dump in JSON mode has already
    turned a UUID into text, so that branch of the source is never taken. *)
Definition prepare_value (value : json) : json :=
  match value with
  | JStr _ | JInt _ | JFloat _ | JBool _ => value
  | JList l =>
      JStr (match l with
            | [] => ""
            | _ => join "," (List.map str l)
            end)
  | JNull => JStr ""
  | JDict _ => JStr (str value)
  end.

(** [ChromaVectorStore._prepare_metadata] *)
Definition _prepare_metadata (metadata : list (string * json))
  : list (string * json) :=
  fold_left (fun prepared kv => dict_set prepared (fst kv) (prepare_value (snd kv)))
    metadata [].

Section Store.

Variable similarity_search_with_score :
  string -> Z -> prefilter -> result (list scored).

(** [sections[-2]] of a list with at least two items *)
Definition second_to_last (sections : list string) : string :=
  nth (length sections - 2) sections "".

(** [ContextEnricher.get_parent_context]; the stored hierarchy is text. *)
Definition get_parent_context (document : Document) : option Document :=
  match meta_get document "section_hierarchy" "" with
  | EmptyString => None
  | hierarchy =>
      let sections := split hierarchy "," in
      if (length sections <? 2)%nat then None
      else
        let parent_section := second_to_last sections in
        match similarity_search similarity_search_with_score
                ("section " +:+ parent_section) 1 None None with
        | Ok (r :: _) => Some (fst r)
        | _ => None
        end
  end.

End Store.

(** ** Names used in the statements about stored metadata *)

(** A value that Chroma takes as it is. *)
Definition scalar (v : json) : bool :=
  match v with
  | JStr _ | JInt _ | JFloat _ | JBool _ => true
  | _ => false
  end.

(** Every value of a dict prepared on its own. *)
Definition prepared (metadata : list (string * json)) : list (string * json) :=
  List.map (fun kv => (fst kv, prepare_value (snd kv))) metadata.

(** The dumped metadata of a chunk, and a chunk of section 2.1, for the
    examples. *)
Definition example_metadata : list (string * json) :=
  [("chunk_index", JInt 3); ("page_numbers", JList [JInt 4; JInt 5]);
   ("section_title", JNull); ("contains_requirements", JBool true)].

Definition example_child : Document :=
  Build_Document "keys are rotated yearly" {[ "section_hierarchy" := "2,2.1" ]}.

End Metadata.

(* ===================================================================== *)
(** * Names used in the further statements about the parser *)
(* ===================================================================== *)

Module ParserNames.
Import Py Json Conv Models Parser.

(** The requirement that [_parse_requirements] makes of an item that is a
    string, at index [idx]. *)
Definition string_requirement (idx : Z) (s : string) : ExtractedRequirement.t :=
  ExtractedRequirement.Build (auto_id idx)
    (if 100 <? len s then slice_to s 100 else s) s "Extracted from document"
    None None None [].

(** A value that has no slice: neither text nor a list. *)
Definition unsliceable (v : json) : bool :=
  match v with
  | JStr _ | JList _ => false
  | _ => true
  end.

(** Replies for the examples: an object whose one requirement has a
    null description beside a second, valid requirement; and an object with
    a confidence of 150. *)
Definition reply_null_description : string :=
  "{" +:+ quoted "extracted_requirements" +:+ ": [{" +:+ quoted "title" +:+ ": "
  +:+ quoted "Encrypt data" +:+ ", " +:+ quoted "description" +:+ ": null}, "
  +:+ quoted "Rotate keys yearly" +:+ "]}".

Definition reply_confidence_150 : string :=
  "{" +:+ quoted "reasoning" +:+ ": " +:+ quoted "Section 2 applies" +:+ ", "
  +:+ quoted "confidence" +:+ ": 150}".

End ParserNames.

(* ===================================================================== *)
(** * Names used in the further statements about the workflow *)
(* ===================================================================== *)

Module WorkflowNames.
Import Py Json Conv Models Workflow.

(** The section filter that [retrieve_documents] passes on: the target
    section of the request when it is given and not empty. *)
Definition section_filter_of (request : AnalysisRequest.t) : option string :=
  if nonempty (AnalysisRequest.target_section request)
  then AnalysisRequest.target_section request else None.

(** Two states that differ at most in the detected query type. *)
Definition same_but_query_type (s1 s2 : GraphState) : Prop :=
  request s1 = request s2 /\ query s1 = query s2
  /\ project_filter s1 = project_filter s2
  /\ retrieved_chunks s1 = retrieved_chunks s2 /\ context s1 = context s2
  /\ analysis_response s1 = analysis_response s2 /\ error s1 = error s2
  /\ current_step s1 = current_step s2.

(** Two outcomes of the graph with the same nodes visited, and final states
    that differ at most in the detected query type. *)
Definition same_outcome (r1 r2 : option (result (list node * GraphState))) : Prop :=
  match r1, r2 with
  | Some (Ok (t1, f1)), Some (Ok (t2, f2)) => t1 = t2 /\ same_but_query_type f1 f2
  | Some (Raise e1), Some (Raise e2) => e1 = e2
  | None, None => True
  | _, _ => False
  end.

(** The paths of the graph. *)
Definition graph_paths : list (list node) :=
  [ [n_process_query; n_retrieve_documents; n_analyze_content];
    [n_process_query; n_handle_error];
    [n_process_query; n_retrieve_documents; n_handle_error];
    [n_process_query; n_retrieve_documents; n_analyze_content; n_handle_error] ].

(** Collaborators for the examples: one chunk is found and an answer is
    given. *)
Definition example_chunk : RetrievedChunk.t :=
  RetrievedChunk.Build "b" "encryption at rest" 0.5 "rfp.pdf" (Some "Security") [4].

Definition finding_retrieve (query : string)
  (project_name section_filter : option string) (include_enrichment : bool)
  : result (list RetrievedChunk.t) :=
  Ok [example_chunk].

Definition example_response : AnalysisResponse.t :=
  AnalysisResponse.Build [] "Data is encrypted at rest." [] 80 []
    "What are the security requirements?" [example_chunk] 0.

Definition answering_analyze (request : AnalysisRequest.t)
  (chunks : list RetrievedChunk.t) : result AnalysisResponse.t :=
  Ok example_response.

(** An analyzer that fails without a message, as [raise TimeoutError()]
    does: the text of the exception is empty. *)
Definition silent_analyze (request : AnalysisRequest.t)
  (chunks : list RetrievedChunk.t) : result AnalysisResponse.t :=
  Raise (Exn OtherError "").

(** A request of the general type. *)
Definition general_request : AnalysisRequest.t :=
  AnalysisRequest.Build "What are the security requirements?" None
    GENERAL None None [] true 10.

End WorkflowNames.

(* ===================================================================== *)
(** * retrieval/pipeline.py: the choice of the re-ranker *)
(* ===================================================================== *)

Module Pipeline.
Import Py Json Conv Models Retrieval Rerankers.

(** The re-ranker that [RetrievalPipeline.__init__] chooses:
    [ReRanker() if use_llm_reranking else SimpleReRanker()]. *)
Definition chosen_reranker (llm_invoke : string -> result string)
  (use_llm_reranking : bool)
  : string -> list scored -> option Z -> result (list scored) :=
  if use_llm_reranking then rerank llm_invoke
  else fun query documents top_k => Ok (simple_rerank query documents top_k).

(** ** Names used in the statements about the pipeline *)

(** The index reports no negative distance. *)
Definition nonneg_distances
  (store : string -> Z -> prefilter -> result (list scored)) : Prop :=
  forall query k f results,
    store query k f = Ok results ->
    Forall (fun ds : scored => (0 <= snd ds)%Q) results.

(** Scores above 0 and at most 1. *)
Definition unit_scores (l : list scored) : Prop :=
  Forall (fun ds : scored => (0 < snd ds <= 1)%Q) l.

(** The chat model raises nothing but a [ValueError] or a [TypeError]. *)
Definition mild_failures (llm_invoke : string -> result string) : Prop :=
  forall prompt e, llm_invoke prompt = Raise e ->
                   is_ValueError e || is_TypeError e = true.

End Pipeline.

(* ===================================================================== *)
(** * Names used in the statements about fenced replies *)
(* ===================================================================== *)

Module FenceNames.
Import Py Re Json Text Parser.

(** The fence of a code block. *)
Definition fence : string := "```".

(** The text reads, after whitespace, something else than a backtick. *)
Definition no_fence_ahead (s : string) : bool :=
  match lstrip s with
  | String c _ => negb (Ascii.eqb c "`")
  | EmptyString => true
  end.

(** The first of the [json_patterns] of [_extract_json]:
    the pattern of a block fenced as json. *)
Definition fenced_pattern : regex :=
  Seqs [Lit "```json"; Star true ws; Group (Star false Any);
        Star true ws; Lit fence].

(** A reply for the examples: prose, a fenced object between line breaks,
    and prose after it. *)
Definition fenced_reply_pre : string := "Here is the analysis:" +:+ Chunking.nl.

Definition fenced_reply_body : string :=
  Chunking.nl +:+ "{" +:+ quoted "answer" +:+ ": " +:+ quoted "ok" +:+ "}" +:+ Chunking.nl.

Definition fenced_reply_post : string := Chunking.nl +:+ "Done.".

End FenceNames.

(* ===================================================================== *)
(** * Facts about the matcher *)
(* ===================================================================== *)

Module ReFacts.
Import Py Re.

Local Open Scope nat_scope.

Lemma ahead_refl st : ahead st st.
Proof. split; lia. Qed.

Lemma ahead_trans st1 st2 st3 : ahead st1 st2 -> ahead st2 st3 -> ahead st1 st3.
Proof. unfold ahead. intros [] []. split; lia. Qed.

Lemma star_loop_forward {A} (body : mstate -> (mstate -> option A) -> option A)
  greedy k n :
  forward body ->
  forall st x, star_loop body greedy k n st = Some x ->
               exists st', ahead st st' /\ k st' = Some x.
Proof.
  intros Hb. induction n as [|n IH]; intros st x; simpl.
  - intros H. exists st. split; [apply ahead_refl | exact H].
  - set (again := fun st' => if m_pos st <? m_pos st'
                             then star_loop body greedy k n st' else None).
    assert (forall y, body st again = Some y ->
                      exists st', ahead st st' /\ k st' = Some y) as Hagain.
    { intros y (st1 & H1 & Hy)%Hb. unfold again in Hy.
      destruct (m_pos st <? m_pos st1); [|discriminate].
      apply IH in Hy as (st2 & H2 & Hy). exists st2.
      split; [eapply ahead_trans; eassumption | exact Hy]. }
    assert (forall y, k st = Some y ->
                      exists st', ahead st st' /\ k st' = Some y) as Hk.
    { intros y Hy. exists st. split; [apply ahead_refl | exact Hy]. }
    destruct greedy.
    + destruct (body st again) as [y|] eqn:E; [intros [= <-]; auto | auto].
    + destruct (k st) as [y|] eqn:E; [intros [= <-]; auto | auto].
Qed.

Lemma exec_forward {A} (r : regex) : forward (A := A) (exec r).
Proof.
  induction r as [|p|r1 IH1 r2 IH2|r1 IH1 r2 IH2|greedy r IH|r IH|];
    intros st k x; simpl.
  - intros H. exists st. split; [apply ahead_refl | exact H].
  - destruct (m_rest st) as [|c s'] eqn:E; [discriminate|].
    destruct (p c); [|discriminate]. intros H. eexists. split; [|exact H].
    unfold ahead, text_end. simpl. rewrite E. simpl. lia.
  - intros (st1 & H1 & (st2 & H2 & H)%IH2)%IH1. exists st2.
    split; [eapply ahead_trans; eassumption | exact H].
  - destruct (exec r1 st k) as [y|] eqn:E.
    + intros [= <-]. now apply IH1.
    + apply IH2.
  - now apply star_loop_forward.
  - intros (st1 & H1 & H)%IH. eexists. split; [|exact H]. exact H1.
  - destruct (m_pos st =? 0); [|discriminate].
    intros H. exists st. split; [apply ahead_refl | exact H].
Qed.

Lemma star_loop_framed {A} (body : mstate -> (mstate -> option A) -> option A)
  greedy n :
  framed body -> framed (fun st k => star_loop body greedy k n st).
Proof.
  intros Hb. induction n as [|n IH]; intros st k k' Hk; simpl.
  - apply Hk, ahead_refl.
  - rewrite (Hk st (ahead_refl st)).
    rewrite (Hb st _ (fun st' => if m_pos st <? m_pos st'
                                 then star_loop body greedy k' n st' else None)).
    + reflexivity.
    + intros st1 H1. destruct (m_pos st <? m_pos st1); [|reflexivity].
      apply IH. intros st2 H2. apply Hk. eapply ahead_trans; eassumption.
Qed.

Lemma exec_framed {A} (r : regex) : framed (A := A) (exec r).
Proof.
  induction r as [|p|r1 IH1 r2 IH2|r1 IH1 r2 IH2|greedy r IH|r IH|];
    intros st k k' Hk; simpl.
  - apply Hk, ahead_refl.
  - destruct (m_rest st) as [|c s'] eqn:E; [reflexivity|].
    destruct (p c); [|reflexivity]. apply Hk.
    unfold ahead, text_end. simpl. rewrite E. simpl. lia.
  - apply IH1. intros st1 H1. apply IH2. intros st2 H2.
    apply Hk. eapply ahead_trans; eassumption.
  - now rewrite (IH1 st k k' Hk), (IH2 st k k' Hk).
  - now apply (star_loop_framed (exec r) greedy _ IH).
  - apply IH. intros st1 H1. apply Hk. exact H1.
  - destruct (m_pos st =? 0); [|reflexivity]. apply Hk, ahead_refl.
Qed.

(** The rounds of a repetition do not depend on their number, once it is at
    least the length of the text still to read: the fuel of the loop is
    never used up. *)
Lemma star_loop_fuel {A} (body : mstate -> (mstate -> option A) -> option A)
  greedy k n m :
  forward body -> framed body ->
  forall st, String.length (m_rest st) <= n -> String.length (m_rest st) <= m ->
             star_loop body greedy k n st = star_loop body greedy k m st.
Proof.
  intros Hf Hb. revert m.
  assert (forall j st, String.length (m_rest st) = 0 ->
            star_loop body greedy k j st = k st) as Hend.
  { intros [|j] st Hst; simpl; [reflexivity|].
    assert (body st (fun st' => if m_pos st <? m_pos st'
                                then star_loop body greedy k j st' else None)
            = None) as ->.
    { destruct (body st _) as [x|] eqn:E; [|reflexivity].
      apply Hf in E as (st1 & [H1 H2] & E).
      destruct (m_pos st <? m_pos st1) eqn:Elt; [|discriminate].
      apply Nat.ltb_lt in Elt. unfold text_end in H1. lia. }
    now destruct greedy, (k st). }
  induction n as [|n IH]; intros m st Hn Hm.
  - rewrite (Hend m st); [reflexivity | lia].
  - destruct m as [|m]; [rewrite (Hend (S n) st); [reflexivity | lia]|].
    simpl.
    rewrite (Hb st _ (fun st' => if m_pos st <? m_pos st'
                                 then star_loop body greedy k m st' else None)).
    + reflexivity.
    + intros st1 [H1 H2]. destruct (m_pos st <? m_pos st1) eqn:Elt; [|reflexivity].
      apply Nat.ltb_lt in Elt. unfold text_end in H1. apply IH; lia.
Qed.

Lemma exec_star_fuel {A} greedy (r : regex) (k : mstate -> option A) st n :
  String.length (m_rest st) <= n ->
  exec (Star greedy r) st k = star_loop (exec r) greedy k n st.
Proof.
  intros Hn. simpl. apply star_loop_fuel; auto using exec_forward, exec_framed.
Qed.

(** A match ends in the text it started in, at or after its start. *)
Lemma match_at_ahead r s pos m :
  match_at r s pos = Some m -> ahead (MState s pos None) m.
Proof.
  unfold match_at. intros (st' & H & [= ->])%exec_forward. exact H.
Qed.

Lemma search_ahead r s pos a m :
  search r s pos = Some (a, m) ->
  pos <= a /\ a <= m_pos m
  /\ m_pos m + String.length (m_rest m) = pos + String.length s.
Proof.
  revert pos. induction s as [|c s IH]; intros pos; simpl.
  - destruct (match_at r "" pos) as [m'|] eqn:E; [|discriminate].
    intros [= <- <-]. apply match_at_ahead in E as [H1 H2].
    unfold text_end in H1. simpl in *. lia.
  - destruct (match_at r (String c s) pos) as [m'|] eqn:E.
    + intros [= <- <-]. apply match_at_ahead in E as [H1 H2].
      unfold text_end in H1. simpl in *. lia.
    + intros H%IH. simpl. lia.
Qed.

(** The scan for the successive matches does not depend on its fuel, once it
    is above the length of the text. *)
Lemma finditer_go_fuel r n m :
  forall s pos, String.length s < n -> String.length s < m ->
                finditer_go n r s pos = finditer_go m r s pos.
Proof.
  revert m. induction n as [|n IH]; intros m s pos Hn Hm; [lia|].
  destruct m as [|m]; [lia|]. simpl.
  destruct (search r s pos) as [[a mt]|] eqn:E; [|reflexivity].
  apply search_ahead in E as (H1 & H2 & H3). f_equal.
  destruct (a <? m_pos mt) eqn:Elt.
  - apply Nat.ltb_lt in Elt. apply IH; lia.
  - destruct (m_rest mt) as [|c s'] eqn:Er; [reflexivity|].
    simpl in H3. apply IH; lia.
Qed.

End ReFacts.

(* ===================================================================== *)
(** * Facts about the JSON decoder *)
(* ===================================================================== *)

Module JsonFacts.
Import Py Json.

Local Open Scope nat_scope.
Abbreviation slen := String.length.

Lemma eat_length c s rest : eat c s = Some rest -> slen s = S (slen rest).
Proof.
  destruct s as [|d s]; simpl; [discriminate|].
  destruct (Ascii.eqb d c); [|discriminate]. now intros [= ->].
Qed.

Lemma skip_ws_length s : slen (skip_ws s) <= slen s.
Proof.
  induction s as [|c s IH]; simpl; [lia|].
  destruct (is_json_ws c); simpl; lia.
Qed.

Lemma drop_length n s : slen (drop n s) = slen s - n.
Proof.
  revert s. induction n as [|n IH]; intros [|c s]; simpl; auto. 
Qed.

Lemma startswith_length s p : startswith s p = true -> slen p <= slen s.
Proof.
  revert s. induction p as [|a p IH]; intros [|b s]; simpl; try lia; try discriminate.
  destruct (Ascii.eqb a b); [|discriminate]. intros H%IH. lia.
Qed.

Lemma hex4_length s n rest : hex4 s = Some (n, rest) -> slen s = 4 + slen rest.
Proof.
  destruct s as [|a [|b [|c [|d s]]]]; simpl; try discriminate.
  destruct (hex_value a), (hex_value b), (hex_value c), (hex_value d);
    try discriminate.
  now intros [= _ ->].
Qed.

Lemma low_surrogate_length s rest :
  low_surrogate s = Some rest -> slen rest < slen s.
Proof.
  unfold low_surrogate.
  destruct (eat "\" s) as [s1|] eqn:E1; [|discriminate].
  destruct (eat "u" s1) as [s2|] eqn:E2; [|discriminate].
  destruct (hex4 s2) as [[lo s3]|] eqn:E3; [|discriminate].
  destruct (_ && _); [|discriminate]. intros [= <-].
  apply eat_length in E1, E2. apply hex4_length in E3. lia.
Qed.

Lemma unicode_escape_length s x rest :
  unicode_escape s = Some (x, rest) -> slen rest < slen s.
Proof.
  unfold unicode_escape.
  destruct (hex4 s) as [[hi s1]|] eqn:E; [|discriminate].
  apply hex4_length in E.
  destruct (_ && _).
  - intros [= _ <-]. destruct (low_surrogate s1) as [s3|] eqn:E3; simpl; [|lia].
    apply low_surrogate_length in E3. lia.
  - intros [= _ <-]. lia.
Qed.

(** A string scan that succeeds leaves a shorter text. *)
Lemma scanstring_rest n s acc str rest :
  scanstring n s acc = Ok (str, rest) -> slen rest < slen s.
Proof.
  revert s acc. induction n as [|n IH]; intros s acc; simpl; [discriminate|].
  destruct s as [|c s]; [discriminate|].
  destruct (Ascii.eqb c dquote); [intros [= _ <-]; simpl; lia|].
  destruct (Ascii.eqb c "\").
  - destruct s as [|e s]; [discriminate|].
    destruct (Ascii.eqb e "u").
    + destruct (unicode_escape s) as [[x r]|] eqn:E; [|discriminate].
      intros H%IH. apply unicode_escape_length in E. simpl. lia.
    + destruct (simple_escape e); [|discriminate].
      intros H%IH. simpl. lia.
  - destruct (ord c <? 32)%N; [discriminate|].
    intros H%IH. simpl. lia.
Qed.

(** A string scan does not depend on a fuel above the length of its text. *)
Lemma scanstring_fuel n m s acc :
  slen s < n -> slen s < m -> scanstring n s acc = scanstring m s acc.
Proof.
  revert m s acc. induction n as [|n IH]; intros m s acc Hn Hm; [lia|].
  destruct m as [|m]; [lia|]. simpl.
  destruct s as [|c s]; [reflexivity|]. simpl in Hn, Hm.
  destruct (Ascii.eqb c dquote); [reflexivity|].
  destruct (Ascii.eqb c "\").
  - destruct s as [|e s]; [reflexivity|]. simpl in Hn, Hm.
    destruct (Ascii.eqb e "u").
    + destruct (unicode_escape s) as [[x r]|] eqn:E; [|reflexivity].
      apply unicode_escape_length in E. apply IH; lia.
    + destruct (simple_escape e); [|reflexivity]. apply IH; lia.
  - destruct (ord c <? 32)%N; [reflexivity|]. apply IH; lia.
Qed.

Lemma span_digits_length s ds rest :
  span_digits s = (ds, rest) -> slen s = slen ds + slen rest.
Proof.
  revert ds rest. induction s as [|c s IH]; intros ds rest; simpl.
  - now intros [= <- <-].
  - destruct (isdecimal c).
    + destruct (span_digits s) as [ds' rest'].
      intros [= <- <-]. simpl. now rewrite (IH ds' rest' eq_refl).
    + now intros [= <- <-].
Qed.

Lemma scan_unsigned_length s ds rest :
  scan_unsigned s = Some (ds, rest) -> slen rest < slen s.
Proof.
  unfold scan_unsigned. destruct (eat "0" s) as [s'|] eqn:E.
  - intros [= _ <-]. apply eat_length in E. lia.
  - destruct (span_digits s) as [[|a d] r] eqn:Ed; [discriminate|].
    intros [= _ <-]. apply span_digits_length in Ed. simpl in Ed. lia.
Qed.

Lemma scan_int_part_length s neg ip rest :
  scan_int_part s = Some (neg, ip, rest) -> slen rest < slen s.
Proof.
  unfold scan_int_part, take_minus.
  destruct (eat "-" s) as [s'|] eqn:E.
  - apply eat_length in E.
    destruct (scan_unsigned s') as [[ds r]|] eqn:Eu; [|discriminate].
    intros [= _ _ <-]. apply scan_unsigned_length in Eu. lia.
  - destruct (scan_unsigned s) as [[ds r]|] eqn:Eu; [|discriminate].
    intros [= _ _ <-]. now apply scan_unsigned_length in Eu.
Qed.

Lemma scan_frac_length s fp rest : scan_frac s = (fp, rest) -> slen rest <= slen s.
Proof.
  unfold scan_frac. destruct (eat "." s) as [s'|] eqn:E.
  - apply eat_length in E.
    destruct (span_digits s') as [[|a ds] r] eqn:Ed.
    + intros [= _ <-]. lia.
    + intros [= _ <-]. apply span_digits_length in Ed. lia.
  - intros [= _ <-]. lia.
Qed.

Lemma scan_exp_length s ex rest : scan_exp s = (ex, rest) -> slen rest <= slen s.
Proof.
  unfold scan_exp.
  destruct (match eat "e" s with Some t => Some t | None => eat "E" s end)
    as [s'|] eqn:E; [|intros [= _ <-]; lia].
  assert (slen s = S (slen s')) as Hs.
  { destruct (eat "e" s) eqn:E1; [injection E as ->; now apply eat_length in E1|].
    now apply eat_length in E. }
  destruct (eat "-" s') as [t|] eqn:Em.
  - apply eat_length in Em.
    destruct (span_digits t) as [[|a ds] r] eqn:Ed; intros [= _ <-]; [lia|].
    apply span_digits_length in Ed. lia.
  - assert (slen (default s' (eat "+" s')) <= slen s') as Hp.
    { destruct (eat "+" s') eqn:Ep; simpl; [apply eat_length in Ep|]; lia. }
    destruct (span_digits _) as [[|a ds] r] eqn:Ed; intros [= _ <-]; [lia|].
    apply span_digits_length in Ed. lia.
Qed.

Lemma scan_number_length s v rest :
  scan_number s = Some (v, rest) -> slen rest < slen s.
Proof.
  unfold scan_number.
  destruct (scan_int_part s) as [[[neg ip] s1]|] eqn:Ei; [|discriminate].
  destruct (scan_frac s1) as [fp s2] eqn:Ef.
  destruct (scan_exp s2) as [ex s3] eqn:Ee.
  apply scan_int_part_length in Ei. apply scan_frac_length in Ef.
  apply scan_exp_length in Ee.
  destruct fp, ex; intros [= _ <-]; lia.
Qed.

Lemma scan_scalar_length s v rest :
  scan_scalar s = Ok (v, rest) -> slen rest < slen s.
Proof.
  unfold scan_scalar, scan_keyword, scan_constant.
  repeat match goal with
  | |- context [startswith s ?p] =>
      let E := fresh "E" in
      destruct (startswith s p) eqn:E;
      [apply startswith_length in E; simpl in E; cbv beta iota;
       match goal with
       | |- Ok (_, ?d) = _ -> _ =>
           intros H; assert (rest = d) as -> by congruence
       end; rewrite drop_length; lia|]
  | |- context [scan_number s] =>
      let E := fresh "E" in
      destruct (scan_number s) as [[v' r']|] eqn:E;
      [apply scan_number_length in E; cbv beta iota; intros [= _ <-]; exact E|]
  end.
  cbv beta iota. discriminate.
Qed.

#[local] Arguments scan_scalar : simpl never.
#[local] Arguments skip_ws : simpl never.
#[local] Arguments eat : simpl never.

(** A scan that succeeds leaves a shorter text. *)
Lemma scan_rest n :
  (forall s v r, scan_once n s = Ok (v, r) -> slen r < slen s)
  /\ (forall s acc v r, object_members n s acc = Ok (v, r) -> slen r < slen s)
  /\ (forall s acc v r, array_items n s acc = Ok (v, r) -> slen r < slen s).
Proof.
  induction n as [|n (IHs & IHo & IHa)]; [repeat split; discriminate|].
  split; [|split].
  - intros [|c s] v r; simpl; [discriminate|].
    destruct (Ascii.eqb c dquote).
    { destruct (scanstring n s "") as [[str rest]|e] eqn:E; simpl; [|discriminate].
      intros [= _ <-]. apply scanstring_rest in E. lia. }
    pose proof (skip_ws_length s) as Hws.
    destruct (Ascii.eqb c "{").
    { destruct (eat "}" (skip_ws s)) as [rest|] eqn:E.
      - intros [= _ <-]. apply eat_length in E. lia.
      - intros H%IHo. lia. }
    destruct (Ascii.eqb c "[").
    { destruct (eat "]" (skip_ws s)) as [rest|] eqn:E.
      - intros [= _ <-]. apply eat_length in E. lia.
      - intros H%IHa. lia. }
    apply scan_scalar_length.
  - intros s acc v r; simpl.
    destruct (eat dquote s) as [s'|] eqn:Eq; [|discriminate].
    destruct (scanstring n s' "") as [[key s1]|e] eqn:Ek; simpl; [|discriminate].
    destruct (eat ":" (skip_ws s1)) as [s2|] eqn:Ec; [|discriminate].
    destruct (scan_once n (skip_ws s2)) as [[v' s3]|e] eqn:Ev; simpl; [|discriminate].
    apply eat_length in Eq, Ec. apply scanstring_rest in Ek. apply IHs in Ev.
    pose proof (skip_ws_length s1). pose proof (skip_ws_length s2).
    pose proof (skip_ws_length s3).
    destruct (eat "}" (skip_ws s3)) as [rest|] eqn:E.
    + intros [= _ <-]. apply eat_length in E. lia.
    + destruct (eat "," (skip_ws s3)) as [s4|] eqn:E4; [|discriminate].
      intros Hr%IHo. apply eat_length in E4. pose proof (skip_ws_length s4). lia.
  - intros s acc v r; simpl.
    destruct (scan_once n s) as [[v' s1]|e] eqn:Ev; simpl; [|discriminate].
    apply IHs in Ev. pose proof (skip_ws_length s1).
    destruct (eat "]" (skip_ws s1)) as [rest|] eqn:E.
    + intros [= _ <-]. apply eat_length in E. lia.
    + destruct (eat "," (skip_ws s1)) as [s2|] eqn:E2; [|discriminate].
      intros Hr%IHa. apply eat_length in E2. pose proof (skip_ws_length s2). lia.
Qed.

(** A scan does not depend on its fuel, once the fuel is above twice the
    length of the text (by two more for the members of an object and the
    items of an array, which pass the fuel on before they read). *)
Lemma scan_fuel n :
  (forall m s, 2 * slen s < n -> 2 * slen s < m ->
               scan_once n s = scan_once m s)
  /\ (forall m s acc, 2 * slen s + 1 < n -> 2 * slen s + 1 < m ->
                      object_members n s acc = object_members m s acc)
  /\ (forall m s acc, 2 * slen s + 1 < n -> 2 * slen s + 1 < m ->
                      array_items n s acc = array_items m s acc).
Proof.
  induction n as [|n (IHs & IHo & IHa)]; [repeat split; intros; lia|].
  split; [|split].
  - intros [|m] [|c s] Hn Hm; simpl in *; try lia; try reflexivity.
    destruct (Ascii.eqb c dquote).
    { rewrite (scanstring_fuel n m); [reflexivity | lia | lia]. }
    pose proof (skip_ws_length s) as Hws.
    destruct (Ascii.eqb c "{").
    { destruct (eat "}" (skip_ws s)); [reflexivity|]. apply IHo; lia. }
    destruct (Ascii.eqb c "[").
    { destruct (eat "]" (skip_ws s)); [reflexivity|]. apply IHa; lia. }
    reflexivity.
  - intros [|m] s acc Hn Hm; [lia|]. simpl.
    destruct (eat dquote s) as [s'|] eqn:Eq; [|reflexivity].
    apply eat_length in Eq.
    rewrite (scanstring_fuel n m); [|lia|lia].
    destruct (scanstring m s' "") as [[key s1]|e] eqn:Ek; simpl; [|reflexivity].
    apply scanstring_rest in Ek.
    destruct (eat ":" (skip_ws s1)) as [s2|] eqn:Ec; [|reflexivity].
    apply eat_length in Ec.
    pose proof (skip_ws_length s1). pose proof (skip_ws_length s2).
    rewrite (IHs m (skip_ws s2)); [|lia|lia].
    destruct (scan_once m (skip_ws s2)) as [[v' s3]|e] eqn:Ev; simpl; [|reflexivity].
    apply (proj1 (scan_rest m)) in Ev. pose proof (skip_ws_length s3).
    destruct (eat "}" (skip_ws s3)); [reflexivity|].
    destruct (eat "," (skip_ws s3)) as [s4|] eqn:E4; [|reflexivity].
    apply eat_length in E4. pose proof (skip_ws_length s4).
    apply IHo; lia.
  - intros [|m] s acc Hn Hm; [lia|]. simpl.
    rewrite (IHs m s); [|lia|lia].
    destruct (scan_once m s) as [[v' s1]|e] eqn:Ev; simpl; [|reflexivity].
    apply (proj1 (scan_rest m)) in Ev. pose proof (skip_ws_length s1).
    destruct (eat "]" (skip_ws s1)); [reflexivity|].
    destruct (eat "," (skip_ws s1)) as [s2|] eqn:E2; [|reflexivity].
    apply eat_length in E2. pose proof (skip_ws_length s2).
    apply IHa; lia.
Qed.

(** The fuel of [loads] is never used up: more fuel decodes a text to the
    same result. *)
Lemma loads_fuel text n :
  fuel_for text <= n ->
  scan_once n (skip_ws text) = scan_once (fuel_for text) (skip_ws text).
Proof.
  unfold fuel_for. intros Hn. pose proof (skip_ws_length text).
  apply (proj1 (scan_fuel n)); lia.
Qed.

End JsonFacts.

(* ===================================================================== *)
(** * Facts about the parser *)
(* ===================================================================== *)

Module ParserFacts.
Import Py Re Json Conv Models Parser.

(** Inversion of a bind in the [result] monad. *)
Lemma bind_Ok {A B} (m : result A) (f : A -> result B) (b : B) :
  m ≫= f = Ok b -> exists a, m = Ok a /\ f a = Ok b.
Proof. destruct m as [a|e]; simpl; [eauto | discriminate]. Qed.

Ltac inv_bind H :=
  let a := fresh "a" in
  let Ha := fresh "H" a in
  apply bind_Ok in H; destruct H as (a & Ha & H).

Lemma validate_bounded_range lo hi v q :
  validate_bounded lo hi v = Some q -> (lo <= q <= hi)%Q.
Proof.
  unfold validate_bounded.
  destruct (validate_float v) as [[| |x]|]; try discriminate.
  destruct (Qle_bool lo x && Qle_bool x hi) eqn:E; [|discriminate].
  intros [= <-]. apply andb_true_iff in E as [E1 E2].
  split; now apply Qle_bool_iff.
Qed.

(** What a successful construction of an [AnalysisResponse] stores. *)
Lemma create_Ok reqs reasoning gaps conf unc q r :
  AnalysisResponse.create reqs reasoning gaps conf unc q = Ok r ->
  validate_str reasoning = Some (AnalysisResponse.reasoning r)
  /\ q = Some (AnalysisResponse.query r)
  /\ (0 <= AnalysisResponse.confidence r <= 100)%Q.
Proof.
  unfold AnalysisResponse.create.
  destruct (validate_str reasoning) as [s|]; [|discriminate].
  destruct (validate_list_str _) as [g|]; [|discriminate].
  destruct (validate_bounded _ _ _) as [c|] eqn:Ec; [|discriminate].
  destruct (validate_list_str _) as [u|]; [|discriminate].
  destruct q as [q|]; [|discriminate].
  intros [= <-]; simpl. repeat split; try apply (validate_bounded_range _ _ _ _ Ec).
Qed.

Lemma parse_Raise llm_output query e :
  parse_body llm_output query = Raise e ->
  parse llm_output query = Ok (fallback e llm_output query).
Proof. unfold parse. intros ->. reflexivity. Qed.

Lemma parse_Ok llm_output query r :
  parse_body llm_output query = Ok r -> parse llm_output query = Ok r.
Proof. unfold parse. intros ->. reflexivity. Qed.

Lemma get_Ok v key dflt x :
  get v key dflt = Ok x ->
  exists d, v = JDict d /\ x = default dflt (dict_lookup d key).
Proof. destruct v; simpl; try discriminate. intros [= <-]. eauto. Qed.

Lemma parse_body_Ok llm_output query r :
  parse_body llm_output query = Ok r ->
  exists d,
    _extract_json llm_output = Ok (JDict d)
    /\ validate_str (default (JStr "") (dict_lookup d "reasoning"))
       = Some (AnalysisResponse.reasoning r)
    /\ AnalysisResponse.query r = query
    /\ (0 <= AnalysisResponse.confidence r <= 100)%Q.
Proof.
  unfold parse_body. intros H.
  inv_bind H. inv_bind H. inv_bind H. inv_bind H. inv_bind H. inv_bind H. inv_bind H.
  apply get_Ok in Ha2 as (d & -> & ->).
  apply create_Ok in H as (Hr & Hq & Hc).
  exists d. repeat split; try tauto; congruence.
Qed.

Lemma failure_reasoning_nonempty e llm_output :
  failure_reasoning e llm_output <> "".
Proof. unfold failure_reasoning. discriminate. Qed.


(** C1, as the code has it. [parse] always returns a response, its
    confidence lies between 0 and 100, and its reasoning is empty only when
    a JSON object was extracted whose reasoning (the empty string when the
    key is absent) is the empty string. *)
Theorem parse_total llm_output query :
  exists r,
    parse llm_output query = Ok r
    /\ (0 <= AnalysisResponse.confidence r <= 100)%Q
    /\ (AnalysisResponse.reasoning r = "" ->
        exists d, _extract_json llm_output = Ok (JDict d)
                  /\ default (JStr "") (dict_lookup d "reasoning") = JStr "").
Proof.
  destruct (parse_body llm_output query) as [r|e] eqn:E.
  - exists r. split; [now apply parse_Ok|].
    apply parse_body_Ok in E as (d & Hd & Hr & _ & Hc).
    split; [exact Hc|]. intros Hempty. exists d. split; [exact Hd|].
    rewrite Hempty in Hr.
    destruct (default (JStr "") (dict_lookup d "reasoning")); try discriminate.
    simpl in Hr. congruence.
  - exists (fallback e llm_output query). split; [now apply parse_Raise|].
    split; [simpl; lra|].
    simpl. intros H. now apply failure_reasoning_nonempty in H.
Qed.

(** C1, counterexample. On the text of an empty JSON object the response
    has an empty reasoning. *)
Lemma parse_empty_object_reasoning :
  exists r, parse "{}" "What is required?" = Ok r
            /\ AnalysisResponse.reasoning r = "".
Proof. eexists. split; [vm_compute; reflexivity | reflexivity]. Qed.

(** C10. The response of [parse] carries the query it was given, from the
    body and from the except block alike. *)
Theorem parse_keeps_query llm_output query :
  exists r, parse llm_output query = Ok r /\ AnalysisResponse.query r = query.
Proof.
  destruct (parse_body llm_output query) as [r|e] eqn:E.
  - exists r. split; [now apply parse_Ok|].
    now apply parse_body_Ok in E as (d & _ & _ & Hq & _).
  - exists (fallback e llm_output query). split; [now apply parse_Raise | reflexivity].
Qed.


Lemma decode_fails_Raise text :
  decode_fails text = true ->
  exists e, loads text = Raise e /\ is_JSONDecodeError e = true.
Proof.
  unfold decode_fails. destruct (loads text) as [v|e]; [discriminate|eauto].
Qed.

Lemma extract_json_falls_through text :
  decode_fails text = true ->
  try_patterns json_patterns text = None ->
  _extract_json text = _fix_and_parse_json text.
Proof.
  intros (e & He & Hd)%decode_fails_Raise Hp.
  unfold _extract_json. now rewrite He, Hd, Hp.
Qed.

(** C5, as the code has it. When the direct parse fails and no pattern
    gives a candidate that parses: a text with both braces whose repaired
    brace span does not parse gives the synthesized response (no
    requirements, the raw text as reasoning, confidence 30); a text that
    lacks an opening or a closing brace gives the response of the except
    block, with confidence 0. *)
Theorem parse_when_all_fail text query :
  decode_fails text = true ->
  try_patterns json_patterns text = None ->
  (find text "{" <> -1 -> rfind text "}" <> -1 ->
   decode_fails
     (apply_fixes (slice text (find text "{") (rfind text "}" + 1))) = true ->
   parse text query
   = Ok (AnalysisResponse.Build [] text [] 30 [] query [] 0))
  /\ (find text "{" = -1 \/ rfind text "}" = -1 ->
      parse text query
      = Ok (AnalysisResponse.Build []
              ("Failed to parse response: No JSON object found in text. Raw output: "
                 +:+ slice_to text 500)
              [] 0 [] query [] 0)).
Proof.
  intros Hd Hp. pose proof (extract_json_falls_through text Hd Hp) as Hx.
  split.
  - intros Hs He (e & Hl & Hje)%decode_fails_Raise.
    apply parse_Ok. unfold parse_body. rewrite Hx. unfold _fix_and_parse_json.
    apply Z.eqb_neq in Hs, He. rewrite Hs, He. simpl orb. cbv iota.
    rewrite Hl, Hje. reflexivity.
  - intros Hb.
    assert ((find text "{" =? -1) || (rfind text "}" =? -1) = true) as Hor.
    { apply orb_true_iff. destruct Hb as [Hb|Hb]; [left|right]; now apply Z.eqb_eq. }
    rewrite (parse_Raise text query (Exn ValueError "No JSON object found in text")).
    + reflexivity.
    + unfold parse_body. rewrite Hx. unfold _fix_and_parse_json.
      rewrite Hor. reflexivity.
Qed.

Lemma parse_when_all_fail_witness :
  parse "{ not json }" "q"
  = Ok (AnalysisResponse.Build [] "{ not json }" [] 30 [] "q" [] 0)
  /\ parse "no braces" "q"
     = Ok (AnalysisResponse.Build []
             ("Failed to parse response: No JSON object found in text. Raw output: "
                +:+ slice_to "no braces" 500)
             [] 0 [] "q" [] 0).
Proof.
  split.
  - apply (parse_when_all_fail "{ not json }" "q");
      solve [vm_compute; reflexivity | vm_compute; discriminate].
  - apply (parse_when_all_fail "no braces" "q");
      solve [vm_compute; reflexivity | left; vm_compute; reflexivity].
Defined.

(** C5, counterexample. For a text without braces every extraction fails,
    yet the response has confidence 0 and a reasoning that is not the raw
    text. *)
Lemma parse_prose_not_synthesized :
  decode_fails prose = true
  /\ try_patterns json_patterns prose = None
  /\ find prose "{" = -1
  /\ exists r, parse prose "q" = Ok r
              /\ AnalysisResponse.confidence r = 0%Q
              /\ AnalysisResponse.reasoning r <> prose.
Proof.
  repeat split; try (vm_compute; reflexivity).
  eexists. split; [vm_compute; reflexivity|]. split; [reflexivity|].
  vm_compute. discriminate.
Qed.

(** C9, the failing input. A priority of one space is normalized to the
    empty string, and the empty string to an absent priority. *)
Theorem normalize_priority_blank :
  _normalize_priority (Some " ") = Some ""
  /\ _normalize_priority (_normalize_priority (Some " ")) = None.
Proof. split; vm_compute; reflexivity. Qed.


(** ** Where normalization is idempotent *)

Lemma lower_char_idem c : lower_char (lower_char c) = lower_char c.
Proof. destruct c as [[] [] [] [] [] [] [] []]; reflexivity. Qed.

Lemma isspace_lower_char c : isspace (lower_char c) = isspace c.
Proof. destruct c as [[] [] [] [] [] [] [] []]; reflexivity. Qed.

Lemma lower_idem s : lower (lower s) = lower s.
Proof. induction s as [|c s IH]; simpl; [|rewrite lower_char_idem, IH]; reflexivity. Qed.

Lemma lstrip_lower s : lstrip (lower s) = lower (lstrip s).
Proof.
  induction s as [|c s IH]; simpl; [reflexivity|].
  rewrite isspace_lower_char. destruct (isspace c); [exact IH | reflexivity].
Qed.

Lemma rstrip_lower s : rstrip (lower s) = lower (rstrip s).
Proof.
  induction s as [|c s IH]; simpl; [reflexivity|].
  rewrite IH, isspace_lower_char.
  destruct (rstrip s); simpl; [destruct (isspace c)|]; reflexivity.
Qed.

Lemma strip_lower s : strip (lower s) = lower (strip s).
Proof. unfold strip. now rewrite lstrip_lower, rstrip_lower. Qed.

Lemma rstrip_idem s : rstrip (rstrip s) = rstrip s.
Proof.
  induction s as [|c s IH]; simpl; [reflexivity|].
  destruct (rstrip s) as [|d r] eqn:E.
  - destruct (isspace c) eqn:Ec; simpl; [reflexivity | now rewrite Ec].
  - simpl in *. now rewrite IH.
Qed.

Lemma lstrip_no_leading_space s : no_leading_space (lstrip s).
Proof.
  induction s as [|c s IH]; simpl; [exact I|].
  destruct (isspace c) eqn:E; [exact IH | exact E].
Qed.

Lemma rstrip_no_leading_space s :
  no_leading_space s -> no_leading_space (rstrip s).
Proof.
  destruct s as [|c s]; simpl; [trivial|]. intros Hc.
  destruct (rstrip s); [rewrite Hc|]; exact Hc.
Qed.

Lemma lstrip_id s : no_leading_space s -> lstrip s = s.
Proof. destruct s as [|c s]; simpl; [trivial|]. now intros ->. Qed.

Lemma strip_idem s : strip (strip s) = strip s.
Proof.
  unfold strip.
  rewrite (lstrip_id (rstrip (lstrip s))).
  - apply rstrip_idem.
  - apply rstrip_no_leading_space, lstrip_no_leading_space.
Qed.

Lemma priority_map_values k v :
  priority_map !! k = Some v -> v = "high" \/ v = "medium" \/ v = "low".
Proof.
  unfold priority_map. intros H%elem_of_list_to_map_2.
  repeat (apply elem_of_cons in H as [[= _ <-]|H]; [tauto|]).
  now apply elem_of_nil in H.
Qed.

(** Normalization is idempotent on every priority but a non-empty text of
    whitespace only. *)
Lemma normalize_priority_idempotent_nonblank x :
  (forall p, x = Some p -> p = "" \/ strip (lower p) <> "") ->
  _normalize_priority (_normalize_priority x) = _normalize_priority x.
Proof.
  destruct x as [p|]; [|reflexivity]. intros H.
  destruct (H p eq_refl) as [->|Hne]; [reflexivity|].
  destruct p as [|c p]; [reflexivity|].
  cbn [_normalize_priority].
  set (l := strip (lower (String c p))) in *.
  assert (strip (lower l) = l) as Hl.
  { unfold l. rewrite (strip_lower (String c p)), lower_idem.
    now rewrite strip_lower, strip_idem. }
  destruct (priority_map !! l) as [v|] eqn:E; simpl.
  - apply priority_map_values in E as [->| [->| ->]]; vm_compute; reflexivity.
  - destruct l as [|d l']; [congruence|].
    cbn [_normalize_priority]. now rewrite Hl, E.
Qed.

(** The table of C9 on its entries, an unrecognized value, and absence. *)
Lemma normalize_priority_table :
  List.map (fun p => _normalize_priority (Some p))
    ["high"; "critical"; "mandatory"; "medium"; "moderate"; "normal";
     "low"; "optional"; "nice-to-have"; "CRITICAL"; " Urgent "]
  = List.map Some
      ["high"; "high"; "high"; "medium"; "medium"; "medium";
       "low"; "low"; "low"; "high"; "urgent"]
  /\ _normalize_priority None = None.
Proof. split; vm_compute; reflexivity. Qed.

End ParserFacts.

(* ===================================================================== *)
(** * Facts about segmentation, substrings and the section filter *)
(* ===================================================================== *)

Module ChunkingFacts.
Import Py Re Chunking.

(** C6, as the code has it. The lines of the scenario give two sections:
    the implicit one numbered 0, which takes the lines "1. Intro", "foo" and
    "2. Req" (a numeral followed by a dot is no header), and the section
    2.1 with hierarchy 2, 2.1. *)
Theorem segment_scenario :
  _identify_sections scenario_text
  = [ Section_ "Introduction" "0" "1. Intro foo 2. Req" [];
      Section_ "2.1 Security" "2.1" "bar" ["2"; "2.1"] ].
Proof. vm_compute; reflexivity. Qed.

(** C6, counterexample. The lines of the scenario do not give three
    sections numbered 0, 1 and 2.1 with the hierarchies none, 1 and 2, 2.1. *)
Lemma segment_scenario_not_three :
  List.map (fun s => (number s, hierarchy s)) (_identify_sections scenario_text)
  <> [("0", []); ("1", ["1"]); ("2.1", ["2"; "2.1"])].
Proof. vm_compute; discriminate. Qed.

(** Through [split] the scenario gives no chunk: its one section has fewer
    than 50 characters. *)
Lemma split_scenario_no_chunk chunk_size create_documents metadata :
  split_text chunk_size create_documents scenario_text metadata = [].
Proof. reflexivity. Qed.

(** The hierarchy of a numbered section is the chain of its prefixes. *)
Lemma build_hierarchy_example :
  _build_hierarchy "2.1.3" = ["2"; "2.1"; "2.1.3"].
Proof. vm_compute; reflexivity. Qed.

End ChunkingFacts.

Module PyFacts.
Import Py.

Lemma startswith_spec s p :
  startswith s p = true <-> exists post, s = p +:+ post.
Proof.
  revert s. induction p as [|a p IH]; intros s; simpl.
  - split; [intros _; now exists s | reflexivity].
  - destruct s as [|b s].
    + split; [discriminate | intros [post H]; discriminate].
    + destruct (Ascii.eqb a b) eqn:E.
      * apply Ascii.eqb_eq in E as ->. rewrite IH.
        split; intros [post H]; exists post; [now rewrite H | now injection H].
      * apply Ascii.eqb_neq in E.
        split; [discriminate | intros [post [= ? _]]; congruence].
Qed.

Lemma find_from_spec sub s i :
  0 <= i ->
  (find_from s sub i = -1 /\ ~ exists pre post, s = pre +:+ sub +:+ post)
  \/ (i <= find_from s sub i /\ exists pre post, s = pre +:+ sub +:+ post).
Proof.
  revert i. induction s as [|c s IH]; intros i Hi.
  - cbn [find_from]. destruct (startswith "" sub) eqn:E.
    + right. split; [lia|]. apply startswith_spec in E as [post E].
      now exists "", post.
    + left. split; [reflexivity|]. intros (pre & post & H).
      destruct pre; [|discriminate].
      assert (startswith "" sub = true) by (apply startswith_spec; eauto).
      congruence.
  - cbn [find_from]. destruct (startswith (String c s) sub) eqn:E.
    + right. split; [lia|]. apply startswith_spec in E as [post E].
      now exists "", post.
    + destruct (IH (i + 1)) as [[H1 H2]|[H1 H2]]; [lia| |].
      * left. split; [exact H1|]. intros (pre & post & H).
        destruct pre as [|d pre].
        -- assert (startswith (String c s) sub = true)
             by (apply startswith_spec; eauto). congruence.
        -- injection H as _ H. apply H2. eauto.
      * right. split; [lia|]. destruct H2 as (pre & post & ->).
        now exists (String c pre), post.
Qed.

(** [sub in s] holds exactly when [s] has [sub] as a substring. *)
Lemma contains_spec sub s :
  contains sub s = true <-> exists pre post, s = pre +:+ sub +:+ post.
Proof.
  unfold contains, find.
  destruct (find_from_spec sub s 0) as [[H1 H2]|[H1 H2]]; [lia| |].
  - rewrite H1. simpl. split; [discriminate | tauto].
  - destruct (find_from s sub 0 =? -1) eqn:E; [apply Z.eqb_eq in E; lia|].
    simpl. tauto.
Qed.

Lemma contains_empty s : contains "" s = true.
Proof. apply contains_spec. now exists "", s. Qed.

End PyFacts.

Module FilterFacts.
Import Py Retrieval PyFacts.

Lemma section_matches_spec f ds :
  section_matches (lower f) ds = true <-> matches_filter f ds.
Proof.
  unfold section_matches, matches_filter, icontains.
  rewrite orb_true_iff, !contains_spec. reflexivity.
Qed.

Lemma filter_all {A} (keep : A -> bool) (l : list A) :
  (forall x, keep x = true) -> List.filter keep l = l.
Proof.
  intros H. induction l as [|x l IH]; simpl; [reflexivity|].
  now rewrite H, IH.
Qed.

Lemma filter_nil_iff {A} (keep : A -> bool) (l : list A) :
  List.filter keep l = [] <-> forall x, In x l -> keep x = false.
Proof.
  induction l as [|x l IH]; simpl; [tauto|].
  destruct (keep x) eqn:E.
  - split; [discriminate|]. intros H. specialize (H x (or_introl eq_refl)). congruence.
  - rewrite IH. split.
    + intros H y [<-|Hy]; auto.
    + intros H y Hy. apply H. now right.
Qed.

(** C7. With a section filter, the stage keeps exactly the candidates that
    match it, in their order; when none matches it returns all candidates. *)
Theorem apply_filters_spec (documents : list scored) (section_filter : string) :
  exists keep : scored -> bool,
    (forall ds, keep ds = true <-> matches_filter section_filter ds)
    /\ ((forall ds, In ds documents -> ~ matches_filter section_filter ds) ->
        _apply_filters documents (Some section_filter) = documents)
    /\ ((exists ds, In ds documents /\ matches_filter section_filter ds) ->
        _apply_filters documents (Some section_filter)
        = List.filter keep documents).
Proof.
  exists (section_matches (lower section_filter)).
  split; [intros ds; apply section_matches_spec|].
  destruct section_filter as [|c f].
  - (* the empty filter: the early return; every candidate matches *)
    assert (forall ds, section_matches (lower "") ds = true) as Hall.
    { intros ds. unfold section_matches. simpl lower.
      now rewrite contains_empty. }
    split; intros _; simpl; [reflexivity|].
    now rewrite filter_all.
  - cbn [_apply_filters].
    set (keep := section_matches (lower (String c f))).
    split.
    + intros Hnone.
      assert (List.filter keep documents = []) as ->; [|reflexivity].
      apply filter_nil_iff. intros ds Hds.
      destruct (keep ds) eqn:E; [|reflexivity].
      apply section_matches_spec in E. now apply Hnone in E.
    + intros (ds & Hds & Hm).
      destruct (List.filter keep documents) as [|x l] eqn:E; [|reflexivity].
      exfalso. apply section_matches_spec in Hm.
      pose proof (proj1 (filter_nil_iff keep documents) E ds Hds). 
      unfold keep in *. congruence.
Qed.

End FilterFacts.

(* ===================================================================== *)
(** * Facts about retrieval *)
(* ===================================================================== *)

Module RetrievalFacts.
Import Py Re Json Conv Models Retrieval.

Section Store.

Variable store : string -> Z -> prefilter -> result (list scored).
Variable threshold : Q.

Abbreviation respects_k := (Retrieval.respects_k store).
Abbreviation found_outside := (Retrieval.found_outside store).

Lemma similarity_range d : (0 <= d -> 0 < 1 / (1 + d) <= 1)%Q.
Proof.
  intros Hd. assert (0 < 1 + d)%Q as Hpos by lra.
  split.
  - apply Qlt_shift_div_l; lra.
  - apply Qle_shift_div_r; lra.
Qed.

Lemma normalize_nonneg results :
  Forall (fun ds : scored => (0 <= snd ds)%Q) results ->
  normalize results = Ok (List.map similarity results).
Proof.
  induction 1 as [|[doc d] rest Hd _ IH]; simpl; [reflexivity|].
  simpl in Hd.
  destruct (Qeq_bool (1 + d) 0) eqn:E.
  - apply Qeq_bool_eq in E. lra.
  - rewrite IH. reflexivity.
Qed.

(** C8, as the code has it. For distances that are not negative, stage 1
    reports for each candidate the similarity 1 / (1 + distance), which lies
    in (0, 1]; without a project name it keeps exactly the candidates at or
    above the threshold, and with a project name it keeps them all. *)
Theorem initial_retrieval_scores query project_name k results :
  store query k (project_prefilter project_name) = Ok results ->
  Forall (fun ds : scored => (0 <= snd ds)%Q) results ->
  Forall (fun ds : scored => (0 < snd ds <= 1)%Q) (List.map similarity results)
  /\ _initial_retrieval store threshold query project_name k
     = Ok (if named project_name then List.map similarity results
           else List.filter (above threshold) (List.map similarity results))
  /\ (named project_name = false ->
      exists out, _initial_retrieval store threshold query project_name k = Ok out
                  /\ Forall (fun ds : scored => (threshold <= snd ds)%Q) out).
Proof.
  intros Hs Hd.
  assert (Forall (fun ds : scored => (0 < snd ds <= 1)%Q)
            (List.map similarity results)) as Hrange.
  { apply List.Forall_map. eapply List.Forall_impl; [|exact Hd].
    intros [doc d]; simpl. apply similarity_range. }
  assert (_initial_retrieval store threshold query project_name k
          = Ok (if named project_name then List.map similarity results
                else List.filter (above threshold) (List.map similarity results)))
    as Hcall.
  { destruct project_name as [[|c n]|]; simpl in *;
      unfold search_by_project, similarity_search;
      rewrite Hs; simpl; rewrite (normalize_nonneg _ Hd); reflexivity. }
  split; [exact Hrange|]. split; [exact Hcall|].
  intros Hn. rewrite Hcall, Hn. eexists. split; [reflexivity|].
  apply List.Forall_forall. intros ds [_ Hin]%filter_In.
  unfold above in Hin. now apply Qle_bool_iff.
Qed.

(** ** Context enrichment *)

Variable list_of_set : gset string -> list string.

Lemma normalize_length results normalized :
  normalize results = Ok normalized -> length normalized = length results.
Proof.
  revert normalized. induction results as [|[doc d] rest IH]; intros out; simpl.
  - now intros [= <-].
  - destruct (Qeq_bool (1 + d) 0); [discriminate|].
    destruct (normalize rest) as [l|e]; simpl; [|discriminate].
    intros [= <-]. simpl. now rewrite (IH l eq_refl).
Qed.

Lemma filter_length_le {A} (keep : A -> bool) (l : list A) :
  (length (List.filter keep l) <= length l)%nat.
Proof. induction l as [|x l IH]; simpl; [lia|]. destruct (keep x); simpl; lia. Qed.

Lemma find_related_length ref seen :
  respects_k -> (length (_find_related_section store ref seen) <= 2)%nat.
Proof.
  intros Hk. unfold _find_related_section, similarity_search.
  destruct (store _ _ _) as [results|e] eqn:Es; simpl; [|lia].
  destruct (normalize results) as [normalized|e] eqn:En; simpl; [|lia].
  apply Hk in Es. apply normalize_length in En.
  pose proof (filter_length_le (not_excluded seen) normalized). lia.
Qed.

Lemma find_related_outside ref seen :
  found_outside seen (_find_related_section store ref seen).
Proof.
  unfold Retrieval.found_outside, _find_related_section.
  destruct (similarity_search store _ _ _ _) as [raw|e] eqn:E; [|constructor].
  apply List.Forall_forall. intros ds [Hin Hkeep]%filter_In.
  unfold not_excluded in Hkeep. apply bool_decide_eq_true in Hkeep.
  split; [exact Hkeep|]. now exists ref, raw.
Qed.

Lemma found_outside_mono seen seen' group :
  seen ⊆ seen' -> found_outside seen' group -> found_outside seen group.
Proof.
  intros Hsub. unfold Retrieval.found_outside. apply List.Forall_impl.
  intros ds [Hid Hraw]. split; [|exact Hraw].
  intros Hin. apply Hid, Hsub, Hin.
Qed.

Lemma in_ids_of (ds : scored) (docs : list scored) :
  In ds docs -> chunk_id_of (fst ds) ∈ ids_of docs.
Proof.
  intros Hin. unfold ids_of. apply elem_of_list_to_set, list_elem_of_In.
  apply in_map_iff. now exists ds.
Qed.

Lemma related_groups_spec refs seen :
  respects_k ->
  length (related_groups store refs seen) = length refs
  /\ Forall (fun g => (length g <= 2)%nat) (related_groups store refs seen)
  /\ Forall (found_outside seen) (related_groups store refs seen)
  /\ ForallOrdPairs disjoint_ids (related_groups store refs seen).
Proof.
  intros Hk. revert seen. induction refs as [|ref refs IH]; intros seen; simpl.
  - repeat split; constructor.
  - destruct (IH (seen ∪ ids_of (_find_related_section store ref seen)))
      as (Hlen & Hsize & Hout & Hdis).
    repeat split.
    + now rewrite Hlen.
    + constructor; [now apply find_related_length | exact Hsize].
    + constructor; [apply find_related_outside|].
      eapply List.Forall_impl; [|exact Hout].
      intros g. apply found_outside_mono. apply union_subseteq_l.
    + constructor; [|exact Hdis].
      eapply List.Forall_impl; [|exact Hout].
      intros g Hg a b Ha Hb Heq.
      unfold Retrieval.found_outside in Hg.
      apply (proj1 (List.Forall_forall _ _) Hg) in Hb as [Hb _].
      apply in_ids_of in Ha. rewrite Heq in Ha.
      apply Hb, elem_of_union_r, Ha.
Qed.

Lemma concat_length_le {A} (groups : list (list A)) (n : nat) :
  Forall (fun g => (length g <= n)%nat) groups ->
  (length (concat groups) <= n * length groups)%nat.
Proof.
  induction 1 as [|g groups Hg _ IH]; simpl; [lia|].
  rewrite length_app. lia.
Qed.

Lemma list_slice_to_length {A} (l : list A) (hi : Z) :
  0 <= hi -> Z.of_nat (length (list_slice_to l hi)) <= hi.
Proof.
  intros Hhi. unfold list_slice_to, slice_index.
  destruct (hi <? 0) eqn:E; [apply Z.ltb_lt in E; lia|].
  rewrite length_firstn. lia.
Qed.

(** What [max_additional] does bound. Enrichment looks up at most
    [max_additional] references, each by a search for two chunks, so it
    appends at most twice [max_additional] chunks; each is appended with 0.8
    times the similarity the search gave it; none has the chunk id of a
    candidate of the list or of a chunk appended for an earlier reference. *)
Theorem enrich_appends documents query max_additional :
  respects_k ->
  0 <= max_additional ->
  exists groups,
    enrich store list_of_set documents query max_additional
    = documents ++ List.map adjust (concat groups)
    /\ Z.of_nat (length groups) <= max_additional
    /\ Z.of_nat (length (concat groups)) <= 2 * max_additional
    /\ Forall (found_outside (ids_of documents)) groups
    /\ ForallOrdPairs disjoint_ids groups.
Proof.
  intros Hk Hm. destruct documents as [|d0 docs].
  - exists []. simpl. repeat split; try constructor; lia.
  - set (documents := d0 :: docs).
    set (refs := list_slice_to (_extract_references list_of_set documents)
                   max_additional).
    destruct (related_groups_spec refs (ids_of documents) Hk)
      as (Hlen & Hsize & Hout & Hdis).
    exists (related_groups store refs (ids_of documents)).
    pose proof (list_slice_to_length
                  (_extract_references list_of_set documents) max_additional Hm)
      as Hrefs.
    fold refs in Hrefs.
    pose proof (concat_length_le _ 2%nat Hsize) as Hcat.
    split; [reflexivity|].
    repeat split; try assumption; lia.
Qed.

(** ** Re-ranking *)

Variable llm : string -> result string.

Abbreviation rescored := (Retrieval.rescored llm).

Lemma Qlt_bool_iff a b : Qlt_bool a b = true <-> (a < b)%Q.
Proof.
  unfold Qlt_bool. rewrite negb_true_iff.
  destruct (Qle_bool b a) eqn:E.
  - apply Qle_bool_iff in E. split; [discriminate | lra].
  - split; [|reflexivity]. intros _.
    destruct (Qlt_le_dec a b) as [H|H]; [exact H|].
    apply Qle_bool_iff in H. congruence.
Qed.

Lemma clamp_score_fin v :
  ((v <= 0)%Q -> clamp_score (FFin v) = 0%Q)
  /\ ((100 <= v)%Q -> clamp_score (FFin v) = 100%Q)
  /\ ((0 < v < 100)%Q -> clamp_score (FFin v) = v).
Proof.
  unfold clamp_score.
  destruct (Qlt_bool 0 v) eqn:E0.
  - apply Qlt_bool_iff in E0.
    destruct (Qlt_bool v 100) eqn:E1.
    + apply Qlt_bool_iff in E1. split; [|split]; intros; [lra | lra | reflexivity].
    + assert (~ (v < 100)%Q) by (rewrite <- Qlt_bool_iff; congruence).
      split; [|split]; intros; [lra | reflexivity | lra].
  - assert (~ (0 < v)%Q) by (rewrite <- Qlt_bool_iff; congruence).
    change (Qlt_bool 0 100) with true. cbv iota.
    split; [|split]; intros; [reflexivity | lra | lra].
Qed.

Lemma score_document_spec query doc model_score :
  _score_document llm query doc = Ok model_score ->
  reply_score (llm (RERANK_PROMPT query (slice_to (page_content doc) 2000)))
    model_score.
Proof.
  unfold _score_document, reply_score, float_.
  destruct (llm _) as [content|e]; simpl.
  - destruct (float_of_string (strip content)) as [[|negative|v]|]; simpl.
    + now intros [= <-].
    + intros [= <-]. now destruct negative.
    + intros [= <-]. apply clamp_score_fin.
    + now intros [= <-].
  - destruct (is_ValueError e || is_TypeError e); [|discriminate].
    now intros [= <-].
Qed.

Lemma combine_scores_spec query documents reranked :
  combine_scores llm query documents = Ok reranked ->
  Forall (rescored query documents) reranked.
Proof.
  revert reranked.
  induction documents as [|[doc s0] rest IH]; intros reranked; simpl.
  - intros [= <-]. constructor.
  - destruct (_score_document llm query doc) as [ms|e] eqn:Es; [|discriminate].
    simpl. destruct (combine_scores llm query rest) as [l|e]; [|discriminate].
    simpl. intros [= <-]. constructor.
    + exists s0, ms. repeat split; simpl; auto. now apply score_document_spec.
    + eapply List.Forall_impl; [|apply (IH l eq_refl)].
      intros ds (i & m & Hin & H). exists i, m. split; [now right | exact H].
Qed.

Lemma insert_desc_In x y l : In y (insert_desc x l) -> y = x \/ In y l.
Proof.
  induction l as [|z l IH]; simpl.
  - intros [H|[]]. now left.
  - destruct (Qlt_bool (snd x) (snd z)); simpl.
    + intros [H|H]; [right; now left|]. apply IH in H as [H|H]; auto.
    + intros [H|H]; auto.
Qed.

Lemma sort_desc_In y l : In y (sort_desc l) -> In y l.
Proof.
  induction l as [|x l IH]; simpl; [tauto|].
  intros [->|H]%insert_desc_In; [now left | right; now apply IH].
Qed.

Lemma firstn_In_list {A} (y : A) n l : In y (firstn n l) -> In y l.
Proof.
  revert l. induction n as [|n IH]; intros [|x l]; simpl; try tauto.
  intros [H|H]; [now left | right; now apply IH].
Qed.

Lemma truncate_In y top_k l : In y (truncate top_k l) -> In y l.
Proof.
  unfold truncate, list_slice_to. destruct top_k as [k|]; [|tauto].
  destruct (k =? 0); [tauto|]. apply firstn_In_list.
Qed.

(** C4, as the code has it. Every candidate that [rerank] returns has the
    score 0.3 times its original score plus 0.7 times its model score over
    100, where the model score is 50 for a reply that is no number and the
    reply brought into the range 0 to 100 otherwise. *)
Theorem rerank_scores query documents top_k out :
  rerank llm query documents top_k = Ok out ->
  Forall (rescored query documents) out.
Proof.
  unfold rerank. destruct documents as [|d0 docs].
  - intros [= <-]. constructor.
  - set (documents := d0 :: docs).
    destruct (combine_scores llm query documents) as [reranked|e] eqn:E;
      [|discriminate].
    simpl. intros [= <-].
    apply combine_scores_spec in E.
    apply List.Forall_forall. intros ds Hin.
    apply truncate_In, sort_desc_In in Hin.
    now apply (proj1 (List.Forall_forall _ _) E).
Qed.

(** [rerank] returns whenever the chat model raises nothing but a
    [ValueError] or a [TypeError]. *)
Lemma rerank_returns query documents top_k :
  (forall prompt e, llm prompt = Raise e ->
                    is_ValueError e || is_TypeError e = true) ->
  exists out, rerank llm query documents top_k = Ok out.
Proof.
  intros Hllm.
  assert (forall doc, exists ms, _score_document llm query doc = Ok ms) as Hs.
  { intros doc. unfold _score_document.
    destruct (llm _) as [content|e] eqn:E; simpl.
    - unfold float_. destruct (float_of_string _); simpl; eauto.
    - rewrite (Hllm _ _ E). eauto. }
  assert (forall docs, exists l, combine_scores llm query docs = Ok l) as Hc.
  { induction docs as [|[doc s0] rest [l IH]]; simpl; [eauto|].
    destruct (Hs doc) as [ms ->]. simpl. rewrite IH. simpl. eauto. }
  unfold rerank. destruct documents as [|d0 docs]; [eauto|].
  destruct (Hc (d0 :: docs)) as [l ->]. simpl. eauto.
Qed.

End Store.

Lemma example_store_respects_k : respects_k example_store.
Proof.
  intros query k f results. unfold example_store.
  destruct (String.eqb query "section 2");
    [|destruct (String.eqb query "security requirements")];
    intros [= <-]; rewrite length_firstn; simpl length; lia.
Qed.

Lemma enrich_appends_witness :
  exists groups,
    enrich example_store elements example_documents "security requirements" 1
    = example_documents ++ List.map adjust (concat groups)
    /\ Z.of_nat (length groups) <= 1
    /\ Z.of_nat (length (concat groups)) <= 2 * 1
    /\ Forall (found_outside example_store (ids_of example_documents)) groups
    /\ ForallOrdPairs disjoint_ids groups.
Proof.
  apply (enrich_appends example_store elements example_documents
           "security requirements" 1);
    [apply example_store_respects_k | lia].
Defined.

(** C3. The bound of [max_additional] on the chunks added does not hold.
    With [max_additional] at 1, one reference is looked up and both chunks
    its search finds are appended: a list of one candidate comes back with
    three, the two added ones scored 0.8 times their similarity. *)
Lemma enrich_appends_more_than_max :
  length example_documents = 1%nat
  /\ length (enrich example_store elements example_documents
               "security requirements" 1) = 3%nat
  /\ exists d1 s1 d2 s2,
       similarity_search example_store "section 2" 2 None None
       = Ok [(d1, s1); (d2, s2)]
       /\ enrich example_store elements example_documents
            "security requirements" 1
          = example_documents ++ [(d1, (s1 * 0.8)%Q); (d2, (s2 * 0.8)%Q)].
Proof.
  split; [reflexivity|]. split; [vm_compute; reflexivity|].
  do 4 eexists. split; vm_compute; reflexivity.
Qed.

Lemma rerank_scores_witness :
  Forall (rescored (constant_llm "85") "security requirements" example_documents)
    [(chunk "a" "all data is protected, see section 2",
      (0.9 * 0.3 + 85 / 100 * 0.7)%Q)].
Proof.
  apply (rerank_scores (constant_llm "85") "security requirements"
           example_documents (Some 10)).
  reflexivity.
Defined.

(** C4, counterexample. The reply 150 lies outside the range 0 to 100, and
    the model score used is 100, not 50. *)
Lemma score_document_out_of_range :
  float_of_string (strip "150") = Some (FFin 150)
  /\ _score_document (constant_llm "150") "security requirements"
       (chunk "a" "all data is protected, see section 2") = Ok 100%Q
  /\ ~ (100 == 50)%Q.
Proof.
  split; [vm_compute; reflexivity|]. split; [vm_compute; reflexivity|].
  intros H. vm_compute in H. discriminate.
Qed.

Lemma initial_retrieval_scores_witness :
  _initial_retrieval example_store 0.3%Q "section 2" None 20
  = Ok [(chunk "b" "encryption at rest", (1 / (1 + 1))%Q)].
Proof.
  pose proof (initial_retrieval_scores example_store 0.3%Q "section 2" None 20
                [(chunk "b" "encryption at rest", 1%Q);
                 (chunk "c" "key rotation", 3%Q)]
                eq_refl) as H.
  destruct H as (_ & H & _).
  - repeat constructor; simpl; lra.
  - exact H.
Defined.

(** C8, counterexample. With a project name and no section filter, stage 1
    of [retrieve] keeps a candidate whose similarity 0.1 is below the
    threshold 0.3. *)
Lemma initial_results_below_threshold :
  exists out ds,
    initial_results example_store 10 0.3%Q "security requirements" (Some "Alpha")
    = Ok out
    /\ In ds out /\ (snd ds < 0.3)%Q.
Proof.
  eexists. eexists. split; [vm_compute; reflexivity|].
  split; [left; reflexivity|]. vm_compute. reflexivity.
Qed.

End RetrievalFacts.

(* ===================================================================== *)
(** * Facts about the workflow *)
(* ===================================================================== *)

Module WorkflowFacts.
Import Py Json Conv Models Workflow.

Section Nodes.

Variable detect_query_type : string -> result QueryType.
Variable retrieve :
  string -> option string -> option string -> bool ->
  result (list RetrievedChunk.t).
Variable analyze :
  AnalysisRequest.t -> list RetrievedChunk.t -> result AnalysisResponse.t.

Abbreviation raised_by_a_step :=
  (Workflow.raised_by_a_step detect_query_type retrieve analyze).
Abbreviation run_state :=
  (Workflow.run_state detect_query_type retrieve analyze).
Abbreviation ends_in_error_response :=
  (Workflow.ends_in_error_response detect_query_type retrieve analyze).

Lemma handle_error_Ok state msg :
  error state = Some msg ->
  exists response,
    handle_error state
    = Ok (Build_GraphState (request state) (query state) (query_type state)
            (project_filter state) (retrieved_chunks state) (context state)
            (Some response) (error state) "error_handled")
    /\ AnalysisResponse.reasoning response
       = "An error occurred during analysis: " +:+ msg
    /\ AnalysisResponse.confidence response = 0%Q
    /\ AnalysisResponse.uncertainties response = [error_note].
Proof.
  intros He. unfold handle_error, error_reasoning. rewrite He. simpl.
  eexists. split; [reflexivity|]. simpl. auto.
Qed.

Lemma failed_run_state state e :
  run_state state -> raised_by_a_step e -> run_state (failed state e).
Proof. intros [Hr _] He. split; [exact Hr|]. right. now exists e. Qed.

Lemma process_query_run_state state :
  run_state state -> run_state (process_query detect_query_type state).
Proof.
  intros [[r Hr] He]. unfold process_query. rewrite Hr.
  destruct (decide (AnalysisRequest.query_type r = GENERAL)) as [Hg|Hg].
  - destruct (detect_query_type (query state)) as [t|e] eqn:E; simpl.
    + split; simpl; [rewrite ?Hr; eauto | exact He].
    + apply failed_run_state; [split; [now rewrite Hr | exact He]|].
      left. eauto.
  - simpl. split; simpl; [rewrite ?Hr; eauto | exact He].
Qed.

Lemma retrieve_documents_run_state state :
  run_state state -> run_state (retrieve_documents retrieve state).
Proof.
  intros [[r Hr] He]. unfold retrieve_documents.
  destruct (retrieve _ _ _ _) as [chunks|e] eqn:E; simpl.
  - split; simpl; [rewrite ?Hr; eauto | exact He].
  - apply failed_run_state; [split; [now rewrite Hr | exact He]|].
    right; left. eauto.
Qed.

Lemma analyze_content_run_state state :
  run_state state -> run_state (analyze_content analyze state).
Proof.
  intros [[r Hr] He]. unfold analyze_content. rewrite Hr. simpl.
  destruct (analyze _ _) as [response|e] eqn:E; simpl.
  - split; simpl; [rewrite ?Hr; eauto | exact He].
  - apply failed_run_state; [split; [now rewrite Hr | exact He]|].
    right; right. eauto.
Qed.

Abbreviation run_from' := (run_from detect_query_type retrieve analyze).

Lemma run_from_S fuel n state :
  run_from' (S fuel) n state
  = match step detect_query_type retrieve analyze n state with
    | Raise e => Some (Raise e)
    | Ok (s, None) => Some (Ok ([n], s))
    | Ok (s, Some n') =>
        match run_from' fuel n' s with
        | Some (Ok (trace, final)) => Some (Ok (n :: trace, final))
        | other => other
        end
    end.
Proof. reflexivity. Qed.

Lemma run_from_handle_error fuel state trace final :
  run_state state ->
  nonempty (error state) = true ->
  run_from' (S fuel) n_handle_error state = Some (Ok (trace, final)) ->
  exists e response,
    raised_by_a_step e
    /\ error final = Some (exn_msg e)
    /\ response_of final = Ok response
    /\ error_response_for e response.
Proof.
  intros [_ [He|(e & Hraised & He)]] Hne; [now rewrite He in Hne|].
  destruct (handle_error_Ok state _ He) as (response & Hh & Hr & Hc & Hu).
  rewrite run_from_S. cbn [step]. rewrite Hh. cbn.
  intros [= <- <-]. exists e, response.
  repeat split; try assumption.
Qed.

Lemma run_from_analyze_content state trace final :
  run_state state ->
  run_from' 2 n_analyze_content state = Some (Ok (trace, final)) ->
  ends_in_error_response trace final.
Proof.
  intros Hs%analyze_content_run_state.
  rewrite run_from_S. cbn [step]. unfold _route_after_analysis.
  set (s := analyze_content analyze state) in *.
  destruct (nonempty (error s)) eqn:Hne.
  - destruct (run_from' 1 n_handle_error s) as [[[t f]|e]|] eqn:E;
      try discriminate.
    intros [= <- <-] _.
    now apply (run_from_handle_error 0 s t f Hs Hne E).
  - intros [= <- <-] [Hin|[]]. discriminate.
Qed.

Lemma run_from_retrieve_documents state trace final :
  run_state state ->
  run_from' 3 n_retrieve_documents state = Some (Ok (trace, final)) ->
  ends_in_error_response trace final.
Proof.
  intros Hs%retrieve_documents_run_state.
  rewrite run_from_S. cbn [step]. unfold _route_after_retrieval.
  set (s := retrieve_documents retrieve state) in *.
  destruct (nonempty (error s)) eqn:Hne.
  - destruct (run_from' 2 n_handle_error s) as [[[t f]|e]|] eqn:E;
      try discriminate.
    intros [= <- <-] _.
    now apply (run_from_handle_error 1 s t f Hs Hne E).
  - assert (match retrieved_chunks s with
            | [] => Some n_analyze_content
            | _ :: _ => Some n_analyze_content
            end = Some n_analyze_content) as -> by now destruct (retrieved_chunks s).
    destruct (run_from' 2 n_analyze_content s) as [[[t f]|e]|] eqn:E;
      try discriminate.
    intros [= <- <-] [Hin|Hin]; [discriminate|].
    now apply (run_from_analyze_content s t f Hs E).
Qed.

Lemma run_from_process_query state trace final :
  run_state state ->
  run_from' 4 n_process_query state = Some (Ok (trace, final)) ->
  ends_in_error_response trace final.
Proof.
  intros Hs%process_query_run_state.
  rewrite run_from_S. cbn [step]. unfold _route_after_query.
  set (s := process_query detect_query_type state) in *.
  destruct (nonempty (error s)) eqn:Hne.
  - destruct (run_from' 3 n_handle_error s) as [[[t f]|e]|] eqn:E;
      try discriminate.
    intros [= <- <-] _.
    now apply (run_from_handle_error 2 s t f Hs Hne E).
  - destruct (run_from' 3 n_retrieve_documents s) as [[[t f]|e]|] eqn:E;
      try discriminate.
    intros [= <- <-] [Hin|Hin]; [discriminate|].
    now apply (run_from_retrieve_documents s t f Hs E).
Qed.

Lemma initial_run_state request : run_state (initial_state request).
Proof. split; simpl; [eauto | now left]. Qed.

(** When a run passes through the error state, it returns a response:
    its reasoning is the fixed prefix followed by the message of an exception
    that one of the steps raised, its confidence is 0, and its uncertainties
    are the fixed note. *)
Theorem error_state_result request trace final :
  invoke detect_query_type retrieve analyze (initial_state request)
  = Some (Ok (trace, final)) ->
  In n_handle_error trace ->
  exists e response,
    raised_by_a_step e
    /\ error final = Some (exn_msg e)
    /\ run detect_query_type retrieve analyze request = Some (Ok response)
    /\ error_response_for e response.
Proof.
  intros Hinvoke Hin. unfold run. rewrite Hinvoke.
  destruct (run_from_process_query _ _ _ (initial_run_state request) Hinvoke Hin)
    as (e & response & He & Hf & Hr & Hresp).
  exists e, response. rewrite Hr. auto.
Qed.

(** The graph always comes to its end: no node raises, and four nodes are
    enough. *)
Lemma invoke_returns state :
  exists trace final,
    invoke detect_query_type retrieve analyze state = Some (Ok (trace, final)).
Proof.
  assert (forall fuel s, exists t f,
            run_from' (S fuel) n_handle_error s = Some (Ok (t, f))) as Hh.
  { intros fuel s. rewrite run_from_S. cbn [step]. unfold handle_error.
    cbn -[String.append]. eauto. }
  assert (forall s, exists t f,
            run_from' 2 n_analyze_content s = Some (Ok (t, f))) as Ha.
  { intros s. rewrite run_from_S. cbn [step]. unfold _route_after_analysis.
    destruct (nonempty _); [|eauto].
    destruct (Hh 0%nat (analyze_content analyze s)) as (t & f & ->). eauto. }
  assert (forall s, exists t f,
            run_from' 3 n_retrieve_documents s = Some (Ok (t, f))) as Hr.
  { intros s. rewrite run_from_S. cbn [step]. unfold _route_after_retrieval.
    destruct (nonempty _).
    - destruct (Hh 1%nat (retrieve_documents retrieve s)) as (t & f & ->). eauto.
    - destruct (Ha (retrieve_documents retrieve s)) as (t & f & H).
      destruct (retrieved_chunks _); rewrite H; eauto. }
  unfold invoke. rewrite run_from_S. cbn [step]. unfold _route_after_query.
  destruct (nonempty _).
  - destruct (Hh 2%nat (process_query detect_query_type state)) as (t & f & ->).
    eauto.
  - destruct (Hr (process_query detect_query_type state)) as (t & f & ->). eauto.
Qed.

(** A step whose exception has a message that is not empty is followed by
    the error state. *)
Lemma failed_step_routes_to_error state e :
  exn_msg e <> "" ->
  _route_after_query (failed state e) = Some n_handle_error
  /\ _route_after_retrieval (failed state e) = Some n_handle_error
  /\ _route_after_analysis (failed state e) = Some n_handle_error.
Proof.
  intros Hmsg.
  unfold _route_after_query, _route_after_retrieval, _route_after_analysis.
  simpl. destruct (exn_msg e); [congruence | auto].
Qed.

End Nodes.
Lemma error_state_result_witness :
  exists e response,
    raised_by_a_step idle_detect failing_retrieve idle_analyze e
    /\ exn_msg e = "index unavailable"
    /\ run idle_detect failing_retrieve idle_analyze example_request
       = Some (Ok response)
    /\ error_response_for e response.
Proof.
  destruct (error_state_result idle_detect failing_retrieve idle_analyze
              example_request
              [n_process_query; n_retrieve_documents; n_handle_error]
              (Build_GraphState (Some example_request)
                 "What are the security requirements?" REQUIREMENT_EXTRACTION
                 None [] ""
                 (Some (AnalysisResponse.Build []
                          "An error occurred during analysis: index unavailable"
                          [] 0 [error_note]
                          "What are the security requirements?" [] 0))
                 (Some "index unavailable") "error_handled"))
    as (e & response & H1 & H2 & H3 & H4).
  - reflexivity.
  - simpl. tauto.
  - exists e, response. simpl in H2. injection H2 as H2. auto.
Defined.

End WorkflowFacts.

Module TextFacts.
Import Py Re Text.
Local Open Scope nat_scope.
Abbreviation slen := String.length.

Lemma str_app_cons c (a b : string) : String c a +:+ b = String c (a +:+ b).
Proof. reflexivity. Qed.

Lemma str_app_nil_l (s : string) : "" +:+ s = s.
Proof. reflexivity. Qed.

Lemma str_app_nil_r (s : string) : s +:+ "" = s.
Proof. induction s as [|c s IH]; [reflexivity | now rewrite str_app_cons, IH]. Qed.

Lemma str_app_assoc (a b c : string) : (a +:+ b) +:+ c = a +:+ (b +:+ c).
Proof. induction a as [|x a IH]; [reflexivity | now rewrite !str_app_cons, IH]. Qed.

Lemma str_length_app (a b : string) : slen (a +:+ b) = slen a + slen b.
Proof. induction a as [|x a IH]; [reflexivity | rewrite str_app_cons; simpl; now rewrite IH]. Qed.

Lemma rev_app_app (a b : string) : String.rev_app a b = String.rev a +:+ b.
Proof.
  unfold String.rev. revert b. induction a as [|x a IH]; intros b; simpl.
  - reflexivity.
  - rewrite (IH (String x b)), (IH (String x "")), str_app_assoc. reflexivity.
Qed.

Lemma rev_cons c (s : string) : String.rev (String c s) = String.rev s +:+ String c "".
Proof. unfold String.rev at 1. simpl. apply rev_app_app. Qed.

Lemma all_chars_app p a b : all_chars p (a +:+ b) = all_chars p a && all_chars p b.
Proof.
  induction a as [|x a IH]; [reflexivity|].
  rewrite str_app_cons. simpl. now rewrite IH, andb_assoc.
Qed.

Lemma all_chars_drop p n s : all_chars p s = true -> all_chars p (drop n s) = true.
Proof.
  revert s. induction n as [|n IH]; intros [|c s]; simpl; auto.
  intros [_ H]%andb_true_iff. auto.
Qed.

Lemma all_chars_take p n s : all_chars p s = true -> all_chars p (take n s) = true.
Proof.
  revert s. induction n as [|n IH]; intros [|c s]; simpl; auto.
  intros [-> H]%andb_true_iff. simpl. auto.
Qed.

Lemma all_chars_impl (p q : ascii -> bool) s :
  (forall c, p c = true -> q c = true) -> all_chars p s = true -> all_chars q s = true.
Proof.
  intros Hpq. induction s as [|c s IH]; simpl; [reflexivity|].
  intros [Hc Hs]%andb_true_iff. rewrite (Hpq c Hc). auto.
Qed.

Lemma all_chars_lstrip p s : all_chars p s = true -> all_chars p (lstrip s) = true.
Proof.
  induction s as [|c s IH]; simpl; [reflexivity|].
  intros H. destruct (isspace c); [|exact H].
  apply andb_true_iff in H as [_ H]. auto.
Qed.

Lemma all_chars_rstrip p s : all_chars p s = true -> all_chars p (rstrip s) = true.
Proof.
  induction s as [|c s IH]; simpl; [reflexivity|].
  intros [Hc Hs]%andb_true_iff. specialize (IH Hs).
  destruct (rstrip s) as [|d r].
  - destruct (isspace c); simpl; [reflexivity | now rewrite Hc].
  - simpl in *. now rewrite Hc.
Qed.

Lemma str_drop_drop a b s : drop b (drop a s) = drop (a + b) s.
Proof.
  revert s. induction a as [|a IH]; intros s; simpl; [reflexivity|].
  destruct s as [|c s]; [destruct b; reflexivity | apply IH].
Qed.

Lemma lstrip_drop s : lstrip s = drop (slen s - slen (lstrip s)) s.
Proof.
  induction s as [|c s IH]; simpl; [reflexivity|].
  destruct (isspace c).
  - assert (slen (lstrip s) <= slen s) as Hle.
    { clear. induction s as [|d s IH]; simpl; [lia|]. destruct (isspace d); simpl; lia. }
    replace (S (slen s) - slen (lstrip s)) with (S (slen s - slen (lstrip s))) by lia.
    simpl. exact IH.
  - simpl. now rewrite Nat.sub_diag.
Qed.

Lemma lstrip_length s : slen (lstrip s) <= slen s.
Proof. induction s as [|d s IH]; simpl; [lia|]. destruct (isspace d); simpl; lia. Qed.

End TextFacts.

Module CleanTextFacts.
Import Py Re Chunking Text TextFacts.
Local Open Scope nat_scope.

(** The rounds of [\s*] from a state: all the whitespace ahead is read. *)
Lemma star_ws n s pos g :
  slen s <= n ->
  star_loop (exec ws) true Some n (MState s pos g)
  = Some (MState (lstrip s) (pos + (slen s - slen (lstrip s))) g).
Proof.
  revert s pos. induction n as [|n IH]; intros s pos Hn.
  - destruct s; [|simpl in Hn; lia]. simpl. now rewrite Nat.add_0_r.
  - cbn [star_loop]. destruct s as [|c s].
    + simpl. now rewrite Nat.add_0_r.
    + cbn [exec ws m_rest m_pos m_grp]. simpl lstrip. destruct (isspace c) eqn:Ec.
      * assert ((pos <? S pos) = true) as -> by (apply Nat.ltb_lt; lia).
        rewrite IH by (simpl in Hn; lia).
        pose proof (lstrip_length s). f_equal. f_equal. simpl. lia.
      * simpl. rewrite Nat.sub_diag, Nat.add_0_r. reflexivity.
Qed.

Lemma match_at_ws s pos :
  match_at (Plus true ws) s pos
  = match s with
    | String c s' =>
        if isspace c
        then Some (MState (lstrip s') (S pos + (slen s' - slen (lstrip s'))) None)
        else None
    | EmptyString => None
    end.
Proof.
  unfold match_at, Plus. cbn [exec ws m_rest m_pos m_grp].
  destruct s as [|c s]; [reflexivity|].
  destruct (isspace c); [|reflexivity].
  now apply star_ws.
Qed.

(** The first match of [\s+] from an index: what lies before it has no
    whitespace, and the match is not empty. *)
Lemma search_ws s pos :
  match search (Plus true ws) s pos with
  | None => all_chars not_space s = true
  | Some (a, m) =>
      exists j k, a = pos + j /\ all_chars not_space (take j s) = true
                  /\ m_rest m = drop (j + k) s /\ m_pos m = pos + j + k
                  /\ 0 < k /\ j + k <= slen s
  end.
Proof.
  revert pos. induction s as [|c s IH]; intros pos.
  - reflexivity.
  - cbn [search]. rewrite match_at_ws. destruct (isspace c) eqn:Ec.
    + exists 0, (S (slen s - slen (lstrip s))).
      pose proof (lstrip_length s).
      repeat split; simpl; try lia.
      * apply lstrip_drop.
    + specialize (IH (S pos)). destruct (search (Plus true ws) s (S pos)) as [[a m]|].
      * destruct IH as (j & k & -> & Hj & Hr & Hp & Hk & Hle).
        exists (S j), k. repeat split; simpl; try lia; auto.
        unfold not_space at 1. now rewrite Ec.
      * simpl. unfold not_space at 1. now rewrite Ec.
Qed.

Lemma not_space_plain c : not_space c = true -> plain_space c = true.
Proof. unfold not_space, plain_space. now intros ->. Qed.

(** After [re.sub(r"\s+", " ", text)] every whitespace character is a
    plain space. *)
Lemma sub_ws_go fuel text pos :
  slen (drop pos text) < fuel ->
  all_chars plain_space
    (sub_go text (finditer_go fuel (Plus true ws) (drop pos text) pos) pos
       (fun _ => " ")) = true.
Proof.
  revert pos. induction fuel as [|fuel IH]; intros pos Hf; [lia|].
  cbn [finditer_go].
  pose proof (search_ws (drop pos text) pos) as Hs.
  destruct (search (Plus true ws) (drop pos text) pos) as [[a m]|].
  - destruct Hs as (j & k & -> & Hj & Hr & Hp & Hk & Hle).
    assert ((pos + j <? m_pos m) = true) as -> by (apply Nat.ltb_lt; lia).
    cbn [sub_go]. rewrite !all_chars_app.
    unfold substr. replace (pos + j - pos) with j by lia.
    rewrite (all_chars_impl _ _ _ not_space_plain Hj).
    change (all_chars plain_space " ") with true. cbn [andb].
    rewrite Hr, Hp, str_drop_drop.
    replace (pos + (j + k)) with (pos + j + k) by lia.
    apply IH. rewrite !JsonFacts.drop_length in *. lia.
  - cbn [sub_go]. now apply (all_chars_impl _ _ _ not_space_plain).
Qed.

Lemma sub_ws_plain text :
  all_chars plain_space (sub (Plus true ws) (fun _ => " ") text) = true.
Proof. unfold sub, finditer. apply (sub_ws_go _ text 0). simpl. lia. Qed.

(** A substitution whose replacement is empty adds no character. *)
Lemma sub_go_all_chars p text ms from :
  all_chars p text = true ->
  all_chars p (sub_go text ms from (fun _ => "")) = true.
Proof.
  intros Ht. revert from. induction ms as [|[a m] ms IH]; intros from; cbn [sub_go].
  - now apply all_chars_drop.
  - rewrite !all_chars_app, IH. unfold substr.
    rewrite all_chars_take by now apply all_chars_drop. reflexivity.
Qed.

Lemma clean_text_plain text : all_chars plain_space (_clean_text text) = true.
Proof.
  unfold _clean_text, strip.
  apply all_chars_rstrip, all_chars_lstrip.
  unfold sub at 1. apply sub_go_all_chars, sub_ws_plain.
Qed.

End CleanTextFacts.

Module SectionFacts.
Import Py Re Chunking Text TextFacts CleanTextFacts.
Local Open Scope nat_scope.

(** [split] by one character, joined again by it, is the text. *)
Lemma split_go_nonempty sep s skip cur : split_go sep s skip cur <> [].
Proof.
  revert skip cur. induction s as [|c s IH]; intros skip cur; simpl; [discriminate|].
  destruct skip; [|apply IH]. destruct (startswith _ _); [discriminate | apply IH].
Qed.

Lemma join_cons sep x l : l <> [] -> join sep (x :: l) = x +:+ sep +:+ join sep l.
Proof. destruct l; [congruence | reflexivity]. Qed.

Lemma startswith_char c d s : startswith (String d s) (String c "") = Ascii.eqb c d.
Proof. simpl. now destruct (Ascii.eqb c d). Qed.

Lemma split_go_char c s cur :
  join (String c "") (split_go (String c "") s 0 cur) = String.rev cur +:+ s
  /\ length (split_go (String c "") s 0 cur) = S (count_char c s).
Proof.
  revert cur. induction s as [|d s IH]; intros cur.
  - simpl. now rewrite str_app_nil_r.
  - cbn [split_go]. rewrite startswith_char. cbn [count_char].
    destruct (Ascii.eqb c d) eqn:E.
    + apply Ascii.eqb_eq in E as <-. simpl String.length. simpl Nat.sub.
      destruct (IH "") as [Hj Hl].
      rewrite join_cons by apply split_go_nonempty.
      rewrite Hj. simpl length. rewrite Hl. split; reflexivity.
    + destruct (IH (String d cur)) as [Hj Hl].
      rewrite Hj, Hl, rev_cons, str_app_assoc. split; reflexivity.
Qed.

Lemma join_split_char c s : join (String c "") (split s (String c "")) = s.
Proof. unfold split. now destruct (split_go_char c s "") as [-> _]. Qed.

Lemma split_length_char c s :
  length (split s (String c "")) = S (count_char c s).
Proof. unfold split. now destruct (split_go_char c s "") as [_ ->]. Qed.

(** A text without the separator is one piece. *)
Lemma split_go_absent c s cur :
  count_char c s = 0 -> split_go (String c "") s 0 cur = [String.rev cur +:+ s].
Proof.
  revert cur. induction s as [|d s IH]; intros cur; cbn [count_char split_go].
  - now rewrite str_app_nil_r.
  - rewrite startswith_char. destruct (Ascii.eqb c d); [discriminate|].
    simpl. intros H. now rewrite IH, rev_cons, str_app_assoc.
Qed.

Lemma split_absent c s : count_char c s = 0 -> split s (String c "") = [s].
Proof. intros H. unfold split. now rewrite split_go_absent. Qed.

Lemma plain_no_newline s :
  all_chars plain_space s = true -> count_char (chr 10) s = 0.
Proof.
  induction s as [|c s IH]; cbn [count_char all_chars]; [reflexivity|].
  intros [Hc Hs]%andb_true_iff. rewrite (IH Hs).
  destruct (Ascii.eqb (chr 10) c) eqn:E; [|reflexivity].
  apply Ascii.eqb_eq in E as <-. discriminate Hc.
Qed.

Lemma sections_one_line line :
  sections_loop [line] (OpenSection "Introduction" "0" [] []) []
  = match _match_section line with
    | Some _ => []
    | None => [Section_ "Introduction" "0" line []]
    end.
Proof. cbn [sections_loop]. now destruct (_match_section line). Qed.

(** A cleaned text is one line. *)
Lemma identify_sections_one_line text :
  _identify_sections (_clean_text text)
  = match _match_section (_clean_text text) with
    | Some _ => []
    | None => [Section_ "Introduction" "0" (_clean_text text) []]
    end.
Proof.
  unfold _identify_sections, nl.
  rewrite split_absent by apply plain_no_newline, clean_text_plain.
  apply sections_one_line.
Qed.

(** X1. In a text cleaned by [_clean_text] every whitespace
    character is a plain space (tabs, line breaks and the like are gone), and
    the text neither starts nor ends with whitespace. *)
Theorem clean_text_whitespace text :
  all_chars plain_space (_clean_text text) = true
  /\ strip (_clean_text text) = _clean_text text.
Proof.
  split; [apply clean_text_plain|].
  unfold _clean_text. apply ParserFacts.strip_idem.
Qed.

(** X2. [split] looks for sections in the cleaned text,
    which has no line break and so is a single line: when that line is a
    section header no section is found, and otherwise the whole text is the
    one implicit section "Introduction", numbered 0, with no hierarchy.  No
    text gives a numbered section. *)
Theorem identify_sections_cleaned text :
  let cleaned := _clean_text text in
  _identify_sections cleaned
  = match _match_section cleaned with
    | Some _ => []
    | None => [Section_ "Introduction" "0" cleaned []]
    end.
Proof. apply identify_sections_one_line. Qed.

(** X3. What [HierarchicalChunkingStrategy.split] returns for a
    text: when the cleaned text is a section header, the pieces of the
    fallback splitter with the caller's metadata; otherwise nothing for a
    cleaned text of fewer than 50 characters, the cleaned text as one chunk
    when it fits the chunk size, and else the pieces of the splitter; each
    such chunk is filed under the section "Introduction", numbered 0. *)
Theorem split_text_cases chunk_size create_documents text metadata :
  let cleaned := _clean_text text in
  let pieces := create_documents cleaned in
  split_text chunk_size create_documents text metadata
  = match _match_section cleaned with
    | Some _ => List.map (fun piece => Chunk piece (default ∅ metadata) None) pieces
    | None =>
        let entries := Some ("Introduction", "0", []) in
        if (len cleaned <? 50)%Z then []
        else if (len cleaned <=? chunk_size)%Z
             then [Chunk cleaned (default ∅ metadata) entries]
             else List.map (fun piece => Chunk piece (default ∅ metadata) entries)
                    pieces
    end.
Proof.
  intros cleaned pieces. unfold split_text. fold cleaned.
  unfold cleaned at 1. rewrite identify_sections_one_line. fold cleaned.
  destruct (_match_section cleaned); [reflexivity|].
  cbn [List.map concat]. rewrite List.app_nil_r.
  unfold _chunk_section. cbn [content title number hierarchy].
  destruct (String.eqb cleaned "") eqn:E.
  - apply String.eqb_eq in E. rewrite E. reflexivity.
  - simpl orb. reflexivity.
Qed.

(** ** The hierarchy of a section number *)

Lemma join_app sep (a b : list string) :
  a <> [] -> b <> [] ->
  join sep (a ++ b) = join sep a +:+ sep +:+ join sep b.
Proof.
  intros Ha Hb. induction a as [|x a IH]; [congruence|].
  destruct a as [|y a].
  - cbn [app]. now rewrite join_cons.
  - change ((x :: y :: a) ++ b) with (x :: ((y :: a) ++ b)).
    rewrite !join_cons by discriminate.
    rewrite IH by discriminate. now rewrite !str_app_assoc.
Qed.

(** The text of the first items of a list is a prefix of the text of the
    list. *)
Lemma join_firstn_prefix sep n (l : list string) :
  (0 < n)%nat -> startswith (join sep l) (join sep (firstn n l)) = true.
Proof.
  intros Hn. apply PyFacts.startswith_spec.
  destruct (skipn n l) as [|y rest] eqn:E.
  - exists "". rewrite str_app_nil_r. f_equal.
    rewrite <- (firstn_skipn n l) at 1. rewrite E. apply List.app_nil_r.
  - destruct l as [|x l]; [now destruct n|].
    exists (sep +:+ join sep (y :: rest)).
    rewrite <- (firstn_skipn n (x :: l)) at 1. rewrite E.
    apply join_app; [|discriminate].
    destruct n; [lia | discriminate].
Qed.

(** X4. The hierarchy of a section number that is not empty
    has one level per dotted component, each level is a prefix of the
    number, and the last level is the number itself. *)
Theorem build_hierarchy_levels section_number :
  section_number <> "" ->
  length (_build_hierarchy section_number) = S (count_char "." section_number)
  /\ Forall (fun level => startswith section_number level = true)
       (_build_hierarchy section_number)
  /\ last (_build_hierarchy section_number) = Some section_number.
Proof.
  intros Hne. unfold _build_hierarchy.
  destruct section_number as [|c n]; [congruence|].
  set (s := String c n). set (parts := split s ".").
  assert (length parts = S (count_char "." s)) as Hlen by apply split_length_char.
  assert (join "." parts = s) as Hjoin by apply join_split_char.
  split; [|split].
  - now rewrite length_map, length_seq.
  - apply List.Forall_map, List.Forall_forall. intros i _.
    rewrite <- Hjoin at 1. apply join_firstn_prefix. lia.
  - rewrite Hlen, seq_S, map_app. cbn [map]. rewrite last_snoc.
    change (0 + count_char "." s) with (count_char "." s).
    rewrite <- Hlen, firstn_all. f_equal. exact Hjoin.
Qed.

Lemma build_hierarchy_levels_witness :
  length (_build_hierarchy "2.1.3") = 3
  /\ Forall (fun level => startswith "2.1.3" level = true)
       (_build_hierarchy "2.1.3")
  /\ last (_build_hierarchy "2.1.3") = Some "2.1.3".
Proof. apply (build_hierarchy_levels "2.1.3"). discriminate. Defined.

End SectionFacts.

Module RerankFacts.
Import Py Json Conv Retrieval Rerankers RetrievalFacts.

Lemma Qlt_bool_false a b : Qlt_bool a b = false <-> (b <= a)%Q.
Proof.
  unfold Qlt_bool. rewrite negb_false_iff. apply Qle_bool_iff.
Qed.

(** Insertions of two candidates with different scores commute. *)
Lemma insert_desc_comm x y l :
  (snd x < snd y)%Q ->
  insert_desc y (insert_desc x l) = insert_desc x (insert_desc y l).
Proof.
  intros Hxy.
  assert (Qlt_bool (snd y) (snd x) = false) as Hyx by (apply Qlt_bool_false; lra).
  assert (Qlt_bool (snd x) (snd y) = true) as Hxy' by (now apply Qlt_bool_iff).
  induction l as [|z l IH]; cbn [insert_desc].
  - now rewrite Hyx, Hxy'.
  - destruct (Qlt_bool (snd x) (snd z)) eqn:Exz;
      destruct (Qlt_bool (snd y) (snd z)) eqn:Eyz;
      repeat (cbn [insert_desc]; rewrite ?Exz, ?Eyz, ?Hyx, ?Hxy');
      try reflexivity.
    + now rewrite IH.
    + apply Qlt_bool_false in Exz. apply Qlt_bool_iff in Eyz. lra.
Qed.

Lemma foldr_insert_insert acc x l :
  foldr insert_desc acc (insert_desc x l) = insert_desc x (foldr insert_desc acc l).
Proof.
  induction l as [|y l IH]; cbn [insert_desc foldr]; [reflexivity|].
  destruct (Qlt_bool (snd x) (snd y)) eqn:E; cbn [foldr]; [|reflexivity].
  rewrite IH. apply insert_desc_comm. now apply Qlt_bool_iff.
Qed.

Lemma foldr_insert_sort acc l :
  foldr insert_desc acc (sort_desc l) = foldr insert_desc acc l.
Proof.
  induction l as [|x l IH]; [reflexivity|].
  unfold sort_desc in *. cbn [foldr]. now rewrite foldr_insert_insert, IH.
Qed.

Lemma sort_desc_app l1 l2 :
  sort_desc (l1 ++ l2) = foldr insert_desc (sort_desc l2) l1.
Proof. unfold sort_desc. apply foldr_app. Qed.

(** Sorting sorted batches, put one after the other, sorts the whole. *)
Lemma sort_desc_batches l1 r r' :
  sort_desc r' = sort_desc r ->
  sort_desc (sort_desc l1 ++ r') = sort_desc (l1 ++ r).
Proof. intros H. now rewrite !sort_desc_app, foldr_insert_sort, H. Qed.


(** ** The order of the result *)

Lemma insert_desc_descending x l : descending l -> descending (insert_desc x l).
Proof.
  unfold descending. induction 1 as [|z l Hl IH Hz]; cbn [insert_desc].
  - repeat constructor.
  - destruct (Qlt_bool (snd x) (snd z)) eqn:E.
    + apply Qlt_bool_iff in E. constructor; [exact IH|].
      apply List.Forall_forall. intros y [->|Hy]%insert_desc_In; [lra|].
      now apply (proj1 (List.Forall_forall _ _) Hz).
    + apply Qlt_bool_false in E. constructor; [now constructor|].
      constructor; [exact E|].
      eapply List.Forall_impl; [|exact Hz]. intros y Hy. simpl in Hy. lra.
Qed.

Lemma sort_desc_descending l : descending (sort_desc l).
Proof.
  induction l as [|x l IH]; [constructor|].
  now apply insert_desc_descending.
Qed.

Lemma firstn_descending n l : descending l -> descending (firstn n l).
Proof.
  unfold descending. intros H. revert n.
  induction H as [|z l Hl IH Hz]; intros [|n]; cbn [firstn]; try constructor.
  - apply IH.
  - apply List.Forall_forall. intros y Hy%firstn_In_list.
    now apply (proj1 (List.Forall_forall _ _) Hz).
Qed.

Lemma truncate_descending top_k l : descending l -> descending (truncate top_k l).
Proof.
  intros H. unfold truncate, list_slice_to. destruct top_k as [k|]; [|exact H].
  destruct (k =? 0); [exact H|]. now apply firstn_descending.
Qed.

Lemma insert_desc_length x l : length (insert_desc x l) = S (length l).
Proof.
  induction l as [|z l IH]; cbn [insert_desc]; [reflexivity|].
  destruct (Qlt_bool _ _); simpl; [now rewrite IH | reflexivity].
Qed.

Lemma sort_desc_length l : length (sort_desc l) = length l.
Proof.
  induction l as [|x l IH]; [reflexivity|].
  unfold sort_desc in *. cbn [foldr]. now rewrite insert_desc_length, IH.
Qed.

(** What [if top_k: reranked = reranked[:top_k]] keeps: everything for no
    limit and for a limit of 0, the first [k] for a limit above 0. *)
Lemma truncate_length top_k l :
  (top_k = None \/ top_k = Some 0 -> length (truncate top_k l) = length l)
  /\ (forall k, top_k = Some k -> 0 < k ->
      Z.of_nat (length (truncate top_k l)) = Z.min k (Z.of_nat (length l))).
Proof.
  split.
  - intros [->| ->]; reflexivity.
  - intros k -> Hk. unfold truncate, list_slice_to, slice_index.
    assert ((k =? 0) = false) as -> by (apply Z.eqb_neq; lia).
    assert ((k <? 0) = false) as -> by (apply Z.ltb_ge; lia).
    rewrite length_firstn. lia.
Qed.

Section ReRanker.

Variable llm : string -> result string.

Lemma combine_scores_app query l1 l2 :
  combine_scores llm query (l1 ++ l2)
  = (a ← combine_scores llm query l1;
     b ← combine_scores llm query l2;
     Ok (a ++ b)).
Proof.
  induction l1 as [|[doc s0] l1 IH]; cbn [app combine_scores].
  - simpl. now destruct (combine_scores llm query l2).
  - destruct (_score_document llm query doc) as [ms|e]; [|reflexivity].
    simpl. rewrite IH.
    destruct (combine_scores llm query l1) as [a|e]; [|reflexivity].
    simpl. now destruct (combine_scores llm query l2).
Qed.

Lemma rerank_None query documents :
  rerank llm query documents None
  = (reranked ← combine_scores llm query documents; Ok (sort_desc reranked)).
Proof. destruct documents; reflexivity. Qed.

(** The batches, one after the other, are the candidates. *)
Lemma batches_concat {A} (l : list A) (batch_size : Z) fuel i :
  0 < batch_size -> 0 <= i ->
  Z.of_nat (length l) - i <= Z.of_nat fuel ->
  concat (List.map (fun i => list_slice l i (i + batch_size))
            (range_from fuel i (Z.of_nat (length l)) batch_size))
  = skipn (Z.to_nat i) l.
Proof.
  intros Hb. revert i. induction fuel as [|fuel IH]; intros i Hi Hf.
  - simpl. rewrite skipn_all2; [reflexivity | lia].
  - cbn [range_from]. destruct (i <? Z.of_nat (length l)) eqn:E.
    + apply Z.ltb_lt in E. cbn [List.map concat].
      rewrite IH by lia. unfold list_slice, slice_index.
      assert ((i <? 0) = false) as -> by (apply Z.ltb_ge; lia).
      assert ((i + batch_size <? 0) = false) as -> by (apply Z.ltb_ge; lia).
      rewrite (Z.min_l i) by lia.
      destruct (Z.le_gt_cases (i + batch_size) (Z.of_nat (length l))) as [H|H].
      * rewrite Z.min_l by lia.
        replace (i + batch_size - i) with batch_size by lia.
        rewrite Z2Nat.inj_add by lia.
        rewrite Nat.add_comm, <- skipn_skipn. apply firstn_skipn.
      * rewrite Z.min_r by lia.
        rewrite firstn_all2 by (rewrite length_skipn; lia).
        rewrite (skipn_all2 (n := Z.to_nat (i + batch_size))) by lia.
        apply List.app_nil_r.
    + apply Z.ltb_ge in E. simpl. rewrite skipn_all2; [reflexivity | lia].
Qed.

Lemma batches_loop_spec query documents batch_size starts :
  match combine_scores llm query
          (concat (List.map (fun i => list_slice documents i (i + batch_size))
                     starts)) with
  | Raise e => batches_loop llm query documents batch_size starts = Raise e
  | Ok r =>
      exists r', batches_loop llm query documents batch_size starts = Ok r'
                 /\ sort_desc r' = sort_desc r
  end.
Proof.
  induction starts as [|i starts IH]; cbn [List.map concat batches_loop].
  - simpl. now exists [].
  - rewrite combine_scores_app, rerank_None.
    destruct (combine_scores llm query (list_slice documents i (i + batch_size)))
      as [a|e]; [|reflexivity].
    simpl.
    destruct (combine_scores llm query _) as [c|e].
    + destruct IH as (r' & -> & Hr). simpl.
      exists (sort_desc a ++ r'). split; [reflexivity|].
      now apply sort_desc_batches.
    + rewrite IH. reflexivity.
Qed.

(** X6. With a batch size of at least one, [batch_rerank] returns
    what [rerank] without a limit returns for the whole list: the same
    candidates in the same order, or the same exception. *)
Theorem batch_rerank_eq query documents batch_size :
  0 < batch_size ->
  batch_rerank llm query documents batch_size = rerank llm query documents None.
Proof.
  intros Hb. unfold batch_rerank.
  destruct (Z.of_nat (length documents) <=? batch_size); [reflexivity|].
  unfold range.
  assert ((batch_size =? 0) = false) as -> by (apply Z.eqb_neq; lia).
  assert ((batch_size <? 0) = false) as -> by (apply Z.ltb_ge; lia).
  cbn [mbind result_bind bind].
  pose proof (batches_loop_spec query documents batch_size
                (range_from (Z.to_nat (Z.of_nat (length documents))) 0
                   (Z.of_nat (length documents)) batch_size)) as H.
  rewrite batches_concat in H by lia.
  change (skipn (Z.to_nat 0) documents) with documents in H.
  rewrite rerank_None.
  destruct (combine_scores llm query documents) as [r|e].
  - destruct H as (r' & -> & Hr). simpl. now rewrite Hr.
  - rewrite H. reflexivity.
Qed.

(** X7. A batch size below one loses the candidates: a negative
    size gives the empty list whatever the candidates are, and the size 0
    with at least one candidate raises the [ValueError] of [range]. *)
Theorem batch_rerank_no_batch query documents batch_size :
  (batch_size < 0 -> batch_rerank llm query documents batch_size = Ok [])
  /\ (batch_size = 0 -> documents <> [] ->
      batch_rerank llm query documents batch_size
      = Raise (Exn ValueError "range() arg 3 must not be zero")).
Proof.
  unfold batch_rerank, range. split.
  - intros Hb.
    assert ((Z.of_nat (length documents) <=? batch_size) = false) as ->
      by (apply Z.leb_gt; lia).
    assert ((batch_size =? 0) = false) as -> by (apply Z.eqb_neq; lia).
    assert ((batch_size <? 0) = true) as -> by (apply Z.ltb_lt; lia).
    reflexivity.
  - intros -> Hd.
    assert ((Z.of_nat (length documents) <=? 0) = false) as ->.
    { apply Z.leb_gt. destruct documents; [congruence | simpl; lia]. }
    reflexivity.
Qed.

Lemma combine_scores_length query documents reranked :
  combine_scores llm query documents = Ok reranked ->
  length reranked = length documents.
Proof.
  revert reranked. induction documents as [|[doc s0] rest IH]; intros out; simpl.
  - now intros [= <-].
  - destruct (_score_document llm query doc); [|discriminate]. simpl.
    destruct (combine_scores llm query rest) as [l|e]; [|discriminate].
    simpl. intros [= <-]. simpl. now rewrite (IH l eq_refl).
Qed.

(** X5. The result of [rerank] is in descending order of
    score; a limit above 0 keeps the first [top_k] candidates of that order,
    while no limit and a limit of 0 keep them all. *)
Theorem rerank_descending query documents top_k out :
  rerank llm query documents top_k = Ok out ->
  descending out
  /\ (top_k = None \/ top_k = Some 0 -> length out = length documents)
  /\ (forall k, top_k = Some k -> 0 < k ->
      Z.of_nat (length out) = Z.min k (Z.of_nat (length documents))).
Proof.
  unfold rerank. destruct documents as [|d0 docs].
  - intros [= <-]. split; [constructor|]. split; [reflexivity|].
    intros k _ Hk. simpl. lia.
  - set (documents := d0 :: docs).
    destruct (combine_scores llm query documents) as [reranked|e] eqn:E;
      [|discriminate].
    simpl. intros [= <-].
    apply combine_scores_length in E.
    destruct (truncate_length top_k (sort_desc reranked)) as [H0 Hk].
    rewrite sort_desc_length, E in H0, Hk.
    split; [apply truncate_descending, sort_desc_descending|].
    split; assumption.
Qed.

End ReRanker.

Lemma batch_rerank_eq_witness :
  batch_rerank (constant_llm "85") "security" example_candidates 2
  = rerank (constant_llm "85") "security" example_candidates None.
Proof.
  apply (batch_rerank_eq (constant_llm "85") "security" example_candidates 2).
  lia.
Defined.

Lemma batch_rerank_no_batch_witness :
  batch_rerank (constant_llm "85") "security" example_candidates (-1) = Ok []
  /\ batch_rerank (constant_llm "85") "security" example_candidates 0
     = Raise (Exn ValueError "range() arg 3 must not be zero").
Proof.
  split.
  - apply (batch_rerank_no_batch (constant_llm "85") "security"
             example_candidates (-1)). lia.
  - apply (batch_rerank_no_batch (constant_llm "85") "security"
             example_candidates 0); [reflexivity | discriminate].
Defined.

Lemma rerank_descending_witness :
  exists out,
    rerank (constant_llm "85") "security" example_candidates (Some 2) = Ok out
    /\ descending out /\ length out = 2%nat.
Proof.
  destruct (rerank (constant_llm "85") "security" example_candidates (Some 2))
    as [out|e] eqn:E; [|vm_compute in E; discriminate].
  destruct (rerank_descending (constant_llm "85") "security" example_candidates
              (Some 2) out E) as (Hd & _ & Hk).
  exists out. split; [reflexivity|]. split; [exact Hd|].
  specialize (Hk 2 eq_refl). simpl in Hk. lia.
Defined.

(** ** The keyword re-ranker *)

Lemma overlap_range query_terms doc_terms :
  (0 <= overlap query_terms doc_terms <= 1)%Q.
Proof.
  unfold overlap. destruct (decide (query_terms = ∅)) as [|Hne]; [lra|].
  assert (size (query_terms ∩ doc_terms) <= size query_terms)%nat as Hle.
  { apply subseteq_size. apply intersection_subseteq_l. }
  assert (size query_terms <> 0)%nat as Hpos.
  { intros Hz. apply size_empty_inv in Hz. apply Hne. now apply leibniz_equiv. }
  set (a := size (query_terms ∩ doc_terms)) in *.
  set (b := size query_terms) in *.
  assert (0 < inject_Z (Z.of_nat b))%Q as Hb.
  { change 0%Q with (inject_Z 0). rewrite <- Zlt_Qlt. lia. }
  split.
  - apply Qle_shift_div_l; [exact Hb|]. rewrite Qmult_0_l.
    change 0%Q with (inject_Z 0). rewrite <- Zle_Qle. lia.
  - apply Qle_shift_div_r; [exact Hb|]. rewrite Qmult_1_l.
    rewrite <- Zle_Qle. lia.
Qed.

(** X8. [SimpleReRanker.rerank] returns its candidates in
    descending order of score; each score is half the original score plus
    half an overlap that lies between 0 and 1, so original scores between 0
    and 1 give scores between 0 and 1. *)
Theorem simple_rerank_scores query documents top_k :
  let out := simple_rerank query documents top_k in
  descending out
  /\ Forall (fun ds : scored =>
              exists initial_score o,
                In (fst ds, initial_score) documents
                /\ (0 <= o <= 1)%Q
                /\ snd ds = (initial_score * 0.5 + o * 0.5)%Q) out
  /\ (Forall (fun ds : scored => (0 <= snd ds <= 1)%Q) documents ->
      Forall (fun ds : scored => (0 <= snd ds <= 1)%Q) out).
Proof.
  intros out. unfold out, simple_rerank.
  assert (forall ds, In ds (truncate top_k
            (sort_desc (List.map (keyword_score (terms query)) documents))) ->
          exists d0, In d0 documents /\ ds = keyword_score (terms query) d0) as Hin.
  { intros ds Hds. apply truncate_In, sort_desc_In, in_map_iff in Hds.
    destruct Hds as (d0 & <- & Hd0). eauto. }
  split; [apply truncate_descending, sort_desc_descending|]. split.
  - apply List.Forall_forall. intros ds (d0 & Hd & ->)%Hin.
    exists (snd d0), (overlap (terms query) (terms (page_content (fst d0)))).
    split; [now destruct d0|]. split; [apply overlap_range | reflexivity].
  - intros Hr. apply List.Forall_forall. intros ds (d0 & Hd & ->)%Hin.
    apply (proj1 (List.Forall_forall _ _) Hr) in Hd.
    pose proof (overlap_range (terms query) (terms (page_content (fst d0)))).
    unfold keyword_score. simpl. lra.
Qed.

End RerankFacts.

Module DecimalFacts.
Import Py Json Conv Text TextFacts.

Lemma digits_value_acc d acc :
  digits_value (NilEmpty.string_of_uint d) (Z.pos acc)
  = Z.pos (Pos.of_uint_acc d acc).
Proof.
  revert acc.
  induction d; intros acc;
    cbn [NilEmpty.string_of_uint digits_value Pos.of_uint_acc];
    try reflexivity; rewrite <- IHd; f_equal; simpl; lia.
Qed.

Lemma digits_value_uint d :
  digits_value (NilEmpty.string_of_uint d) 0 = Z.of_N (Pos.of_uint d).
Proof.
  induction d; cbn [NilEmpty.string_of_uint digits_value Pos.of_uint];
    try reflexivity; try exact IHd;
    simpl Z.add; apply digits_value_acc.
Qed.

Lemma uint_digits d : all_chars isdecimal (NilEmpty.string_of_uint d) = true.
Proof. induction d; simpl; auto. Qed.

(** A text of digits is read whole. *)
Lemma span_udigits_digits s :
  all_chars isdecimal s = true -> span_udigits s = (s, "").
Proof.
  induction s as [|c s IH]; [reflexivity|].
  cbn [all_chars]. intros [Hc Hs]%andb_true_iff.
  cbn [span_udigits]. rewrite Hc, (IH Hs).
  destruct s as [|d t]; [reflexivity|].
  cbn [all_chars] in Hs. apply andb_true_iff in Hs as [Hd _].
  destruct d as [[] [] [] [] [] [] [] []]; try discriminate Hd; reflexivity.
Qed.

Lemma lstrip_digits s : all_chars isdecimal s = true -> lstrip s = s.
Proof.
  destruct s as [|c s]; [reflexivity|]. cbn [all_chars lstrip].
  intros [Hc _]%andb_true_iff.
  destruct c as [[] [] [] [] [] [] [] []]; try discriminate Hc; reflexivity.
Qed.

Lemma rstrip_digits s : all_chars isdecimal s = true -> rstrip s = s.
Proof.
  induction s as [|c s IH]; [reflexivity|]. cbn [all_chars rstrip].
  intros [Hc Hs]%andb_true_iff. rewrite (IH Hs).
  destruct s; [|reflexivity].
  destruct c as [[] [] [] [] [] [] [] []]; try discriminate Hc; reflexivity.
Qed.

Lemma int_of_digits s :
  s <> "" -> all_chars isdecimal s = true ->
  int_of_string s = Some (digits_value s 0)
  /\ int_of_string (String "-" s) = Some (- digits_value s 0).
Proof.
  intros Hne Hs. unfold int_of_string, strip.
  assert (rstrip (String "-" s) = String "-" s) as Hr.
  { cbn [rstrip]. rewrite (rstrip_digits s Hs). now destruct s. }
  split.
  - rewrite (lstrip_digits s Hs), (rstrip_digits s Hs).
    destruct s as [|c s]; [congruence|].
    assert (take_sign (String c s) = (false, String c s)) as ->.
    { cbn [all_chars] in Hs. apply andb_true_iff in Hs as [Hc _].
      destruct c as [[] [] [] [] [] [] [] []]; try discriminate Hc; reflexivity. }
    cbv beta iota. rewrite (span_udigits_digits _ Hs). reflexivity.
  - change (lstrip (String "-" s)) with (String "-" s). rewrite Hr.
    change (take_sign (String "-" s)) with (true, s). cbv beta iota.
    rewrite (span_udigits_digits _ Hs).
    destruct s; [congruence | reflexivity].
Qed.

Lemma string_of_uint_nonempty d :
  d <> Decimal.Nil -> NilEmpty.string_of_uint d <> "".
Proof. destruct d; simpl; congruence. Qed.

Lemma nilzero_nonnil d :
  d <> Decimal.Nil -> NilZero.string_of_uint d = NilEmpty.string_of_uint d.
Proof. destruct d; simpl; congruence. Qed.

(** [int(str(z))] is [z]. *)
Lemma int_of_str z : int_of_string (str_of_Z z) = Some z.
Proof.
  unfold str_of_Z. pose proof (DecimalZ.of_to z) as Hz.
  destruct z as [|p|p]; cbn [Z.to_int NilZero.string_of_int] in *.
  - reflexivity.
  - pose proof (Unsigned.to_uint_nonnil p) as Hn.
    rewrite (nilzero_nonnil _ Hn).
    destruct (int_of_digits _ (string_of_uint_nonempty _ Hn) (uint_digits _))
      as [-> _].
    rewrite digits_value_uint. f_equal. exact Hz.
  - pose proof (Unsigned.to_uint_nonnil p) as Hn.
    rewrite (nilzero_nonnil _ Hn).
    destruct (int_of_digits _ (string_of_uint_nonempty _ Hn) (uint_digits _))
      as [_ ->].
    rewrite digits_value_uint. f_equal. exact Hz.
Qed.

(** The text of an integer has digits and at most a leading minus sign. *)
Lemma str_of_Z_chars z :
  all_chars (fun c => isdecimal c || Ascii.eqb c "-") (str_of_Z z) = true
  /\ str_of_Z z <> "".
Proof.
  assert (forall d, all_chars (fun c => isdecimal c || Ascii.eqb c "-")
                      (NilEmpty.string_of_uint d) = true) as Hd.
  { intros d. eapply all_chars_impl; [|apply uint_digits].
    intros c ->. reflexivity. }
  unfold str_of_Z.
  destruct z as [|p|p]; cbn [Z.to_int NilZero.string_of_int].
  - split; [reflexivity | discriminate].
  - pose proof (Unsigned.to_uint_nonnil p) as Hn.
    rewrite (nilzero_nonnil _ Hn). split; [apply Hd|].
    now apply string_of_uint_nonempty.
  - pose proof (Unsigned.to_uint_nonnil p) as Hn.
    rewrite (nilzero_nonnil _ Hn). split; [|discriminate].
    cbn [all_chars]. now rewrite Hd.
Qed.

End DecimalFacts.

Module MetadataFacts.
Import Py Json Conv Retrieval Metadata Text TextFacts SectionFacts DecimalFacts.

(** ** Lists stored as text and read back *)

Lemma split_go_piece c x rest cur :
  count_char c x = 0%nat ->
  split_go (String c "") (x +:+ String c rest) 0 cur
  = (String.rev cur +:+ x) :: split_go (String c "") rest 0 "".
Proof.
  revert cur. induction x as [|d x IH]; intros cur; cbn [count_char].
  - intros _. rewrite str_app_nil_l, str_app_nil_r. cbn [split_go].
    rewrite startswith_char, Ascii.eqb_refl. reflexivity.
  - destruct (Ascii.eqb c d) eqn:E; [discriminate|]. simpl Nat.add. intros Hx.
    rewrite str_app_cons. cbn [split_go]. rewrite startswith_char, E.
    rewrite (IH _ Hx), rev_cons, str_app_assoc. reflexivity.
Qed.

(** Texts without the separator, joined by it and split again. *)
Lemma split_join_char c items :
  items <> [] ->
  Forall (fun s => count_char c s = 0%nat) items ->
  split (join (String c "") items) (String c "") = items.
Proof.
  intros Hne Hall. unfold split.
  induction Hall as [|x items Hx Hall IH]; [congruence|].
  destruct items as [|y items].
  - cbn [join]. now rewrite split_go_absent.
  - rewrite join_cons by discriminate.
    change (String c "" +:+ join (String c "") (y :: items))
      with (String c (join (String c "") (y :: items))).
    rewrite split_go_piece by exact Hx. rewrite IH by discriminate.
    reflexivity.
Qed.


(** ** [_prepare_metadata] *)

Lemma prepare_value_scalar v : scalar (prepare_value v) = true.
Proof. now destruct v. Qed.

Lemma prepare_value_id v : scalar v = true -> prepare_value v = v.
Proof. now destruct v. Qed.

Lemma dict_set_fresh d key v :
  ~ In key (List.map fst d) -> dict_set d key v = d ++ [(key, v)].
Proof.
  induction d as [|[k v0] d IH]; cbn [dict_set List.map fst In app]; [reflexivity|].
  intros H. destruct (String.eqb k key) eqn:E.
  - apply String.eqb_eq in E. tauto.
  - rewrite IH by tauto. reflexivity.
Qed.

Lemma prepare_metadata_go acc metadata :
  List.NoDup (List.map fst (acc ++ metadata)) ->
  fold_left (fun prepared kv => dict_set prepared (fst kv) (prepare_value (snd kv)))
    metadata (prepared acc)
  = prepared (acc ++ metadata).
Proof.
  revert acc. induction metadata as [|[k v] metadata IH]; intros acc Hnd.
  - now rewrite List.app_nil_r.
  - cbn [fold_left fst snd]. rewrite dict_set_fresh.
    + replace (prepared acc ++ [(k, prepare_value v)]) with (prepared (acc ++ [(k, v)]))
        by (unfold prepared; now rewrite List.map_app).
      rewrite IH; rewrite <- List.app_assoc; [reflexivity | exact Hnd].
    + rewrite List.map_app in Hnd. apply List.NoDup_remove_2 in Hnd.
      unfold prepared. rewrite List.map_map. cbn [fst].
      intros Hin. apply Hnd, in_or_app. now left.
Qed.

Lemma prepare_metadata_map metadata :
  List.NoDup (List.map fst metadata) ->
  _prepare_metadata metadata = prepared metadata.
Proof. intros H. apply (prepare_metadata_go [] metadata H). Qed.


(** X9. [_prepare_metadata] keeps the keys of a dict in
    their order; every value it stores is a scalar (text, a number or a
    boolean), namely the prepared form of the value under the same key; and
    preparing a prepared dict changes nothing. *)
Theorem prepare_metadata_spec metadata :
  List.NoDup (List.map fst metadata) ->
  List.map fst (_prepare_metadata metadata) = List.map fst metadata
  /\ Forall (fun kv => scalar (snd kv) = true) (_prepare_metadata metadata)
  /\ (forall key,
        dict_lookup (_prepare_metadata metadata) key
        = prepare_value <$> dict_lookup metadata key)
  /\ _prepare_metadata (_prepare_metadata metadata) = _prepare_metadata metadata.
Proof.
  intros Hnd. rewrite (prepare_metadata_map _ Hnd).
  assert (List.map fst (prepared metadata) = List.map fst metadata) as Hkeys.
  { unfold prepared. rewrite List.map_map. reflexivity. }
  split; [exact Hkeys|]. split; [|split].
  - unfold prepared. apply List.Forall_map, List.Forall_forall.
    intros kv _. apply prepare_value_scalar.
  - intros key. unfold prepared. clear.
    induction metadata as [|[k v] m IH]; cbn [List.map dict_lookup fst snd];
      [reflexivity|].
    destruct (String.eqb k key); [reflexivity | exact IH].
  - rewrite prepare_metadata_map by now rewrite Hkeys.
    unfold prepared. rewrite List.map_map. apply List.map_ext.
    intros [k v]. cbn [fst snd]. f_equal.
    apply prepare_value_id, prepare_value_scalar.
Qed.

Lemma join_nonempty sep x l : x <> "" -> join sep (x :: l) <> "".
Proof.
  destruct x as [|c x]; [congruence|]. intros _.
  destruct l; [discriminate|]. rewrite join_cons by discriminate. discriminate.
Qed.

Lemma str_of_Z_no_comma z : count_char "," (str_of_Z z) = 0%nat.
Proof.
  destruct (str_of_Z_chars z) as [H _]. revert H.
  generalize (str_of_Z z). intros s. induction s as [|c s IH]; [reflexivity|].
  cbn [all_chars count_char]. intros [Hc Hs]%andb_true_iff. rewrite (IH Hs).
  destruct (Ascii.eqb "," c) eqn:E; [|reflexivity].
  apply Ascii.eqb_eq in E as <-. discriminate Hc.
Qed.

Lemma mapM_int_of_str pages :
  mapM int_of_string (List.map str_of_Z pages) = Some pages.
Proof.
  induction pages as [|z pages IH]; [reflexivity|].
  cbn [List.map]. rewrite mapM_Some. constructor.
  - apply int_of_str.
  - now apply mapM_Some.
Qed.

Lemma filter_Forall {A} (keep : A -> bool) (l : list A) :
  Forall (fun x => keep x = true) l -> List.filter keep l = l.
Proof.
  induction 1 as [|x l Hx _ IH]; cbn [List.filter]; [reflexivity|].
  now rewrite Hx, IH.
Qed.

(** X10. The page numbers of a chunk survive the store:
    the text that [_prepare_metadata] makes of a list of integers is read
    back by [_to_retrieved_chunks] as the same list. *)
Theorem page_numbers_round_trip pages :
  exists s, prepare_value (JList (List.map JInt pages)) = JStr s
            /\ page_numbers_of s = pages.
Proof.
  destruct pages as [|z pages]; [now exists ""|].
  eexists. split; [reflexivity|].
  cbn [List.map]. rewrite List.map_map.
  change (Conv.str (JInt z)) with (str_of_Z z).
  rewrite (List.map_ext (fun x => Conv.str (JInt x)) str_of_Z) by reflexivity.
  change (str_of_Z z :: List.map str_of_Z pages)
    with (List.map str_of_Z (z :: pages)).
  set (items := List.map str_of_Z (z :: pages)).
  assert (Forall (fun s => count_char "," s = 0%nat) items) as Hc.
  { apply List.Forall_map, List.Forall_forall. intros x _. apply str_of_Z_no_comma. }
  assert (join "," items <> "") as Hne.
  { apply join_nonempty. apply str_of_Z_chars. }
  unfold page_numbers_of.
  destruct (join "," items) as [|c s] eqn:E; [congruence|]. rewrite <- E.
  rewrite split_join_char by (try exact Hc; discriminate).
  rewrite filter_Forall.
  - unfold items. now rewrite mapM_int_of_str.
  - apply List.Forall_map, List.Forall_forall. intros x _.
    destruct (str_of_Z_chars x) as [_ Hx].
    destruct (str_of_Z x); [congruence | reflexivity].
Qed.

(** X11. A list of texts survives the store when none of
    them contains a comma: the text that [_prepare_metadata] makes of the
    list is split at the commas into the same list, as [_extract_references]
    and [get_parent_context] read it. *)
Theorem text_list_round_trip items :
  items <> [] ->
  Forall (fun s => count_char "," s = 0%nat) items ->
  exists s, prepare_value (JList (List.map JStr items)) = JStr s
            /\ split s "," = items.
Proof.
  intros Hne Hc. destruct items as [|x items]; [congruence|].
  eexists. split; [reflexivity|].
  cbn [List.map]. rewrite List.map_map.
  rewrite (List.map_ext (fun x => Conv.str (JStr x)) (fun x => x)) by reflexivity.
  rewrite List.map_id. change (Conv.str (JStr x)) with x.
  now apply split_join_char.
Qed.


(** ** [get_parent_context] *)

Section Store.
Variable store : string -> Z -> prefilter -> result (list scored).

(** X12. For a chunk whose stored hierarchy is the levels
    of its section joined by commas: with fewer than two levels there is no
    parent and no search; with two or more, the parent is the first result
    of the search for the text "section" followed by the second to last
    level, and there is none when that search finds nothing or fails. *)
Theorem parent_context_of_levels document levels :
  Forall (fun s => count_char "," s = 0%nat) levels ->
  metadata document !! "section_hierarchy" = Some (join "," levels) ->
  ((length levels < 2)%nat -> get_parent_context store document = None)
  /\ ((2 <= length levels)%nat ->
      get_parent_context store document
      = match similarity_search store ("section " +:+ second_to_last levels)
                1 None None with
        | Ok (r :: _) => Some (fst r)
        | _ => None
        end).
Proof.
  intros Hc Hm. unfold get_parent_context, meta_get. rewrite Hm. cbn [default].
  destruct levels as [|x levels].
  - split; [reflexivity | simpl; lia].
  - assert (split (join "," (x :: levels)) "," = x :: levels) as Hs
      by (apply split_join_char; [discriminate | exact Hc]).
    destruct (join "," (x :: levels)) as [|c s] eqn:E.
    + split; [reflexivity|]. intros Hl.
      apply (f_equal (@length string)) in Hs. simpl in Hs, Hl. lia.
    + unfold id. cbv beta iota. rewrite Hs. split; intros Hl.
      * assert ((length (x :: levels) <? 2)%nat = true) as ->
          by (apply Nat.ltb_lt; exact Hl).
        reflexivity.
      * assert ((length (x :: levels) <? 2)%nat = false) as ->
          by (apply Nat.ltb_ge; exact Hl).
        reflexivity.
Qed.

End Store.

Lemma prepare_metadata_spec_witness :
  _prepare_metadata example_metadata
  = [("chunk_index", JInt 3); ("page_numbers", JStr "4,5");
     ("section_title", JStr ""); ("contains_requirements", JBool true)]
  /\ _prepare_metadata (_prepare_metadata example_metadata)
     = _prepare_metadata example_metadata.
Proof.
  split; [reflexivity|].
  apply (prepare_metadata_spec example_metadata).
  repeat constructor; simpl; intuition discriminate.
Defined.

Lemma text_list_round_trip_witness :
  exists s, prepare_value (JList [JStr "2"; JStr "2.1"]) = JStr s
            /\ split s "," = ["2"; "2.1"].
Proof.
  apply (text_list_round_trip ["2"; "2.1"]); [discriminate|].
  repeat constructor.
Defined.

Lemma parent_context_of_levels_witness :
  get_parent_context example_store example_child
  = Some (chunk "b" "encryption at rest").
Proof.
  destruct (parent_context_of_levels example_store example_child ["2"; "2.1"])
    as [_ H]; [repeat constructor | reflexivity |].
  rewrite H by (simpl; lia). reflexivity.
Defined.

End MetadataFacts.

(* ===================================================================== *)
(** * Further facts about the parser *)
(* ===================================================================== *)

Module RequirementFacts.
Import Py Json Conv Models Parser ParserNames ParserFacts.

Lemma requirement_of_string idx s :
  requirement_of idx (JStr s) = Ok (string_requirement idx s).
Proof. reflexivity. Qed.

Lemma requirements_loop_strings l idx acc :
  requirements_loop idx (List.map JStr l) acc
  = Ok (acc ++ imap (fun i s => string_requirement (idx + Z.of_nat i) s) l).
Proof.
  revert idx acc. induction l as [|s l IH]; intros idx acc.
  - simpl. now rewrite List.app_nil_r.
  - cbn [List.map requirements_loop]. rewrite requirement_of_string, IH.
    cbn [imap]. rewrite <- List.app_assoc. cbn [app]. rewrite Z.add_0_r.
    do 3 f_equal. apply imap_ext. intros i x _. cbn. f_equal. lia.
Qed.

(** X13. A list of strings gives one requirement per string,
    in order and none skipped: the item at index [i] gets the id REQ- followed
    by [i + 1] in at least three digits, its first 100 characters as title,
    the whole string as description, and the section "Extracted from
    document". *)
Theorem parse_requirements_strings (l : list string) :
  _parse_requirements (JList (List.map JStr l))
  = Ok (imap (fun i s => string_requirement (Z.of_nat i) s) l).
Proof.
  unfold _parse_requirements. cbn [iterate mbind result_bind bind].
  rewrite requirements_loop_strings. reflexivity.
Qed.

Lemma requirements_loop_bounds items idx acc :
  match requirements_loop idx items acc with
  | Ok requirements =>
      (length acc <= length requirements <= length acc + length items)%nat
  | Raise e => is_ValidationError e = false
  end.
Proof.
  revert idx acc. induction items as [|item items IH]; intros idx acc.
  - simpl. lia.
  - cbn [requirements_loop]. destruct (requirement_of idx item) as [r|e].
    + specialize (IH (idx + 1) (acc ++ [r])).
      destruct (requirements_loop _ _ _); [|exact IH].
      rewrite length_app in IH. simpl in *. lia.
    + destruct (is_ValidationError e) eqn:E; [|exact E].
      specialize (IH (idx + 1) acc).
      destruct (requirements_loop _ _ _); [|exact IH]. simpl. lia.
Qed.

(** X14. [_parse_requirements] never returns more requirements
    than it was given items, and the exception it raises, if any, is never
    a validation error: those are skipped with their item. *)
Theorem parse_requirements_bounds items :
  match _parse_requirements (JList items) with
  | Ok requirements => (length requirements <= length items)%nat
  | Raise e => is_ValidationError e = false
  end.
Proof.
  unfold _parse_requirements. cbn [iterate mbind result_bind bind].
  pose proof (requirements_loop_bounds items 0 []) as H.
  destruct (requirements_loop 0 items []); [simpl in H; lia | exact H].
Qed.

(** An item that raises anything but a validation error ends the loop. *)
Lemma requirements_loop_raises items item idx acc :
  In item items ->
  (forall i, exists e, requirement_of i item = Raise e
                       /\ is_ValidationError e = false) ->
  exists e, requirements_loop idx items acc = Raise e.
Proof.
  intros Hin Hbad. revert idx acc.
  induction items as [|x items IH]; intros idx acc; [destruct Hin|].
  cbn [requirements_loop]. destruct Hin as [->|Hin].
  - destruct (Hbad idx) as (e & -> & ->). eauto.
  - destruct (requirement_of idx x) as [r|e]; [now apply IH|].
    destruct (is_ValidationError e); [now apply IH | eauto].
Qed.

Lemma requirement_of_unsliceable idx d v :
  dict_lookup d "description" = Some v ->
  unsliceable v = true ->
  exists e, requirement_of idx (JDict d) = Raise e
            /\ is_ValidationError e = false.
Proof.
  intros Hd Hv. cbn [requirement_of get mbind result_bind bind].
  rewrite Hd. cbn [default].
  destruct v; try discriminate Hv; cbn; eauto.
Qed.

(** X15. The default of the title is computed from the
    description before the title is looked up.  So when the reply is a JSON
    object and one of its requirements is a dict whose description is
    neither text nor a list (null, a number, a boolean, a dict), the whole
    reply is given up: [parse] returns the response of its except block,
    with no requirement and confidence 0, whatever the other requirements
    and fields are. *)
Theorem parse_unsliceable_description text query d items item v :
  loads text = Ok (JDict d) ->
  dict_lookup d "extracted_requirements" = Some (JList items) ->
  In (JDict item) items ->
  dict_lookup item "description" = Some v ->
  unsliceable v = true ->
  exists e, parse text query = Ok (fallback e text query).
Proof.
  intros Hl Hreq Hin Hd Hv.
  destruct (requirements_loop_raises items (JDict item) 0 [] Hin) as [e He].
  { intros i. now apply (requirement_of_unsliceable i item v). }
  exists e. apply parse_Raise.
  unfold parse_body, _extract_json. rewrite Hl.
  cbn [mbind result_bind bind get]. rewrite Hreq. cbn [default].
  unfold _parse_requirements, id.
  cbn [iterate mbind result_bind bind]. now rewrite He.
Qed.


(** X16. When the reply is a JSON object whose confidence
    does not validate as a number between 0 and 100, [parse] returns the
    response of its except block: the requirements and the reasoning of the
    reply are given up. *)
Theorem parse_invalid_confidence text query d v :
  loads text = Ok (JDict d) ->
  dict_lookup d "confidence" = Some v ->
  validate_bounded 0 100 v = None ->
  exists e, parse text query = Ok (fallback e text query).
Proof.
  intros Hl Hc Hv.
  destruct (parse_body text query) as [r|e] eqn:E;
    [|exists e; now apply parse_Raise].
  exfalso. revert E. unfold parse_body, _extract_json. rewrite Hl.
  cbn [mbind result_bind bind get]. rewrite Hc. cbn [default].
  destruct (_parse_requirements _) as [reqs|e]; [|discriminate].
  unfold AnalysisResponse.create, id. cbn [mbind result_bind bind default].
  rewrite Hv.
  destruct (validate_str _); [|discriminate].
  destruct (validate_list_str _); discriminate.
Qed.

Lemma parse_unsliceable_description_witness :
  exists e, parse reply_null_description "q"
            = Ok (fallback e reply_null_description "q").
Proof.
  apply (parse_unsliceable_description reply_null_description "q"
           [("extracted_requirements",
             JList [JDict [("title", JStr "Encrypt data");
                           ("description", JNull)];
                    JStr "Rotate keys yearly"])]
           [JDict [("title", JStr "Encrypt data"); ("description", JNull)];
            JStr "Rotate keys yearly"]
           [("title", JStr "Encrypt data"); ("description", JNull)] JNull);
    solve [vm_compute; reflexivity | left; reflexivity].
Defined.

Lemma parse_invalid_confidence_witness :
  exists e, parse reply_confidence_150 "q"
            = Ok (fallback e reply_confidence_150 "q").
Proof.
  apply (parse_invalid_confidence reply_confidence_150 "q"
           [("reasoning", JStr "Section 2 applies"); ("confidence", JInt 150)]
           (JInt 150));
    vm_compute; reflexivity.
Defined.

End RequirementFacts.

Module PriorityFacts.
Import Py Json Conv Models Parser ParserFacts.

(** X17. A priority that [_normalize_priority] returns
    is in lower case and has no whitespace around it, and unless it is the
    empty text it is normalized to itself. *)
Theorem normalize_priority_canonical priority v :
  _normalize_priority priority = Some v ->
  lower v = v /\ strip v = v
  /\ (v <> "" -> _normalize_priority (Some v) = Some v).
Proof.
  destruct priority as [[|c p]|]; try discriminate.
  cbn [_normalize_priority].
  set (l := strip (lower (String c p))).
  assert (lower l = l) as Hlow.
  { unfold l. now rewrite <- strip_lower, lower_idem. }
  assert (strip l = l) as Hstrip by apply strip_idem.
  destruct (priority_map !! l) as [w|] eqn:E; cbn [default]; intros [= <-].
  - apply priority_map_values in E as [->| [->| ->]];
      repeat split; intros; vm_compute; reflexivity.
  - repeat split; try assumption. intros Hne.
    destruct l as [|d l'] eqn:El; [congruence|].
    cbn [_normalize_priority]. rewrite Hlow, Hstrip, E. reflexivity.
Qed.

Lemma normalize_priority_canonical_witness :
  lower "high" = "high" /\ strip "high" = "high"
  /\ ("high" <> "" -> _normalize_priority (Some "high") = Some "high").
Proof.
  apply (normalize_priority_canonical (Some "  Critical ") "high").
  vm_compute. reflexivity.
Defined.

End PriorityFacts.

(* ===================================================================== *)
(** * Further facts about the workflow *)
(* ===================================================================== *)

Module RunFacts.
Import Py Json Conv Models Workflow WorkflowNames WorkflowFacts.

Section Nodes.

Variable retrieve :
  string -> option string -> option string -> bool ->
  result (list RetrievedChunk.t).
Variable analyze :
  AnalysisRequest.t -> list RetrievedChunk.t -> result AnalysisResponse.t.

Lemma project_filter_initial request :
  (if nonempty (AnalysisRequest.project_name request)
   then AnalysisRequest.project_name request
   else AnalysisRequest.project_name request)
  = AnalysisRequest.project_name request.
Proof. now destruct (nonempty _). Qed.

(** The state after [process_query] on the initial state. *)
Lemma process_query_initial detect request t :
  (if decide (AnalysisRequest.query_type request = GENERAL)
   then detect (AnalysisRequest.query request)
   else Ok (AnalysisRequest.query_type request)) = Ok t ->
  process_query detect (initial_state request)
  = Build_GraphState (Some request) (AnalysisRequest.query request) t
      (AnalysisRequest.project_name request) [] "" None None "query_processed".
Proof.
  intros H. unfold process_query, initial_state.
  cbn [Workflow.request Workflow.query Workflow.project_filter
       Workflow.retrieved_chunks Workflow.context Workflow.analysis_response
       Workflow.error guarded mbind result_bind bind].
  rewrite H. cbn [bind guarded]. now rewrite project_filter_initial.
Qed.

(** X18. When no step raises (the detection, which runs only
    for a request of the general type, the retrieval with the request's
    query, project name and non-empty target section, and the analysis of
    the request with the retrieved chunks), the run visits the three nodes
    in order and returns the analyzer's response as it is; the final state
    holds the chunks, the context built from them, and no error. *)
Theorem run_happy_path detect request chunks response :
  (AnalysisRequest.query_type request = GENERAL ->
   exists t, detect (AnalysisRequest.query request) = Ok t) ->
  retrieve (AnalysisRequest.query request) (AnalysisRequest.project_name request)
    (section_filter_of request) true = Ok chunks ->
  analyze request chunks = Ok response ->
  run detect retrieve analyze request = Some (Ok response)
  /\ exists final,
       invoke detect retrieve analyze (initial_state request)
       = Some (Ok ([n_process_query; n_retrieve_documents; n_analyze_content],
                   final))
       /\ retrieved_chunks final = chunks
       /\ context final = _build_context chunks
       /\ analysis_response final = Some response
       /\ error final = None
       /\ current_step final = "analysis_complete".
Proof.
  intros Hd Hr Ha.
  assert (exists t,
            (if decide (AnalysisRequest.query_type request = GENERAL)
             then detect (AnalysisRequest.query request)
             else Ok (AnalysisRequest.query_type request)) = Ok t) as (t & Ht).
  { destruct (decide _) as [Hg|Hg]; [|eauto]. exact (Hd Hg). }
  assert (invoke detect retrieve analyze (initial_state request)
          = Some (Ok ([n_process_query; n_retrieve_documents; n_analyze_content],
              Build_GraphState (Some request) (AnalysisRequest.query request) t
                (AnalysisRequest.project_name request) chunks
                (_build_context chunks) (Some response) None
                "analysis_complete"))) as Hinv.
  { unfold invoke. rewrite run_from_S. cbn [step].
    rewrite (process_query_initial detect request t Ht).
    cbn [_route_after_query error nonempty].
    rewrite run_from_S. cbn [step]. unfold retrieve_documents.
    cbn [Workflow.request Workflow.query Workflow.project_filter
         Workflow.retrieved_chunks Workflow.context Workflow.analysis_response
         Workflow.error Workflow.query_type].
    fold (section_filter_of request). rewrite Hr.
    cbn [mbind result_bind bind guarded _route_after_retrieval error nonempty
         Workflow.retrieved_chunks].
    assert (forall (l : list RetrievedChunk.t),
              match l with [] => Some n_analyze_content
                         | _ :: _ => Some n_analyze_content end
              = Some n_analyze_content) as -> by now intros [].
    rewrite run_from_S. cbn [step]. unfold analyze_content.
    cbn [Workflow.request Workflow.query Workflow.project_filter
         Workflow.retrieved_chunks Workflow.context Workflow.analysis_response
         Workflow.error Workflow.query_type mbind result_bind bind].
    rewrite Ha.
    cbn [bind guarded _route_after_analysis error nonempty]. reflexivity. }
  split; [unfold run; now rewrite Hinv|].
  eexists. split; [exact Hinv|]. cbn. auto.
Qed.

(** ** The detected query type *)

Lemma same_but_query_type_refl s : same_but_query_type s s.
Proof. now repeat split. Qed.

Lemma retrieve_documents_same s1 s2 :
  same_but_query_type s1 s2 ->
  same_but_query_type (retrieve_documents retrieve s1)
    (retrieve_documents retrieve s2).
Proof.
  intros (Hreq & Hq & Hp & Hc & Hx & Ha & He & Hs).
  unfold retrieve_documents. rewrite Hreq, Hq, Hp.
  destruct (retrieve _ _ _ _) as [chunks|e]; cbn; repeat split; auto.
Qed.

Lemma analyze_content_same s1 s2 :
  is_Some (request s1) ->
  same_but_query_type s1 s2 ->
  same_but_query_type (analyze_content analyze s1) (analyze_content analyze s2).
Proof.
  intros [r Hr] (Hreq & Hq & Hp & Hc & Hx & Ha & He & Hs).
  unfold analyze_content. rewrite <- Hreq, Hr, <- Hc.
  cbn [mbind result_bind bind].
  destruct (analyze _ _) as [response|e]; cbn; repeat split; auto; congruence.
Qed.

Lemma handle_error_same s1 s2 :
  same_but_query_type s1 s2 ->
  match handle_error s1, handle_error s2 with
  | Ok f1, Ok f2 => same_but_query_type f1 f2
  | Raise e1, Raise e2 => e1 = e2
  | _, _ => False
  end.
Proof.
  intros (Hreq & Hq & Hp & Hc & Hx & Ha & He & Hs).
  unfold handle_error, error_reasoning. rewrite Hq, He.
  destruct (AnalysisResponse.create _ _ _ _ _ _) as [r|e]; cbn; [|reflexivity].
  repeat split; auto.
Qed.

Lemma retrieve_documents_request s :
  request (retrieve_documents retrieve s) = request s.
Proof. unfold retrieve_documents. now destruct (retrieve _ _ _ _). Qed.

Lemma analyze_content_request s :
  request (analyze_content analyze s) = request s.
Proof.
  unfold analyze_content.
  destruct (request s) as [r|] eqn:Hr; cbn [mbind result_bind bind].
  - destruct (analyze _ _); cbn; now rewrite ?Hr.
  - destruct (AnalysisRequest.create _ _ _) as [r|e]; cbn; [|now rewrite ?Hr].
    destruct (analyze _ _); cbn; now rewrite ?Hr.
Qed.

Lemma route_after_retrieval_eq s :
  _route_after_retrieval s
  = if nonempty (error s) then Some n_handle_error else Some n_analyze_content.
Proof.
  unfold _route_after_retrieval.
  destruct (nonempty _); [reflexivity | now destruct (retrieved_chunks s)].
Qed.

Lemma run_from_same d1 d2 fuel n s1 s2 :
  n <> n_process_query ->
  is_Some (request s1) ->
  same_but_query_type s1 s2 ->
  same_outcome (run_from d1 retrieve analyze fuel n s1)
    (run_from d2 retrieve analyze fuel n s2).
Proof.
  revert n s1 s2. induction fuel as [|fuel IH]; intros n s1 s2 Hn Hreq Hs;
    [exact I|].
  assert (forall f1 f2 n', n' <> n_process_query ->
            is_Some (request f1) -> same_but_query_type f1 f2 ->
            same_outcome
              match run_from d1 retrieve analyze fuel n' f1 with
              | Some (Ok (trace, final)) => Some (Ok (n :: trace, final))
              | other => other
              end
              match run_from d2 retrieve analyze fuel n' f2 with
              | Some (Ok (trace, final)) => Some (Ok (n :: trace, final))
              | other => other
              end) as Hnext.
  { intros f1 f2 n' Hn' Hr Hf. specialize (IH n' f1 f2 Hn' Hr Hf).
    unfold same_outcome in *.
    destruct (run_from d1 _ _ fuel n' f1) as [[[t1 g1]|e1]|];
      destruct (run_from d2 _ _ fuel n' f2) as [[[t2 g2]|e2]|]; try tauto.
    destruct IH as [-> Hg]. auto. }
  rewrite !run_from_S. destruct n; [congruence| | |]; cbn [step].
  - pose proof (retrieve_documents_same s1 s2 Hs) as Hf.
    assert (is_Some (request (retrieve_documents retrieve s1))) as Hr
      by now rewrite retrieve_documents_request.
    rewrite !route_after_retrieval_eq.
    replace (error (retrieve_documents retrieve s2))
      with (error (retrieve_documents retrieve s1)) by apply Hf.
    destruct (nonempty _); apply Hnext; try discriminate; assumption.
  - pose proof (analyze_content_same s1 s2 Hreq Hs) as Hf.
    assert (is_Some (request (analyze_content analyze s1))) as Hr
      by now rewrite analyze_content_request.
    unfold _route_after_analysis.
    replace (error (analyze_content analyze s2))
      with (error (analyze_content analyze s1)) by apply Hf.
    destruct (nonempty _).
    + apply Hnext; try discriminate; assumption.
    + cbn. split; [reflexivity | exact Hf].
  - pose proof (handle_error_same s1 s2 Hs) as Hf.
    destruct (handle_error s1) as [f1|e1]; destruct (handle_error s2) as [f2|e2];
      cbn; try tauto.
Qed.

End Nodes.

(** X19. The query type that [process_query] detects is
    stored in the state and read by no later step: the analysis gets the
    request as it came.  So two detectors that both return on the query
    give the same result of [run], whatever types they detect. *)
Theorem run_ignores_detected_type retrieve analyze detect1 detect2 request :
  (AnalysisRequest.query_type request = GENERAL ->
   (exists t, detect1 (AnalysisRequest.query request) = Ok t)
   /\ (exists t, detect2 (AnalysisRequest.query request) = Ok t)) ->
  run detect1 retrieve analyze request = run detect2 retrieve analyze request.
Proof.
  intros Hd.
  assert (exists t1 t2,
    (if decide (AnalysisRequest.query_type request = GENERAL)
     then detect1 (AnalysisRequest.query request)
     else Ok (AnalysisRequest.query_type request)) = Ok t1
    /\ (if decide (AnalysisRequest.query_type request = GENERAL)
        then detect2 (AnalysisRequest.query request)
        else Ok (AnalysisRequest.query_type request)) = Ok t2)
    as (t1 & t2 & H1 & H2).
  { destruct (decide _) as [Hg|Hg]; [|eauto].
    destruct (Hd Hg) as [[t1 H1] [t2 H2]]. eauto. }
  unfold run, invoke. rewrite !run_from_S. cbn [step].
  rewrite (process_query_initial detect1 request t1 H1),
          (process_query_initial detect2 request t2 H2).
  cbn [_route_after_query error nonempty].
  match goal with
  | |- context [run_from detect1 retrieve analyze 3 ?n ?s1] =>
      match goal with
      | |- context [run_from detect2 retrieve analyze 3 n ?s2] =>
          pose proof (run_from_same retrieve analyze detect1 detect2 3 n s1 s2)
            as Hsame
      end
  end.
  unfold same_outcome in Hsame.
  destruct (run_from detect1 _ _ _ _ _) as [[[tr1 f1]|e1]|];
    destruct (run_from detect2 _ _ _ _ _) as [[[tr2 f2]|e2]|];
    cbn in Hsame |- *;
    try (exfalso; apply Hsame; [discriminate | eauto | now repeat split]);
    try reflexivity.
  - destruct Hsame as [_ Hf]; [discriminate | cbn; eauto | now repeat split|].
    unfold response_of. now replace (analysis_response f2)
      with (analysis_response f1) by apply Hf.
  - f_equal. f_equal. apply Hsame; [discriminate | cbn; eauto | now repeat split].
Qed.


Section Paths.

Variable detect_query_type : string -> result QueryType.
Variable retrieve :
  string -> option string -> option string -> bool ->
  result (list RetrievedChunk.t).
Variable analyze :
  AnalysisRequest.t -> list RetrievedChunk.t -> result AnalysisResponse.t.

Abbreviation run_from' := (run_from detect_query_type retrieve analyze).

Lemma handle_error_returns state :
  exists final, handle_error state = Ok final
                /\ current_step final = "error_handled"
                /\ is_Some (analysis_response final).
Proof.
  unfold handle_error. cbn -[String.append]. eexists. split; [reflexivity|].
  cbn. eauto.
Qed.

(** X20. From every state the graph comes to its end without raising,
    along one of four paths: the three steps in order, or the steps up to
    one that failed, followed by the error state.  After the error state
    the final step is "error_handled" and a response is present. *)
Theorem invoke_paths state :
  exists trace final,
    invoke detect_query_type retrieve analyze state = Some (Ok (trace, final))
    /\ In trace graph_paths
    /\ (In n_handle_error trace ->
        current_step final = "error_handled"
        /\ is_Some (analysis_response final)).
Proof.
  assert (forall fuel s, exists f,
            run_from' (S fuel) n_handle_error s = Some (Ok ([n_handle_error], f))
            /\ current_step f = "error_handled"
            /\ is_Some (analysis_response f)) as Hh.
  { intros fuel s. rewrite run_from_S. cbn [step].
    destruct (handle_error_returns s) as (f & -> & H1 & H2). cbn. eauto. }
  unfold invoke. rewrite run_from_S. cbn [step]. unfold _route_after_query.
  set (s1 := process_query detect_query_type state).
  destruct (nonempty (error s1)).
  { destruct (Hh 2%nat s1) as (f & -> & H1 & H2).
    eexists _, f. split; [reflexivity|]. split; [cbn; tauto | auto]. }
  rewrite run_from_S. cbn [step]. rewrite route_after_retrieval_eq.
  set (s2 := retrieve_documents retrieve s1).
  destruct (nonempty (error s2)).
  { destruct (Hh 1%nat s2) as (f & -> & H1 & H2).
    eexists _, f. split; [reflexivity|]. split; [cbn; tauto | auto]. }
  rewrite run_from_S. cbn [step]. unfold _route_after_analysis.
  set (s3 := analyze_content analyze s2).
  destruct (nonempty (error s3)).
  { destruct (Hh 0%nat s3) as (f & -> & H1 & H2).
    eexists _, f. split; [reflexivity|]. split; [cbn; tauto | auto]. }
  eexists _, s3. split; [reflexivity|]. split; [cbn; tauto|].
  cbn. intros [H|[H|[H|[]]]]; discriminate.
Qed.

End Paths.

Lemma run_happy_path_witness :
  run idle_detect finding_retrieve answering_analyze example_request
  = Some (Ok example_response).
Proof.
  apply (run_happy_path finding_retrieve answering_analyze idle_detect
           example_request [example_chunk] example_response);
    [discriminate | reflexivity | reflexivity].
Defined.

Lemma run_ignores_detected_type_witness :
  run idle_detect finding_retrieve answering_analyze general_request
  = run (fun _ => Ok GAP_ANALYSIS) finding_retrieve answering_analyze
      general_request.
Proof.
  apply (run_ignores_detected_type finding_retrieve answering_analyze
           idle_detect (fun _ => Ok GAP_ANALYSIS) general_request).
  intros _. split; eexists; reflexivity.
Defined.

End RunFacts.

(* ===================================================================== *)
(** * A step that fails without a message *)
(* ===================================================================== *)

Module SilentFailureFacts.
Import Py Json Conv Models Workflow WorkflowNames WorkflowFacts RunFacts.

Section Nodes.

Variable retrieve :
  string -> option string -> option string -> bool ->
  result (list RetrievedChunk.t).
Variable analyze :
  AnalysisRequest.t -> list RetrievedChunk.t -> result AnalysisResponse.t.

(** C2. A failed step does not always reach the error state, and the run
    can raise.  When the detection and the retrieval return and the analysis
    raises an exception whose message is empty, the routers, which test the
    truth of the stored message, take the step for a success: the graph ends
    after [analyze_content] without visiting [handle_error], the final state
    holds the empty message and no response, and [run] raises the
    validation error of the response it then builds without a query. *)
Theorem silent_analysis_failure detect request chunks e :
  (AnalysisRequest.query_type request = GENERAL ->
   exists t, detect (AnalysisRequest.query request) = Ok t) ->
  retrieve (AnalysisRequest.query request) (AnalysisRequest.project_name request)
    (section_filter_of request) true = Ok chunks ->
  analyze request chunks = Raise e ->
  exn_msg e = "" ->
  run detect retrieve analyze request
  = Some (Raise (Exn ValidationError "validation error for AnalysisResponse"))
  /\ exists final,
       invoke detect retrieve analyze (initial_state request)
       = Some (Ok ([n_process_query; n_retrieve_documents; n_analyze_content],
                   final))
       /\ analysis_response final = None
       /\ error final = Some ""
       /\ current_step final = "error".
Proof.
  intros Hd Hr Ha Hmsg.
  destruct e as [cls msg]. cbn [exn_msg] in Hmsg. subst msg.
  assert (exists t,
            (if decide (AnalysisRequest.query_type request = GENERAL)
             then detect (AnalysisRequest.query request)
             else Ok (AnalysisRequest.query_type request)) = Ok t) as (t & Ht).
  { destruct (decide _) as [Hg|Hg]; [|eauto]. exact (Hd Hg). }
  assert (invoke detect retrieve analyze (initial_state request)
          = Some (Ok ([n_process_query; n_retrieve_documents; n_analyze_content],
              Build_GraphState (Some request) (AnalysisRequest.query request) t
                (AnalysisRequest.project_name request) chunks
                (_build_context chunks) None (Some "") "error"))) as Hinv.
  { unfold invoke. rewrite run_from_S. cbn [step].
    rewrite (process_query_initial detect request t Ht).
    cbn [_route_after_query error nonempty].
    rewrite run_from_S. cbn [step]. unfold retrieve_documents.
    cbn [Workflow.request Workflow.query Workflow.project_filter
         Workflow.retrieved_chunks Workflow.context Workflow.analysis_response
         Workflow.error Workflow.query_type].
    fold (section_filter_of request). rewrite Hr.
    cbn [mbind result_bind bind guarded _route_after_retrieval error nonempty
         Workflow.retrieved_chunks].
    assert (forall (l : list RetrievedChunk.t),
              match l with [] => Some n_analyze_content
                         | _ :: _ => Some n_analyze_content end
              = Some n_analyze_content) as -> by now intros [].
    rewrite run_from_S. cbn [step]. unfold analyze_content.
    cbn [Workflow.request Workflow.query Workflow.project_filter
         Workflow.retrieved_chunks Workflow.context Workflow.analysis_response
         Workflow.error Workflow.query_type mbind result_bind bind].
    rewrite Ha.
    cbn [bind guarded failed _route_after_analysis error nonempty
         Workflow.request Workflow.query Workflow.project_filter
         Workflow.retrieved_chunks Workflow.context Workflow.analysis_response
         Workflow.query_type].
    reflexivity. }
  split.
  - unfold run. rewrite Hinv. reflexivity.
  - eexists. split; [exact Hinv|]. cbn. auto.
Qed.

End Nodes.

Lemma silent_analysis_failure_witness :
  run idle_detect finding_retrieve silent_analyze example_request
  = Some (Raise (Exn ValidationError "validation error for AnalysisResponse"))
  /\ exists final,
       invoke idle_detect finding_retrieve silent_analyze
         (initial_state example_request)
       = Some (Ok ([n_process_query; n_retrieve_documents; n_analyze_content],
                   final))
       /\ analysis_response final = None
       /\ error final = Some ""
       /\ current_step final = "error".
Proof.
  apply (silent_analysis_failure finding_retrieve silent_analyze idle_detect
           example_request [example_chunk] (Exn OtherError ""));
    [discriminate | reflexivity | reflexivity | reflexivity].
Defined.

End SilentFailureFacts.

(* ===================================================================== *)
(** * Facts about the pipeline as a whole *)
(* ===================================================================== *)

Module PipelineFacts.
Import Py Json Conv Models Retrieval Rerankers Pipeline RetrievalFacts RerankFacts.

Section Store.

Variable store : string -> Z -> prefilter -> result (list scored).
Variable top_k : Z.
Variable threshold : Q.
Variable list_of_set : gset string -> list string.
Variable llm : string -> result string.

Hypothesis Hstore : nonneg_distances store.

Lemma similarity_search_unit query k f th out :
  similarity_search store query k f th = Ok out -> unit_scores out.
Proof.
  unfold similarity_search.
  destruct (store query k f) as [results|e] eqn:Es; [|discriminate].
  cbn [mbind result_bind bind].
  rewrite (normalize_nonneg _ (Hstore _ _ _ _ Es)). cbn [bind].
  assert (unit_scores (List.map similarity results)) as Hu.
  { apply List.Forall_map. eapply List.Forall_impl; [|exact (Hstore _ _ _ _ Es)].
    intros [doc d]. cbn. apply similarity_range. }
  intros [= <-]. destruct th as [t|]; [|exact Hu].
  apply List.Forall_forall. intros ds [Hin _]%filter_In.
  now apply (proj1 (List.Forall_forall _ _) Hu).
Qed.

Lemma initial_retrieval_unit query project_name k out :
  _initial_retrieval store threshold query project_name k = Ok out ->
  unit_scores out.
Proof.
  unfold _initial_retrieval, search_by_project.
  destruct project_name as [[|c n]|]; apply similarity_search_unit.
Qed.

Lemma apply_filters_Forall (P : scored -> Prop) documents section_filter :
  Forall P documents -> Forall P (_apply_filters documents section_filter).
Proof.
  intros H. unfold _apply_filters.
  destruct section_filter as [[|c f]|]; try exact H.
  destruct (List.filter _ documents) as [|x l] eqn:E; [exact H|].
  rewrite <- E. apply List.Forall_forall. intros ds [Hin _]%filter_In.
  now apply (proj1 (List.Forall_forall _ _) H).
Qed.

Lemma apply_filters_length documents section_filter :
  (length (_apply_filters documents section_filter) <= length documents)%nat.
Proof.
  unfold _apply_filters. destruct section_filter as [[|c f]|]; try lia.
  destruct (List.filter _ documents) as [|x l] eqn:E; [lia|].
  rewrite <- E. apply filter_length_le.
Qed.

Lemma reply_score_range reply ms : reply_score reply ms -> (0 <= ms <= 100)%Q.
Proof.
  unfold reply_score. destruct reply as [content|e].
  - destruct (float_of_string (strip content)) as [[|negative|v]|].
    + intros ->. lra.
    + intros ->. destruct negative; lra.
    + intros (H1 & H2 & H3).
      destruct (Qlt_le_dec 0 v) as [Hv|Hv]; [|rewrite (H1 Hv); lra].
      destruct (Qlt_le_dec v 100) as [Hw|Hw]; [|rewrite (H2 Hw); lra].
      rewrite (H3 (conj Hv Hw)). lra.
    + intros ->. lra.
  - intros [_ ->]. lra.
Qed.

Lemma rerank_unit query documents k out :
  unit_scores documents ->
  rerank llm query documents k = Ok out -> unit_scores out.
Proof.
  intros Hu. unfold rerank. destruct documents as [|d0 docs].
  - intros [= <-]. constructor.
  - set (documents := d0 :: docs) in *.
    destruct (combine_scores llm query documents) as [reranked|e] eqn:E;
      [|discriminate].
    cbn [mbind result_bind bind]. intros [= <-].
    apply combine_scores_spec in E.
    apply List.Forall_forall. intros ds Hin.
    apply truncate_In, sort_desc_In in Hin.
    apply (proj1 (List.Forall_forall _ _) E) in Hin
      as (s0 & ms & Hs0 & _ & Hms & Hsnd).
    apply (proj1 (List.Forall_forall _ _) Hu) in Hs0. cbn in Hs0.
    apply reply_score_range in Hms. rewrite Hsnd.
    split.
    + assert (0 <= ms / 100)%Q by (apply Qle_shift_div_l; lra). lra.
    + assert (ms / 100 <= 1)%Q by (apply Qle_shift_div_r; lra). lra.
Qed.

Lemma simple_rerank_unit query documents k :
  unit_scores documents -> unit_scores (simple_rerank query documents k).
Proof.
  intros Hu. unfold simple_rerank.
  apply List.Forall_forall. intros ds Hin.
  apply truncate_In, sort_desc_In, in_map_iff in Hin as (d0 & <- & Hd).
  apply (proj1 (List.Forall_forall _ _) Hu) in Hd.
  pose proof (overlap_range (terms query) (terms (page_content (fst d0)))).
  unfold keyword_score. cbn. lra.
Qed.

Lemma chosen_reranker_unit use_llm query documents k out :
  unit_scores documents ->
  chosen_reranker llm use_llm query documents k = Ok out -> unit_scores out.
Proof.
  intros Hu. destruct use_llm; cbn.
  - now apply rerank_unit.
  - intros [= <-]. now apply simple_rerank_unit.
Qed.

Lemma find_related_unit ref seen :
  unit_scores (_find_related_section store ref seen).
Proof.
  unfold _find_related_section.
  destruct (similarity_search store _ _ _ _) as [results|e] eqn:E; [|constructor].
  apply similarity_search_unit in E.
  apply List.Forall_forall. intros ds [Hin _]%filter_In.
  now apply (proj1 (List.Forall_forall _ _) E).
Qed.

Lemma related_groups_unit refs seen :
  Forall unit_scores (related_groups store refs seen).
Proof.
  revert seen. induction refs as [|ref refs IH]; intros seen; cbn; constructor.
  - apply find_related_unit.
  - apply IH.
Qed.

Lemma enrich_unit documents query max_additional :
  unit_scores documents ->
  unit_scores (enrich store list_of_set documents query max_additional).
Proof.
  intros Hu. unfold enrich. destruct documents as [|d0 docs]; [constructor|].
  apply List.Forall_app. split; [exact Hu|].
  apply List.Forall_map, List.Forall_forall.
  intros ds (g & Hg & Hin)%in_concat.
  pose proof (related_groups_unit
                (list_slice_to (_extract_references list_of_set (d0 :: docs))
                   max_additional) (ids_of (d0 :: docs))) as Hall.
  apply (proj1 (List.Forall_forall _ _) Hall) in Hg.
  apply (proj1 (List.Forall_forall _ _) Hg) in Hin.
  cbn. lra.
Qed.

Lemma to_retrieved_chunks_Ok documents :
  Forall (fun ds : scored => (0 <= snd ds)%Q) documents ->
  exists chunks,
    _to_retrieved_chunks documents = Ok chunks
    /\ List.map RetrievedChunk.relevance_score chunks = List.map snd documents.
Proof.
  induction 1 as [|[doc s] rest Hs _ (chunks & IH & Hmap)]; cbn [_to_retrieved_chunks].
  - now exists [].
  - cbn in Hs. assert (Qle_bool 0 s = true) as -> by now apply Qle_bool_iff.
    rewrite IH. cbn [mbind result_bind bind]. eexists. split; [reflexivity|].
    cbn. now rewrite Hmap.
Qed.

Lemma to_retrieved_chunks_spec documents chunks :
  _to_retrieved_chunks documents = Ok chunks ->
  List.map RetrievedChunk.relevance_score chunks = List.map snd documents.
Proof.
  revert chunks. induction documents as [|[doc s] rest IH]; intros chunks;
    cbn [_to_retrieved_chunks].
  - now intros [= <-].
  - destruct (Qle_bool 0 s); [|discriminate].
    destruct (_to_retrieved_chunks rest) as [l|e]; [|discriminate].
    cbn [mbind result_bind bind]. intros [= <-]. cbn. now rewrite (IH l eq_refl).
Qed.

Lemma to_retrieved_chunks_length documents chunks :
  _to_retrieved_chunks documents = Ok chunks -> length chunks = length documents.
Proof.
  intros H%to_retrieved_chunks_spec.
  apply (f_equal (@length Q)) in H. now rewrite !length_map in H.
Qed.

Variable use_llm_reranking : bool.

Abbreviation pipeline_retrieve :=
  (retrieve store top_k threshold list_of_set
     (chosen_reranker llm use_llm_reranking)).

(** The candidates that [retrieve] hands to [_to_retrieved_chunks]. *)
Lemma retrieve_candidates query project_name section_filter include_enrichment
    chunks :
  pipeline_retrieve query project_name section_filter include_enrichment
  = Ok chunks ->
  chunks = []
  \/ exists initial reranked,
       initial_results store top_k threshold query project_name = Ok initial
       /\ chosen_reranker llm use_llm_reranking query
            (_apply_filters initial section_filter) (Some top_k) = Ok reranked
       /\ _to_retrieved_chunks
            (if include_enrichment
             then enrich store list_of_set reranked query 3 else reranked)
          = Ok chunks.
Proof.
  unfold retrieve.
  destruct (initial_results store top_k threshold query project_name)
    as [initial|e] eqn:Ei; [|discriminate].
  cbn [mbind result_bind bind].
  destruct initial as [|d0 rest]; [intros [= <-]; now left|].
  destruct (chosen_reranker _ _ _ _ _) as [reranked|e] eqn:Er; [|discriminate].
  cbn [bind]. intros H. right. now exists (d0 :: rest), reranked.
Qed.

(** X21. When the index reports no negative distance, every
    chunk that [retrieve] returns has a relevance score above 0 and at most
    1, with either re-ranker and with or without enrichment. *)
Theorem retrieve_scores query project_name section_filter include_enrichment
    chunks :
  pipeline_retrieve query project_name section_filter include_enrichment
  = Ok chunks ->
  Forall (fun chunk => (0 < RetrievedChunk.relevance_score chunk <= 1)%Q) chunks.
Proof.
  intros [->|(initial & reranked & Hi & Hr & Hc)]%retrieve_candidates;
    [constructor|].
  apply initial_retrieval_unit in Hi.
  apply (apply_filters_Forall _ _ section_filter) in Hi.
  apply (chosen_reranker_unit _ _ _ _ _ Hi) in Hr.
  assert (unit_scores (if include_enrichment
                       then enrich store list_of_set reranked query 3
                       else reranked)) as Hu
    by (destruct include_enrichment; [now apply enrich_unit | exact Hr]).
  apply to_retrieved_chunks_spec in Hc.
  apply List.Forall_forall. intros chunk Hin.
  apply (in_map RetrievedChunk.relevance_score) in Hin. rewrite Hc in Hin.
  apply in_map_iff in Hin as (ds & <- & Hds).
  now apply (proj1 (List.Forall_forall _ _) Hu).
Qed.

(** X22. When the index reports no negative distance, the
    chat model raises nothing but a [ValueError] or a [TypeError], and the
    first search returns, [retrieve] returns: no later stage raises, and in
    particular no score fails the validation of [RetrievedChunk]. *)
Theorem retrieve_returns query project_name section_filter include_enrichment
    initial :
  mild_failures llm ->
  initial_results store top_k threshold query project_name = Ok initial ->
  exists chunks,
    pipeline_retrieve query project_name section_filter include_enrichment
    = Ok chunks.
Proof.
  intros Hllm Hi. unfold retrieve. rewrite Hi. cbn [mbind result_bind bind].
  destruct initial as [|d0 rest]; [eauto|].
  set (initial := d0 :: rest) in *.
  apply initial_retrieval_unit in Hi.
  apply (apply_filters_Forall _ _ section_filter) in Hi.
  assert (exists reranked,
            chosen_reranker llm use_llm_reranking query
              (_apply_filters initial section_filter) (Some top_k) = Ok reranked)
    as [reranked Hr].
  { destruct use_llm_reranking; cbn; [|eauto]. now apply rerank_returns. }
  rewrite Hr. cbn [bind].
  apply (chosen_reranker_unit _ _ _ _ _ Hi) in Hr.
  assert (unit_scores (if include_enrichment
                       then enrich store list_of_set reranked query 3
                       else reranked)) as Hu
    by (destruct include_enrichment; [now apply enrich_unit | exact Hr]).
  destruct (to_retrieved_chunks_Ok
              (if include_enrichment
               then enrich store list_of_set reranked query 3 else reranked))
    as (chunks & Hc & _).
  { eapply List.Forall_impl; [|exact Hu]. intros ds Hds. cbn in Hds. lra. }
  eauto.
Qed.

End Store.

Section Count.

Variable store : string -> Z -> prefilter -> result (list scored).
Variable top_k : Z.
Variable threshold : Q.
Variable list_of_set : gset string -> list string.
Variable llm : string -> result string.
Variable use_llm_reranking : bool.

Lemma truncate_le k (l : list scored) :
  0 < k -> Z.of_nat (length (truncate (Some k) l)) <= k.
Proof.
  intros Hk. destruct (truncate_length (Some k) l) as [_ H].
  specialize (H k eq_refl Hk). lia.
Qed.

Lemma chosen_reranker_length query documents reranked :
  0 < top_k ->
  chosen_reranker llm use_llm_reranking query documents (Some top_k)
  = Ok reranked ->
  Z.of_nat (length reranked) <= top_k.
Proof.
  intros Hk. destruct use_llm_reranking; cbn.
  - unfold rerank. destruct documents as [|d0 docs].
    + intros [= <-]. simpl. lia.
    + destruct (combine_scores llm query (d0 :: docs)); [|discriminate].
      cbn [mbind result_bind bind]. intros [= <-]. now apply truncate_le.
  - intros [= <-]. unfold simple_rerank. now apply truncate_le.
Qed.

Lemma enrich_length documents query max_additional :
  respects_k store -> 0 <= max_additional ->
  Z.of_nat (length (enrich store list_of_set documents query max_additional))
  <= Z.of_nat (length documents) + 2 * max_additional.
Proof.
  intros Hk Hm. unfold enrich. destruct documents as [|d0 docs]; [simpl; lia|].
  set (documents := d0 :: docs).
  set (refs := list_slice_to (_extract_references list_of_set documents)
                 max_additional).
  destruct (related_groups_spec store refs (ids_of documents) Hk)
    as (Hlen & Hsize & _).
  pose proof (list_slice_to_length
                (_extract_references list_of_set documents) max_additional Hm)
    as Hrefs.
  fold refs in Hrefs.
  pose proof (concat_length_le _ 2%nat Hsize) as Hcat.
  rewrite length_app, length_map. lia.
Qed.

(** X23. With a store that answers a search for [k] results
    with at most [k], and [top_k] above 0, [retrieve] returns at most
    [top_k] chunks without enrichment and at most [top_k + 6] with it. *)
Theorem retrieve_count query project_name section_filter include_enrichment
    chunks :
  respects_k store -> 0 < top_k ->
  retrieve store top_k threshold list_of_set
    (chosen_reranker llm use_llm_reranking)
    query project_name section_filter include_enrichment = Ok chunks ->
  Z.of_nat (length chunks) <= top_k + (if include_enrichment then 6 else 0).
Proof.
  intros Hstore Hk H.
  assert (chunks = []
          \/ exists reranked docs,
               Z.of_nat (length reranked) <= top_k
               /\ docs = (if include_enrichment
                          then enrich store list_of_set reranked query 3
                          else reranked)
               /\ _to_retrieved_chunks docs = Ok chunks) as [->|Hc].
  { revert H. unfold retrieve.
    destruct (initial_results store top_k threshold query project_name)
      as [initial|e]; [|discriminate].
    cbn [mbind result_bind bind].
    destruct initial as [|d0 rest]; [intros [= <-]; now left|].
    destruct (chosen_reranker _ _ _ _ _) as [reranked|e] eqn:Er; [|discriminate].
    cbn [bind]. intros H. right. exists reranked. eexists.
    split; [now apply chosen_reranker_length in Er|]. split; [reflexivity|exact H]. }
  - destruct include_enrichment; simpl; lia.
  - destruct Hc as (reranked & docs & Hr & -> & Hc).
    apply to_retrieved_chunks_length in Hc. rewrite Hc.
    destruct include_enrichment; [|lia].
    pose proof (enrich_length reranked query 3 Hstore). lia.
Qed.

End Count.

Lemma example_store_nonneg : nonneg_distances example_store.
Proof.
  intros query k f results. unfold example_store.
  destruct (String.eqb query "section 2");
    [|destruct (String.eqb query "security requirements")];
    intros [= <-]; apply List.Forall_forall; intros ds Hin%firstn_In_list;
    simpl in Hin; intuition subst; simpl; lra.
Qed.

Lemma retrieve_scores_witness :
  exists chunks,
    retrieve example_store 10 0.3%Q elements
      (chosen_reranker (constant_llm "85") true)
      "security requirements" (Some "Alpha") None true = Ok chunks
    /\ length chunks = 3%nat
    /\ Forall (fun chunk => (0 < RetrievedChunk.relevance_score chunk <= 1)%Q)
         chunks.
Proof.
  destruct (retrieve example_store 10 0.3%Q elements
              (chosen_reranker (constant_llm "85") true)
              "security requirements" (Some "Alpha") None true)
    as [chunks|e] eqn:E; [|vm_compute in E; discriminate].
  exists chunks. split; [reflexivity|]. split.
  - vm_compute in E. injection E as <-. reflexivity.
  - apply (retrieve_scores example_store 10 0.3%Q elements (constant_llm "85")
             example_store_nonneg true "security requirements" (Some "Alpha")
             None true chunks E).
Defined.

Lemma retrieve_returns_witness :
  exists chunks,
    retrieve example_store 10 0.3%Q elements
      (chosen_reranker (constant_llm "no score") true)
      "security requirements" (Some "Alpha") None true = Ok chunks.
Proof.
  apply (retrieve_returns example_store 10 0.3%Q elements
           (constant_llm "no score") example_store_nonneg true
           "security requirements" (Some "Alpha") None true
           [(chunk "a" "all data is protected, see section 2", (1 / (1 + 9))%Q)]).
  - intros prompt e. discriminate.
  - reflexivity.
Defined.

Lemma retrieve_count_witness :
  exists chunks,
    retrieve example_store 10 0.3%Q elements
      (chosen_reranker (constant_llm "85") false)
      "security requirements" (Some "Alpha") None true = Ok chunks
    /\ Z.of_nat (length chunks) <= 10 + 6.
Proof.
  destruct (retrieve example_store 10 0.3%Q elements
              (chosen_reranker (constant_llm "85") false)
              "security requirements" (Some "Alpha") None true)
    as [chunks|e] eqn:E; [|vm_compute in E; discriminate].
  exists chunks. split; [reflexivity|].
  apply (retrieve_count example_store 10 0.3%Q elements (constant_llm "85") false
           "security requirements" (Some "Alpha") None true chunks
           example_store_respects_k); [lia | exact E].
Defined.

End PipelineFacts.

(* ===================================================================== *)
(** * The fenced block of a reply *)
(* ===================================================================== *)

Module FenceFacts.
Import Py Re Json Conv Parser Text TextFacts FenceNames ParserFacts.
Local Open Scope nat_scope.

Lemma exec_Lit {A} l s pos g (k : mstate -> option A) :
  exec (Lit l) (MState (l +:+ s) pos g) k = k (MState s (pos + slen l) g).
Proof.
  revert pos. induction l as [|c l IH]; intros pos.
  - cbn. now rewrite Nat.add_0_r.
  - rewrite str_app_cons. cbn [Lit exec Chr m_rest m_pos m_grp].
    rewrite Ascii.eqb_refl, IH. cbn [String.length]. do 2 f_equal. lia.
Qed.

Lemma exec_Lit_fail {A} c l d s pos g (k : mstate -> option A) :
  c <> d -> exec (Lit (String c l)) (MState (String d s) pos g) k = None.
Proof.
  intros Hcd. cbn [Lit exec Chr m_rest].
  destruct (Ascii.eqb c d) eqn:E; [|reflexivity].
  apply Ascii.eqb_eq in E. congruence.
Qed.

Lemma exec_Lit_end {A} c l pos g (k : mstate -> option A) :
  exec (Lit (String c l)) (MState "" pos g) k = None.
Proof. reflexivity. Qed.

Lemma star_loop_S {A} (body : mstate -> (mstate -> option A) -> option A)
    greedy k n st :
  star_loop body greedy k (S n) st
  = let again st' :=
      if m_pos st <? m_pos st' then star_loop body greedy k n st' else None in
    if greedy
    then match body st again with Some x => Some x | None => k st end
    else match k st with Some x => Some x | None => body st again end.
Proof. reflexivity. Qed.

Lemma exec_Cls {A} p c s pos g (k : mstate -> option A) :
  exec (Cls p) (MState (String c s) pos g) k
  = if p c then k (MState s (S pos) g) else None.
Proof. reflexivity. Qed.

Lemma exec_Cls_end {A} p pos g (k : mstate -> option A) :
  exec (Cls p) (MState "" pos g) k = None.
Proof. reflexivity. Qed.

(** Greedy whitespace before a text that does not start with whitespace:
    all of it is read when the rest of the pattern then matches. *)
Lemma greedy_ws_all {A} w s pos g (k : mstate -> option A) x n :
  all_chars isspace w = true -> no_leading_space s -> slen w <= n ->
  k (MState s (pos + slen w) g) = Some x ->
  star_loop (exec ws) true k n (MState (w +:+ s) pos g) = Some x.
Proof.
  intros Hw Hs. revert pos n. induction w as [|c w IH]; intros pos n Hn Hk.
  - cbn [String.length] in Hk. rewrite Nat.add_0_r in Hk. rewrite str_app_nil_l.
    destruct n as [|n]; [exact Hk|]. rewrite star_loop_S. cbv zeta. unfold ws.
    destruct s as [|d s].
    + now rewrite exec_Cls_end.
    + rewrite exec_Cls. cbn in Hs. now rewrite Hs.
  - cbn [all_chars] in Hw. apply andb_true_iff in Hw as [Hc Hw].
    cbn [String.length] in *. destruct n as [|n]; [lia|].
    rewrite str_app_cons, star_loop_S. cbv zeta. unfold ws at 1.
    rewrite exec_Cls, Hc. cbn [m_pos].
    assert ((pos <? S pos) = true) as -> by (apply Nat.ltb_lt; lia).
    rewrite (IH Hw (S pos) n); [reflexivity | lia|].
    now replace (S pos + slen w) with (pos + S (slen w)) by lia.
Qed.

Lemma no_fence_ahead_head s :
  no_fence_ahead s = true ->
  match s with String c _ => c <> "`"%char | EmptyString => True end.
Proof.
  unfold no_fence_ahead. destruct s as [|c s]; [trivial|]. cbn [lstrip].
  destruct (isspace c) eqn:Ec.
  - intros _ ->. discriminate Ec.
  - intros H%negb_true_iff%Ascii.eqb_neq. exact H.
Qed.

Lemma fence_fails {A} s pos g (k : mstate -> option A) :
  no_fence_ahead s = true -> exec (Lit fence) (MState s pos g) k = None.
Proof.
  intros Hs%no_fence_ahead_head.
  destruct s as [|c s]; [reflexivity|]. apply exec_Lit_fail. congruence.
Qed.

(** Whitespace and then a fence do not match a text that reads something
    else after its whitespace. *)
Lemma greedy_ws_no_fence {A} n s pos g (k : mstate -> option A) :
  no_fence_ahead s = true ->
  star_loop (exec ws) true (fun st => exec (Lit fence) st k) n (MState s pos g)
  = None.
Proof.
  revert s pos. induction n as [|n IH]; intros s pos Hs.
  - cbn [star_loop]. now apply fence_fails.
  - rewrite star_loop_S. cbv zeta. rewrite (fence_fails s pos g k Hs).
    unfold ws at 1. destruct s as [|c s]; [now rewrite exec_Cls_end|].
    rewrite exec_Cls. destruct (isspace c) eqn:Ec; [|reflexivity].
    cbn [m_pos].
    assert ((pos <? S pos) = true) as -> by (apply Nat.ltb_lt; lia).
    rewrite IH; [reflexivity|]. unfold no_fence_ahead in *. cbn [lstrip] in Hs.
    now rewrite Ec in Hs.
Qed.

(** The lazy repetition of any character stops at the first place where
    the rest of the pattern matches. *)
Lemma lazy_any_first {A} core tail pos g (k : mstate -> option A) x n :
  slen core <= n ->
  (forall j, j < slen core ->
             k (MState (drop j core +:+ tail) (pos + j) g) = None) ->
  k (MState tail (pos + slen core) g) = Some x ->
  star_loop (exec Any) false k n (MState (core +:+ tail) pos g) = Some x.
Proof.
  revert pos n. induction core as [|c core IH]; intros pos n Hn Hfail Hk.
  - cbn [String.length] in Hk. rewrite Nat.add_0_r in Hk. rewrite str_app_nil_l.
    destruct n; [exact Hk|]. rewrite star_loop_S. cbv zeta. now rewrite Hk.
  - cbn [String.length] in *. destruct n as [|n]; [lia|].
    rewrite star_loop_S. cbv zeta. pose proof (Hfail 0 ltac:(lia)) as H0.
    cbn [drop] in H0. rewrite Nat.add_0_r in H0. rewrite H0.
    rewrite str_app_cons. unfold Any at 1. rewrite exec_Cls. cbn [m_pos].
    assert ((pos <? S pos) = true) as -> by (apply Nat.ltb_lt; lia).
    apply IH; [lia| |].
    + intros j Hj. specialize (Hfail (S j) ltac:(lia)). cbn [drop] in Hfail.
      now replace (S pos + j) with (pos + S j) by lia.
    + now replace (S pos + slen core) with (pos + S (slen core)) by lia.
Qed.

(** ** A text and its stripped form *)

Lemma lstrip_split s :
  exists w, all_chars isspace w = true /\ s = w +:+ lstrip s.
Proof.
  induction s as [|c s (w & Hw & IH)]; [now exists ""|].
  cbn [lstrip]. destruct (isspace c) eqn:Ec.
  - exists (String c w). cbn [all_chars]. rewrite Ec, Hw. split; [reflexivity|].
    rewrite str_app_cons. now rewrite <- IH.
  - now exists "".
Qed.

Lemma rstrip_split s :
  exists w, all_chars isspace w = true /\ s = rstrip s +:+ w.
Proof.
  induction s as [|c s (w & Hw & IH)]; [now exists ""|].
  cbn [rstrip]. destruct (rstrip s) as [|d r] eqn:E.
  - rewrite str_app_nil_l in IH. subst w. destruct (isspace c) eqn:Ec.
    + exists (String c s). cbn [all_chars]. now rewrite Ec, Hw.
    + exists s. split; [exact Hw | reflexivity].
  - exists w. split; [exact Hw|]. rewrite str_app_cons. now rewrite <- IH.
Qed.

Lemma strip_split s :
  exists w1 w2, all_chars isspace w1 = true /\ all_chars isspace w2 = true
                /\ s = w1 +:+ strip s +:+ w2.
Proof.
  destruct (lstrip_split s) as (w1 & H1 & E1).
  destruct (rstrip_split (lstrip s)) as (w2 & H2 & E2).
  exists w1, w2. repeat split; try assumption.
  unfold strip. now rewrite <- E2.
Qed.

Lemma count_char_app c a b :
  count_char c (a +:+ b) = count_char c a + count_char c b.
Proof.
  induction a as [|x a IH]; [reflexivity|].
  rewrite str_app_cons. cbn [count_char]. rewrite IH. lia.
Qed.

(** A text that ends with no whitespace: so do its suffixes. *)
Lemma rstrip_tail c s :
  rstrip (String c s) = String c s -> s = "" \/ rstrip s = s.
Proof.
  cbn [rstrip]. destruct (rstrip s) as [|d r] eqn:E.
  - destruct (isspace c); [discriminate|]. intros [= <-]. now left.
  - intros [= <-]. now right.
Qed.

Lemma rstrip_head c s :
  rstrip (String c s) = String c s -> s = "" -> isspace c = false.
Proof.
  intros H ->. cbn in H. now destruct (isspace c).
Qed.

(** A text without backticks that is not empty and ends with no
    whitespace, followed by anything, reads something else than a backtick
    after its whitespace. *)
Lemma suffix_no_fence u tail :
  u <> "" -> rstrip u = u -> count_char "`" u = 0 ->
  no_fence_ahead (u +:+ tail) = true.
Proof.
  induction u as [|c u IH]; [congruence|]. intros _ Hr Hc.
  cbn [count_char] in Hc.
  destruct (Ascii.eqb "`" c) eqn:E; [discriminate|]. cbn in Hc.
  unfold no_fence_ahead. rewrite str_app_cons. cbn [lstrip].
  destruct (isspace c) eqn:Ec.
  - destruct (rstrip_tail c u Hr) as [->|Hu].
    + apply rstrip_head in Hr; congruence.
    + apply IH; [|exact Hu|exact Hc].
      intros ->. apply rstrip_head in Hr; congruence.
  - apply negb_true_iff. rewrite Ascii.eqb_sym. exact E.
Qed.

Lemma drop_suffix u j :
  rstrip u = u -> count_char "`" u = 0 -> j < slen u ->
  drop j u <> "" /\ rstrip (drop j u) = drop j u
  /\ count_char "`" (drop j u) = 0.
Proof.
  revert u. induction j as [|j IH]; intros u Hr Hc Hj.
  - cbn [drop]. destruct u; [simpl in Hj; lia|]. repeat split; auto; discriminate.
  - destruct u as [|c u]; [simpl in Hj; lia|]. cbn [drop].
    cbn [String.length] in Hj. cbn [count_char] in Hc.
    destruct (rstrip_tail c u Hr) as [->|Hu]; [simpl in Hj; lia|].
    apply IH; [exact Hu | lia | lia].
Qed.

Lemma drop_app_length a b : drop (slen a) (a +:+ b) = b.
Proof. induction a as [|c a IH]; [reflexivity|]. now rewrite str_app_cons. Qed.

Lemma take_app_length a b : take (slen a) (a +:+ b) = a.
Proof.
  induction a as [|c a IH]; [now destruct b|].
  rewrite str_app_cons. cbn [String.length take]. now rewrite IH.
Qed.

(** ** The first pattern of [_extract_json] on a fenced block *)

Lemma exec_Seq {A} r1 r2 st (k : mstate -> option A) :
  exec (Seq r1 r2) st k = exec r1 st (fun st' => exec r2 st' k).
Proof. reflexivity. Qed.

Lemma exec_Star {A} greedy r st (k : mstate -> option A) :
  exec (Star greedy r) st k
  = star_loop (exec r) greedy k (slen (m_rest st)) st.
Proof. reflexivity. Qed.

Lemma exec_Group {A} r st (k : mstate -> option A) :
  exec (Group r) st k
  = exec r st (fun st' =>
      k (MState (m_rest st') (m_pos st') (Some (m_pos st, m_pos st')))).
Proof. reflexivity. Qed.

(** The match of the pattern at the opening fence: the group is the
    stripped body. *)
Lemma match_fenced w1 core w2 post p :
  all_chars isspace w1 = true -> all_chars isspace w2 = true ->
  core <> "" -> no_leading_space core -> rstrip core = core ->
  count_char "`" core = 0 ->
  match_at fenced_pattern
    ("```json" +:+ w1 +:+ core +:+ w2 +:+ fence +:+ post) p
  = Some (MState post (p + 7 + slen w1 + slen core + slen w2 + 3)
            (Some (p + 7 + slen w1, p + 7 + slen w1 + slen core))).
Proof.
  intros Hw1 Hw2 Hne Hlead Hr Hc.
  unfold match_at, fenced_pattern. cbn [Seqs].
  rewrite exec_Seq, exec_Lit. cbn [String.length].
  rewrite exec_Seq, exec_Star. cbn [m_rest].
  apply greedy_ws_all; [exact Hw1| |rewrite str_length_app; lia|].
  { destruct core as [|c core]; [congruence|]. exact Hlead. }
  rewrite exec_Seq, exec_Group, exec_Star. cbn [m_rest m_pos].
  apply lazy_any_first; [rewrite str_length_app; lia| |].
  - intros j Hj. cbn [m_rest m_pos].
    rewrite exec_Seq, exec_Star. cbn [m_rest].
    apply greedy_ws_no_fence.
    destruct (drop_suffix core j Hr Hc Hj) as (H1 & H2 & H3).
    now apply suffix_no_fence.
  - cbn [m_rest m_pos]. rewrite exec_Seq, exec_Star. cbn [m_rest].
    apply greedy_ws_all; [exact Hw2|reflexivity|rewrite str_length_app; lia|].
    rewrite exec_Lit. cbn [String.length fence]. do 2 f_equal.
Qed.

Lemma match_fenced_fail c s p :
  c <> "`"%char -> match_at fenced_pattern (String c s) p = None.
Proof.
  intros Hc. unfold match_at, fenced_pattern. cbn [Seqs].
  rewrite exec_Seq. apply exec_Lit_fail. congruence.
Qed.

Lemma search_fenced pre rest p m :
  count_char "`" pre = 0 ->
  match_at fenced_pattern rest (p + slen pre) = Some m ->
  search fenced_pattern (pre +:+ rest) p = Some (p + slen pre, m).
Proof.
  revert p. induction pre as [|c pre IH]; intros p Hc Hm.
  - cbn [String.length] in *. rewrite Nat.add_0_r in *. rewrite str_app_nil_l.
    destruct rest; cbn [search]; now rewrite Hm.
  - cbn [count_char] in Hc.
    destruct (Ascii.eqb "`" c) eqn:E; [discriminate|]. cbn in Hc.
    rewrite str_app_cons. cbn [search].
    rewrite match_fenced_fail by (apply Ascii.eqb_neq; now rewrite Ascii.eqb_sym).
    cbn [String.length] in *.
    rewrite (IH (S p) Hc); [do 2 f_equal; lia|].
    now replace (S p + slen pre) with (p + S (slen pre)) by lia.
Qed.

(** X24. A reply that holds a block fenced with three backticks and
    the word json is read from that block: when no backtick occurs before
    the block or inside it, the reply as a whole is not JSON, and the block,
    stripped, starts with a brace and decodes to [v], then [_extract_json]
    returns [v], whatever follows the block. *)
Theorem extract_json_fenced pre body post v :
  let text := pre +:+ "```json" +:+ body +:+ fence +:+ post in
  count_char "`" pre = 0 -> count_char "`" body = 0 ->
  decode_fails text = true ->
  startswith (strip body) "{" = true ->
  loads (strip body) = Ok v ->
  _extract_json text = Ok v.
Proof.
  intros text Hpre Hbody Hdec Hbrace Hloads.
  destruct (strip_split body) as (w1 & w2 & Hw1 & Hw2 & Hsplit).
  remember (strip body) as core eqn:Ecore.
  assert (core <> "") as Hne by (intros E; rewrite E in Hbrace; discriminate).
  assert (no_leading_space core) as Hlead.
  { clear - Hbrace. destruct core as [|c core']; [exact I|].
    cbn [startswith] in Hbrace. cbn [no_leading_space].
    destruct (Ascii.eqb "{" c) eqn:E; [|discriminate].
    apply Ascii.eqb_eq in E as <-. reflexivity. }
  assert (rstrip core = core) as Hr by (rewrite Ecore; apply rstrip_idem).
  assert (count_char "`" core = 0) as Hc.
  { rewrite Hsplit, !count_char_app in Hbody. lia. }
  assert (text = (pre +:+ "```json" +:+ w1) +:+ core +:+ w2 +:+ fence +:+ post)
    as Htext.
  { unfold text. rewrite Hsplit at 1. now rewrite !str_app_assoc. }
  assert (search fenced_pattern text 0
          = Some (slen pre,
                  MState post (slen pre + 7 + slen w1 + slen core + slen w2 + 3)
                    (Some (slen pre + 7 + slen w1,
                           slen pre + 7 + slen w1 + slen core)))) as Hsearch.
  { rewrite Htext, !str_app_assoc.
    apply (search_fenced pre _ 0); [exact Hpre|].
    now apply match_fenced. }
  assert (exists rest, findall fenced_pattern text = core :: rest) as [rest Hfind].
  { unfold findall, finditer. cbn [finditer_go]. rewrite Hsearch.
    cbn [List.map snd fst]. eexists. f_equal.
    change (has_group fenced_pattern) with true. cbv iota.
    unfold group1, substr. cbn [m_grp].
    replace (slen pre + 7 + slen w1 + slen core - (slen pre + 7 + slen w1))
      with (slen core) by lia.
    replace (slen pre + 7 + slen w1) with (slen (pre +:+ "```json" +:+ w1))
      by (rewrite !str_length_app; cbn [String.length]; lia).
    rewrite Htext, drop_app_length. apply take_app_length. }
  apply decode_fails_Raise in Hdec as (e & He & Hje).
  unfold _extract_json. rewrite He, Hje.
  change json_patterns with (fenced_pattern :: List.tl json_patterns).
  cbn [try_patterns]. rewrite Hfind. cbn [try_matches].
  replace (strip core) with core by (rewrite Ecore; symmetry; apply strip_idem).
  rewrite Hbrace, Hloads. reflexivity.
Qed.

Lemma extract_json_fenced_witness :
  _extract_json (fenced_reply_pre +:+ "```json" +:+ fenced_reply_body
                 +:+ fence +:+ fenced_reply_post)
  = Ok (JDict [("answer", JStr "ok")]).
Proof.
  apply (extract_json_fenced fenced_reply_pre fenced_reply_body
           fenced_reply_post (JDict [("answer", JStr "ok")]));
    vm_compute; reflexivity.
Defined.

End FenceFacts.
